(** * cannon.js v0.3.3: a shallow embedding of the physics core

    The JavaScript sources are embedded as Rocq functions, one definition
    per source function, keeping the source's names.

    - A JavaScript Number is an IEEE-754 binary64 value: Rocq's primitive
      [float], whose operations are the hardware ones.
    - A [Float32Array] is a [list float]; every store goes through
      [fround] (round to nearest binary32, ties to even), as the typed
      array does.  An [Int16Array] is a [list Z] with stores wrapped by
      [toInt16].
    - A store outside a typed array does nothing and a read outside it
      gives [undefined], which every use in these sources turns into NaN.
    - A call ends in a [completion]: [Ok] with its value or [Throw].
    - Objects that the source mutates in place (vectors passed as
      [target], the world, a body) are passed and returned explicitly. *)

From Stdlib Require Import ZArith Floats Bool String Lia Sorted.
From stdpp Require Import base list.

Local Open Scope float_scope.
Local Set Warnings "-inexact-float".

(** ** Numbers *)

Abbreviation num := float.

(** [Math.fround]: what a store into a [Float32Array] keeps. *)
Definition fround (v : num) : num :=
  match Prim2SF v with
  | S754_finite s m e => SF2Prim (binary_round 24 128 s m e)
  | _ => v
  end.

(** The global [isNaN] on a Number. *)
Definition isNaN (v : num) : bool := is_nan v.

(** ToBoolean on a Number: 0, -0 and NaN are falsy. *)
Definition truthy (v : num) : bool := negb (is_zero v || is_nan v).

(** [v || 0.0] *)
Definition or_zero (v : num) : num := if truthy v then v else 0.

(** [a != b] on Numbers. *)
Definition neqb (a b : num) : bool := negb (a =? b).

(** [a > b] on Numbers. *)
Definition gtb (a b : num) : bool := (b <? a).

(** Conversion of a store into an [Int16Array]. *)
Definition toInt16 (v : Z) : Z := ((v + 32768) mod 65536 - 32768)%Z.

(** ** Typed arrays *)

(** [a[i]] read from a [Float32Array] and used as a Number. *)
Definition getF (a : list num) (i : nat) : num := default nan (a !! i).

(** [a[i] = v] on a [Float32Array]. *)
Definition setF (a : list num) (i : nat) (v : num) : list num :=
  <[i := fround v]> a.

(** The same with an index that may be negative ([-1] for "no body"). *)
Definition getFz (a : list num) (i : Z) : num :=
  if (i <? 0)%Z then nan else getF a (Z.to_nat i).

Definition setFz (a : list num) (i : Z) (v : num) : list num :=
  if (i <? 0)%Z then a else setF a (Z.to_nat i) v.

(** [a[i]] read from an [Int16Array]; [None] is [undefined]. *)
Definition getI (a : list Z) (i : nat) : option Z := a !! i.

Definition setI (a : list Z) (i : nat) (v : Z) : list Z :=
  <[i := toInt16 v]> a.

(** [new Float32Array(n)] and [new Int16Array(n)]. *)
Definition Float32Array (n : nat) : list num := replicate n 0.
Definition Int16Array (n : nat) : list Z := replicate n 0%Z.

(** [new Float32Array(elements)]. *)
Definition Float32Array_from (els : list num) : list num := map fround els.

(** ** Exceptions *)

Inductive completion (A : Type) : Type :=
| Ok (a : A)
| Throw (msg : string).
Arguments Ok {A} a.
Arguments Throw {A} msg.

Definition bind {A B : Type} (r : completion A) (k : A -> completion B) : completion B :=
  match r with
  | Ok a => k a
  | Throw msg => Throw msg
  end.

Notation "'try' a := r 'in' k" := (bind r (fun a => k))
  (at level 10, a name, r at level 200, k at level 200).

(** ** Vec3 *)

Module Vec3.

Record t : Type := mk { x : num; y : num; z : num }.

(** [new CANNON.Vec3(x,y,z)]: each component is [c || 0.0]. *)
Definition new (x y z : num) : t := mk (or_zero x) (or_zero y) (or_zero z).

(** [new CANNON.Vec3()] *)
Definition new0 : t := mk 0 0 0.

(** [this.cross(v,target)]: the three components are stored as computed. *)
Definition cross (this v : t) : t :=
  mk (y this * z v - z this * y v)
     (z this * x v - x this * z v)
     (x this * y v - y this * x v).

(** [this.vadd(v)] without a target: a new vector. *)
Definition vadd (this v : t) : t :=
  new (x this + x v) (y this + y v) (z this + z v).

(** [this.vsub(v)] without a target: a new vector. *)
Definition vsub (this v : t) : t :=
  new (x this - x v) (y this - y v) (z this - z v).

Definition norm (this : t) : num :=
  sqrt (x this * x this + y this * y this + z this * z this).

(** [this.normalize()]: the normalised vector and the returned norm. *)
Definition normalize (this : t) : t * num :=
  let n := sqrt (x this * x this + y this * y this + z this * z this) in
  if gtb n 0 then (mk (x this / n) (y this / n) (z this / n), n)
  else (mk 0 0 0, n).

(** [this.mult(scalar,saveinme)]: the value left in [saveinme]. *)
Definition mult (this : t) (scalar : num) : t :=
  mk (scalar * x this) (scalar * y this) (scalar * z this).

Definition dot (this v : t) : num :=
  x this * x v + y this * y v + z this * z v.

Definition negate (this : t) : t := mk (- x this) (- y this) (- z this).

Definition copy (this : t) : t := mk (x this) (y this) (z this).

End Vec3.

(** ** Mat3 *)

Module Mat3.

(** [this.elements], a [Float32Array] of 9. *)
Definition t : Type := list num.

(** [new CANNON.Mat3(elements)] and [new CANNON.Mat3()]. *)
Definition new (elements : list num) : t := Float32Array_from elements.
Definition new0 : t := Float32Array 9.

(** [this.vmult(v)]: the inner product uses [vec[i]], as the source does. *)
Definition vmult (this : t) (v : Vec3.t) : Vec3.t :=
  let vec := [Vec3.x v; Vec3.y v; Vec3.z v] in
  let row (i : nat) :=
    fold_left (fun acc j => acc + getF this (i + 3 * j) * default nan (vec !! i))
              (seq 0 3) 0 in
  Vec3.mk (row 0%nat) (row 1%nat) (row 2%nat).

(** [this.mmult(m)] *)
Definition mmult (this m : t) : t :=
  fold_left
    (fun r i =>
       fold_left
         (fun r j =>
            let sum :=
              fold_left (fun sum k => sum + getF this (i + k) * getF m (k + j * 3))
                        (seq 0 3) 0 in
            setF r (i + j * 3) sum)
         (seq 0 3) r)
    (seq 0 3) new0.

(** The [els] array built by the two [do ... while(--np)] loops, [p = 0..3]. *)
Definition els_add (eqns : list num) (i j : nat) : list num :=
  map (fun p => getF eqns (p + 4 * i) + getF eqns (p + 4 * j)) (seq 0 4).

Definition els_sub (eqns : list num) (i j : nat) (multiplier : num) : list num :=
  map (fun p => if (p <=? i)%nat then 0
                else getF eqns (p + 4 * j) - getF eqns (p + 4 * i) * multiplier)
      (seq 0 4).

(** The three stores [eqns[c+nc*0] = els[0]; eqns[c+nc*1] = els[1];
    eqns[c+nc*2] = els[2]]. *)
Definition store_els (eqns : list num) (c : nat) (els : list num) : list num :=
  let eqns := setF eqns (c + 4 * 0) (getF els 0) in
  let eqns := setF eqns (c + 4 * 1) (getF els 1) in
  setF eqns (c + 4 * 2) (getF els 2).

(** [if (eqns[i+nc*i] == 0) for (j = i+1; j < k; j++) if (eqns[i+nc*j] != 0) {...; break}] *)
Fixpoint pivot (eqns : list num) (i : nat) (js : list nat) : list num :=
  match js with
  | [] => eqns
  | j :: js' =>
      if neqb (getF eqns (i + 4 * j)) 0
      then store_els eqns i (els_add eqns i j)
      else pivot eqns i js'
  end.

(** [if (eqns[i+nc*i] != 0) for (j = i+1; j < k; j++) {...}] *)
Definition eliminate (eqns : list num) (i : nat) (js : list nat) : list num :=
  fold_left
    (fun eqns j =>
       let multiplier := getF eqns (i + 4 * j) / getF eqns (i + 4 * i) in
       store_els eqns j (els_sub eqns i j multiplier))
    js eqns.

(** One round of the outer [do ... while(--n)], at [i = k - n]. *)
Definition gauss_round (eqns : list num) (i : nat) : list num :=
  let js := seq (i + 1) (3 - (i + 1)) in
  let eqns := if getF eqns (i + 4 * i) =? 0 then pivot eqns i js else eqns in
  if neqb (getF eqns (i + 4 * i)) 0 then eliminate eqns i js else eqns.

(** The augmented system [eqns], a [Float32Array] of [nr*nc = 12]. *)
Definition equations (this : t) (b : Vec3.t) : list num :=
  let eqns := Float32Array 12 in
  let eqns :=
    fold_left
      (fun eqns i =>
         fold_left (fun eqns j => setF eqns (i + 4 * j) (getF this (i + 3 * j)))
                   (seq 0 3) eqns)
      (seq 0 3) eqns in
  let eqns := setF eqns (3 + 4 * 0) (Vec3.x b) in
  let eqns := setF eqns (3 + 4 * 1) (Vec3.y b) in
  setF eqns (3 + 4 * 2) (Vec3.z b).

(** [this.solve(b)]: solve [A x = b]. *)
Definition solve (this : t) (b : Vec3.t) : completion Vec3.t :=
  let eqns := equations this b in
  let eqns := fold_left gauss_round (seq 0 3) eqns in
  let tz := getF eqns (2 * 4 + 3) / getF eqns (2 * 4 + 2) in
  let ty := (getF eqns (1 * 4 + 3) - getF eqns (1 * 4 + 2) * tz)
            / getF eqns (1 * 4 + 1) in
  let tx := (getF eqns (0 * 4 + 3) - getF eqns (0 * 4 + 2) * tz
             - getF eqns (0 * 4 + 1) * ty) / getF eqns (0 * 4 + 0) in
  if isNaN tx || isNaN ty || isNaN tz
     || (tx =? infinity) || (ty =? infinity) || (tz =? infinity)
  then Throw "Could not solve equation!"
  else Ok (Vec3.mk tx ty tz).

End Mat3.

(** [this.crossmat()] of a [Vec3]. *)
Definition crossmat (this : Vec3.t) : Mat3.t :=
  Mat3.new [ 0; - Vec3.z this; Vec3.y this;
             Vec3.z this; 0; - Vec3.x this;
             - Vec3.y this; Vec3.x this; 0 ].

(** ** Quaternion *)

Module Quaternion.

Record t : Type := mk { x : num; y : num; z : num; w : num }.

(** [new CANNON.Quaternion(x,y,z,w)]; [None] is an argument left out. *)
Definition new (x y z w : option num) : t :=
  mk (default 1 x) (default 0 y) (default 0 z) (default 0 w).

(** [this.mult(q)] *)
Definition mult (this q : t) : t :=
  let va := Vec3.new (x this) (y this) (z this) in
  let vb := Vec3.new (x q) (y q) (z q) in
  let tw := w this * w q - Vec3.dot va vb in
  let vaxvb := Vec3.cross va vb in
  mk (w this * Vec3.x vb + w q * Vec3.x va + Vec3.x vaxvb)
     (w this * Vec3.y vb + w q * Vec3.y va + Vec3.y vaxvb)
     (w this * Vec3.z vb + w q * Vec3.z va + Vec3.z vaxvb)
     tw.

(** [this.normalize()] *)
Definition normalize (this : t) : t :=
  let l := sqrt (x this * x this + y this * y this + z this * z this
                 + w this * w this) in
  if l =? 0 then mk 0 0 0 0
  else
    let l := 1 / l in
    mk (x this * l) (y this * l) (z this * l) (w this * l).

(** [this.vmult(v,target)]: the value left in [target]. *)
Definition vmult (this : t) (v : Vec3.t) : Vec3.t :=
  let x := Vec3.x v in
  let y := Vec3.y v in
  let z := Vec3.z v in
  let qx := Quaternion.x this in
  let qy := Quaternion.y this in
  let qz := Quaternion.z this in
  let qw := Quaternion.w this in
  let ix := qw * x + qy * z - qz * y in
  let iy := qw * y + qz * x - qx * z in
  let iz := qw * z + qx * y - qy * x in
  let iw := (- qx) * x - qy * y - qz * z in
  Vec3.mk (ix * qw + iw * (- qx) + iy * (- qz) - iz * (- qy))
          (iy * qw + iw * (- qy) + iz * (- qx) - ix * (- qz))
          (iz * qw + iw * (- qz) + ix * (- qy) - iy * (- qx)).

End Quaternion.

(** ** Shapes

    [CANNON.Sphere], [CANNON.Box] and [CANNON.Plane]; the abstract base
    [CANNON.Shape] is never instantiated by the engine. *)

Module Shape.

Inductive t : Type :=
| Sphere (radius : num)
| Box (halfExtents : Vec3.t)
| Plane (normal : Vec3.t).

(** [CANNON.Shape.types] *)
Definition SPHERE : Z := 1.
Definition PLANE : Z := 2.
Definition BOX : Z := 4.

(** [new CANNON.Sphere(radius)] *)
Definition Sphere_new (radius : option num) : t := Sphere (default 1 radius).

(** [new CANNON.Box(halfExtents)] *)
Definition Box_new (halfExtents : Vec3.t) : t := Box halfExtents.

(** [new CANNON.Plane(normal)]: the normal is normalised in place. *)
Definition Plane_new (normal : Vec3.t) : t := Plane (fst (Vec3.normalize normal)).

Definition type (s : t) : Z :=
  match s with
  | Sphere _ => SPHERE
  | Box _ => BOX
  | Plane _ => PLANE
  end.

(** [shape.radius], [shape.normal], [shape.halfExtents]; a property the
    shape does not have is [undefined]. *)
Definition radius (s : t) : num :=
  match s with Sphere r => r | _ => nan end.

Definition normal (s : t) : option Vec3.t :=
  match s with Plane n => Some n | _ => None end.

Definition halfExtents (s : t) : option Vec3.t :=
  match s with Box h => Some h | _ => None end.

(** [shape.calculateLocalInertia(mass)] *)
Definition calculateLocalInertia (s : t) (mass : num) : Vec3.t :=
  match s with
  | Sphere radius =>
      let I := 2 * mass * radius * radius / 5 in
      Vec3.mk I I I
  | Box h =>
      Vec3.mk (1 / 12 * mass * (Vec3.y h * Vec3.y h + Vec3.z h * Vec3.z h))
              (1 / 12 * mass * (Vec3.x h * Vec3.x h + Vec3.z h * Vec3.z h))
              (1 / 12 * mass * (Vec3.y h * Vec3.y h + Vec3.x h * Vec3.x h))
  | Plane _ => Vec3.new0
  end.

End Shape.

(** ** RigidBody: the record and its constructor *)

Module RigidBody.

(** The properties of a body.  [_torque] is read by [getTorque] and is
    assigned nowhere in the sources: it stays [undefined] ([None]).
    [_id] is [-1] until the body is added to a world; [_world] is then
    the world that is passed along with the body. *)
Record t : Type := mk {
  _position : Vec3.t;
  _velocity : Vec3.t;
  _force : Vec3.t;
  _tau : Vec3.t;
  _quaternion : Quaternion.t;
  _rotvelo : Vec3.t;
  _mass : num;
  _shape : Shape.t;
  _inertia : Vec3.t;
  _torque : option Vec3.t;
  _id : Z
}.

(** [new CANNON.RigidBody(mass,shape)] *)
Definition new (mass : num) (shape : Shape.t) : t :=
  {| _position := Vec3.new0;
     _velocity := Vec3.new0;
     _force := Vec3.new0;
     _tau := Vec3.new0;
     _quaternion := Quaternion.new (Some 1) (Some 0) (Some 0) (Some 0);
     _rotvelo := Vec3.new0;
     _mass := mass;
     _shape := shape;
     _inertia := Shape.calculateLocalInertia shape mass;
     _torque := None;
     _id := (-1)%Z |}.

End RigidBody.

(** ** Solver *)

Module Solver.

(** The values [addConstraint] receives as [lower] and [upper]: a Number,
    or the string ['inf'] that [World.step] passes. *)
Inductive bound : Type :=
| Num (v : num)
| Str_inf.

(** ToNumber: the string ['inf'] is not a numeric literal. *)
Definition toNumber (b : bound) : num :=
  match b with
  | Num v => v
  | Str_inf => nan
  end.

(** The six per-body scratch arrays. *)
Record scratch : Type := mkScratch {
  vxlambda : list num;
  vylambda : list num;
  vzlambda : list num;
  wxlambda : list num;
  wylambda : list num;
  wzlambda : list num
}.

(** The solver object; [lambdas] is [None] until [reset] is called with
    a non-zero number of bodies. *)
Record t : Type := mk {
  iter : nat;
  h : num;
  a : num;
  b : num;
  eps : num;
  k : num;
  d : num;
  G : list num;
  MinvTrace : list num;
  Fext : list num;
  q : list num;
  qdot : list num;
  n : nat;
  upper : list bound;
  lower : list bound;
  hasupper : list bool;
  haslower : list bool;
  i : list Z;
  j : list Z;
  lambdas : option scratch;
  result : list num
}.

(** [this.reset(numbodies)] *)
Definition reset (this : t) (numbodies : nat) : t :=
  {| iter := iter this; h := h this; a := a this; b := b this;
     eps := eps this; k := k this; d := d this;
     G := []; MinvTrace := []; Fext := []; q := []; qdot := [];
     n := 0;
     upper := []; lower := []; hasupper := []; haslower := [];
     i := []; j := [];
     lambdas :=
       if (numbodies =? 0)%nat then lambdas this
       else Some (mkScratch (Float32Array numbodies) (Float32Array numbodies)
                            (Float32Array numbodies) (Float32Array numbodies)
                            (Float32Array numbodies) (Float32Array numbodies));
     result := result this |}.

(** [new CANNON.Solver(a,b,eps,k,d,iter,h)] *)
Definition new (a b eps k d : num) (iter : nat) (h : num) : t :=
  reset
    {| iter := if (iter =? 0)%nat then 10 else iter;
       h := if truthy h then h else 1 / 60;
       a := a; b := b; eps := eps; k := k; d := d;
       G := []; MinvTrace := []; Fext := []; q := []; qdot := [];
       n := 0;
       upper := []; lower := []; hasupper := []; haslower := [];
       i := []; j := [];
       lambdas := None;
       result := [] |}
    0.

(** [this.addConstraint(G,MinvTrace,q,qdot,Fext,lower,upper,body_i,body_j)]:
    the new solver and the returned row index.  The bounds and their
    flags are pushed inside the loop over the 12 degrees of freedom. *)
Definition addConstraint (this : t) (G MinvTrace q qdot Fext : list num)
    (lower upper : bound) (body_i body_j : Z) : t * nat :=
  let this :=
    fold_left
      (fun (s : t) (idx : nat) =>
         {| iter := iter s; h := h s; a := a s; b := b s;
            eps := eps s; k := k s; d := d s;
            G := Solver.G s ++ [getF G idx];
            MinvTrace := Solver.MinvTrace s ++ [getF MinvTrace idx];
            Fext := Solver.Fext s ++ [getF Fext idx];
            q := Solver.q s ++ [getF q idx];
            qdot := Solver.qdot s ++ [getF qdot idx];
            n := n s;
            upper := Solver.upper s ++ [upper];
            lower := Solver.lower s ++ [lower];
            hasupper := hasupper s ++ [negb (isNaN (toNumber upper))];
            haslower := haslower s ++ [negb (isNaN (toNumber lower))];
            i := i s; j := j s;
            lambdas := lambdas s;
            result := result s |})
      (seq 0 12) this in
  ({| iter := iter this; h := h this; a := a this; b := b this;
      eps := eps this; k := k this; d := d this;
      G := Solver.G this; MinvTrace := Solver.MinvTrace this;
      Fext := Solver.Fext this; q := Solver.q this; qdot := Solver.qdot this;
      n := n this + 1;
      upper := Solver.upper this; lower := Solver.lower this;
      hasupper := hasupper this; haslower := haslower this;
      i := i this ++ [body_i]; j := j this ++ [body_j];
      lambdas := lambdas this;
      result := result this |},
   n this).

(** The local arrays of [solve] together with the scratch arrays. *)
Record sweep : Type := mkSweep {
  lambda : list num;
  dlambda : list num;
  B : list num;
  c : list num;
  precomp : list Z;
  vl : scratch
}.

(** [if(!precomp[l]){ ... }]: the constants [c[l]] and [B[l]] of row [l]. *)
Definition precompute (this : t) (G : list num) (l : nat) (st : sweep) : sweep :=
  let l12 := (12 * l)%nat in
  let '(G_Minv_Gt, Gq, GW, GMinvf) :=
    fold_left
      (fun '(G_Minv_Gt, Gq, GW, GMinvf) idx =>
         let addi := (l12 + idx)%nat in
         (G_Minv_Gt + getF G addi * getF (MinvTrace this) addi * getF G addi,
          Gq + getF G addi * getF (q this) addi,
          GW + getF G addi * getF (qdot this) addi,
          GMinvf + getF G addi * getF (MinvTrace this) addi * getF (Fext this) addi))
      (seq 0 12) (0, 0, 0, 0) in
  {| lambda := lambda st;
     dlambda := dlambda st;
     B := setF (B st) l (- a this * Gq - b this * GW - h this * GMinvf);
     c := setF (c st) l (1 / (G_Minv_Gt + eps this));
     precomp := setI (precomp st) l 1;
     vl := vl st |}.

(** [G[0..5+l12] . (v,w)lambda[body_i] + G[6..11+l12] . (v,w)lambda[body_j]] *)
Definition Gulambda (G : list num) (l12 : nat) (body_i body_j : Z) (s : scratch) : num :=
  let Gulambda := 0 in
  let Gulambda := Gulambda + getF G (0 + l12) * getFz (vxlambda s) body_i in
  let Gulambda := Gulambda + getF G (1 + l12) * getFz (vylambda s) body_i in
  let Gulambda := Gulambda + getF G (2 + l12) * getFz (vzlambda s) body_i in
  let Gulambda := Gulambda + getF G (3 + l12) * getFz (wxlambda s) body_i in
  let Gulambda := Gulambda + getF G (4 + l12) * getFz (wylambda s) body_i in
  let Gulambda := Gulambda + getF G (5 + l12) * getFz (wzlambda s) body_i in
  let Gulambda := Gulambda + getF G (6 + l12) * getFz (vxlambda s) body_j in
  let Gulambda := Gulambda + getF G (7 + l12) * getFz (vylambda s) body_j in
  let Gulambda := Gulambda + getF G (8 + l12) * getFz (vzlambda s) body_j in
  let Gulambda := Gulambda + getF G (9 + l12) * getFz (wxlambda s) body_j in
  let Gulambda := Gulambda + getF G (10 + l12) * getFz (wylambda s) body_j in
  Gulambda + getF G (11 + l12) * getFz (wzlambda s) body_j.

(** [arr[body] += dlambda * MinvTrace[l12+dof] * G[l12+dof]] *)
Definition add_lambda (this : t) (G : list num) (l12 : nat) (dl : num)
    (arr : list num) (body : Z) (dof : nat) : list num :=
  setFz arr body
        (getFz arr body + dl * getF (MinvTrace this) (l12 + dof) * getF G (l12 + dof)).

(** The twelve updates of the scratch arrays, body [i] first. *)
Definition add_velocity (this : t) (G : list num) (l12 : nat) (dl : num)
    (body_i body_j : Z) (s : scratch) : scratch :=
  let vx := add_lambda this G l12 dl (vxlambda s) body_i 0 in
  let vy := add_lambda this G l12 dl (vylambda s) body_i 1 in
  let vz := add_lambda this G l12 dl (vzlambda s) body_i 2 in
  let wx := add_lambda this G l12 dl (wxlambda s) body_i 3 in
  let wy := add_lambda this G l12 dl (wylambda s) body_i 4 in
  let wz := add_lambda this G l12 dl (wzlambda s) body_i 5 in
  let vx := add_lambda this G l12 dl vx body_j 6 in
  let vy := add_lambda this G l12 dl vy body_j 7 in
  let vz := add_lambda this G l12 dl vz body_j 8 in
  let wx := add_lambda this G l12 dl wx body_j 9 in
  let wy := add_lambda this G l12 dl wy body_j 10 in
  let wz := add_lambda this G l12 dl wz body_j 11 in
  mkScratch vx vy vz wx wy wz.

(** The clamp against the lower bound: [lambda[l]] is overwritten first,
    then [dlambda[l]] is computed from it. *)
Definition clamp_lower (this : t) (l : nat) (lambda dlambda : list num)
    : list num * list num :=
  let lower_l := toNumber (default Str_inf (lower this !! l)) in
  if default false (haslower this !! l) && (getF lambda l <? lower_l) then
    let lambda := setF lambda l lower_l in
    let dlambda := setF dlambda l (lower_l - getF lambda l) in
    (lambda, dlambda)
  else (lambda, dlambda).

(** The clamp against the upper bound: the condition reads
    [this.hasupper], the array itself, which is always truthy. *)
Definition clamp_upper (this : t) (l : nat) (lambda dlambda : list num)
    : list num * list num :=
  let upper_l := toNumber (default Str_inf (upper this !! l)) in
  let this_hasupper := true in
  if this_hasupper && gtb (getF lambda l) upper_l then
    let lambda := setF lambda l upper_l in
    let dlambda := setF dlambda l (upper_l - getF lambda l) in
    (lambda, dlambda)
  else (lambda, dlambda).

(** The body of the loop over the rows [l] of one sweep. *)
Definition row (this : t) (G : list num) (i16 : list Z) (st : sweep) (l : nat) : sweep :=
  let body_i := default (-1)%Z (i16 !! l) in
  let body_j := default (-1)%Z (j this !! l) in
  let l12 := (12 * l)%nat in
  let st := if (default 0 (precomp st !! l) =? 0)%Z then precompute this G l st else st in
  let Gu := Gulambda G l12 body_i body_j (vl st) in
  let dlambda :=
    setF (dlambda st) l
         (getF (c st) l * (getF (B st) l - Gu - eps this * getF (lambda st) l)) in
  let lambda := setF (lambda st) l (getF (lambda st) l + getF dlambda l) in
  let '(lambda, dlambda) := clamp_lower this l lambda dlambda in
  let '(lambda, dlambda) := clamp_upper this l lambda dlambda in
  {| lambda := lambda;
     dlambda := dlambda;
     B := B st;
     c := c st;
     precomp := precomp st;
     vl := add_velocity this G l12 (getF dlambda l) body_i body_j (vl st) |}.

(** The two nested loops of [solve], from the state [st]. *)
Definition sweeps (this : t) (G : list num) (i16 : list Z) (st : sweep) : sweep :=
  fold_left
    (fun st (_ : nat) => fold_left (row this G i16) (seq 0 (n this)) st)
    (seq 0 (iter this)) st.

(** The state before the first sweep. *)
Definition sweep0 (this : t) (s : scratch) : sweep :=
  {| lambda := Float32Array (n this);
     dlambda := Float32Array (n this);
     B := Float32Array (n this);
     c := Float32Array (n this);
     precomp := Int16Array (n this);
     vl := s |}.

(** [this.solve()], with the final local arrays for inspection.  With at
    least one row to sweep the scratch arrays must exist. *)
Definition solve_sweep (this : t) : completion (t * sweep) :=
  let i16 := map toInt16 (i this) in
  let G := Float32Array_from (Solver.G this) in
  let ulambda := Float32Array (12 * n this) in
  let finish (st : sweep) (lambdas : option scratch) : t * sweep :=
    ({| iter := iter this; h := h this; a := a this; b := b this;
        eps := eps this; k := k this; d := d this;
        G := Solver.G this; MinvTrace := MinvTrace this;
        Fext := Fext this; q := q this; qdot := qdot this;
        n := n this;
        upper := upper this; lower := lower this;
        hasupper := hasupper this; haslower := haslower this;
        i := i16; j := j this;
        lambdas := lambdas;
        result := ulambda |}, st) in
  match lambdas this with
  | Some s =>
      let st := sweeps this G i16 (sweep0 this s) in
      Ok (finish st (Some (vl st)))
  | None =>
      if ((iter this =? 0) || (n this =? 0))%nat
      then Ok (finish (sweep0 this (mkScratch [] [] [] [] [] [])) None)
      else Throw "TypeError: cannot read a property of undefined"
  end.

Definition solve (this : t) : completion t :=
  try r := solve_sweep this in Ok (fst r).

End Solver.

(** ** World *)

Module World.

(** The world object.  Every array is empty before the first [add]: the
    source leaves the properties [undefined] until then, [numObjects]
    gives 0, and an empty list stands for such a property (after an
    [add] an array has at least one entry).  [gravity] is [None] until
    the setter is called: [world.gravity] is then still the prototype's
    method, whose [x], [y], [z] are [undefined]. *)
Record t : Type := mk {
  paused : bool;
  time : num;
  stepnumber : num;
  spook_k : num;
  spook_d : num;
  spook_b : num;
  solver : Solver.t;
  gravity : option Vec3.t;
  x : list num; y : list num; z : list num;
  vx : list num; vy : list num; vz : list num;
  fx : list num; fy : list num; fz : list num;
  taux : list num; tauy : list num; tauz : list num;
  wx : list num; wy : list num; wz : list num;
  qx : list num; qy : list num; qz : list num; qw : list num;
  type : list Z;
  body : list RigidBody.t;
  fixed : list Z;
  mass : list num;
  inertiax : list num; inertiay : list num; inertiaz : list num;
  invm : list num;
  collision_matrix : list Z
}.

(** [this.spook_a(h)] and [this.spook_eps(h)] *)
Definition spook_a (spook_d h : num) : num := 4 / (h * (1 + 4 * spook_d)).
Definition spook_eps (spook_k spook_d h : num) : num :=
  4 / (h * h * spook_k * (1 + 4 * spook_d)).

(** [new CANNON.World()] *)
Definition new : t :=
  let spook_k := 3000 in
  let spook_d := 3 in
  let spook_b := (4 * spook_d) / (1 + 4 * spook_d) in
  {| paused := false;
     time := 0;
     stepnumber := 0;
     spook_k := spook_k;
     spook_d := spook_d;
     spook_b := spook_b;
     solver := Solver.new (spook_a spook_d (1 / 60)) spook_b
                          (spook_eps spook_k spook_d (1 / 60))
                          spook_k spook_d 5 (1 / 60);
     gravity := None;
     x := []; y := []; z := [];
     vx := []; vy := []; vz := [];
     fx := []; fy := []; fz := [];
     taux := []; tauy := []; tauz := [];
     wx := []; wy := []; wz := [];
     qx := []; qy := []; qz := []; qw := [];
     type := []; body := []; fixed := []; mass := [];
     inertiax := []; inertiay := []; inertiaz := [];
     invm := [];
     collision_matrix := [] |}.

(** Updates of one group of properties, the others kept. *)
Definition with_v (w : t) (vx vy vz : list num) : t :=
  {| paused := paused w; time := time w; stepnumber := stepnumber w;
     spook_k := spook_k w; spook_d := spook_d w; spook_b := spook_b w;
     solver := solver w; gravity := gravity w;
     x := x w; y := y w; z := z w;
     vx := vx; vy := vy; vz := vz;
     fx := fx w; fy := fy w; fz := fz w;
     taux := taux w; tauy := tauy w; tauz := tauz w;
     wx := wx w; wy := wy w; wz := wz w;
     qx := qx w; qy := qy w; qz := qz w; qw := qw w;
     type := type w; body := body w; fixed := fixed w; mass := mass w;
     inertiax := inertiax w; inertiay := inertiay w; inertiaz := inertiaz w;
     invm := invm w;
     collision_matrix := collision_matrix w |}.

Definition with_x (w : t) (x y z : list num) : t :=
  {| paused := paused w; time := time w; stepnumber := stepnumber w;
     spook_k := spook_k w; spook_d := spook_d w; spook_b := spook_b w;
     solver := solver w; gravity := gravity w;
     x := x; y := y; z := z;
     vx := vx w; vy := vy w; vz := vz w;
     fx := fx w; fy := fy w; fz := fz w;
     taux := taux w; tauy := tauy w; tauz := tauz w;
     wx := wx w; wy := wy w; wz := wz w;
     qx := qx w; qy := qy w; qz := qz w; qw := qw w;
     type := type w; body := body w; fixed := fixed w; mass := mass w;
     inertiax := inertiax w; inertiay := inertiay w; inertiaz := inertiaz w;
     invm := invm w;
     collision_matrix := collision_matrix w |}.

Definition with_f (w : t) (fx fy fz : list num) : t :=
  {| paused := paused w; time := time w; stepnumber := stepnumber w;
     spook_k := spook_k w; spook_d := spook_d w; spook_b := spook_b w;
     solver := solver w; gravity := gravity w;
     x := x w; y := y w; z := z w;
     vx := vx w; vy := vy w; vz := vz w;
     fx := fx; fy := fy; fz := fz;
     taux := taux w; tauy := tauy w; tauz := tauz w;
     wx := wx w; wy := wy w; wz := wz w;
     qx := qx w; qy := qy w; qz := qz w; qw := qw w;
     type := type w; body := body w; fixed := fixed w; mass := mass w;
     inertiax := inertiax w; inertiay := inertiay w; inertiaz := inertiaz w;
     invm := invm w;
     collision_matrix := collision_matrix w |}.

Definition with_tau (w : t) (taux tauy tauz : list num) : t :=
  {| paused := paused w; time := time w; stepnumber := stepnumber w;
     spook_k := spook_k w; spook_d := spook_d w; spook_b := spook_b w;
     solver := solver w; gravity := gravity w;
     x := x w; y := y w; z := z w;
     vx := vx w; vy := vy w; vz := vz w;
     fx := fx w; fy := fy w; fz := fz w;
     taux := taux; tauy := tauy; tauz := tauz;
     wx := wx w; wy := wy w; wz := wz w;
     qx := qx w; qy := qy w; qz := qz w; qw := qw w;
     type := type w; body := body w; fixed := fixed w; mass := mass w;
     inertiax := inertiax w; inertiay := inertiay w; inertiaz := inertiaz w;
     invm := invm w;
     collision_matrix := collision_matrix w |}.

Definition with_w (w : t) (wx wy wz : list num) : t :=
  {| paused := paused w; time := time w; stepnumber := stepnumber w;
     spook_k := spook_k w; spook_d := spook_d w; spook_b := spook_b w;
     solver := solver w; gravity := gravity w;
     x := x w; y := y w; z := z w;
     vx := vx w; vy := vy w; vz := vz w;
     fx := fx w; fy := fy w; fz := fz w;
     taux := taux w; tauy := tauy w; tauz := tauz w;
     wx := wx; wy := wy; wz := wz;
     qx := qx w; qy := qy w; qz := qz w; qw := qw w;
     type := type w; body := body w; fixed := fixed w; mass := mass w;
     inertiax := inertiax w; inertiay := inertiay w; inertiaz := inertiaz w;
     invm := invm w;
     collision_matrix := collision_matrix w |}.

Definition with_q (w : t) (qx qy qz qw : list num) : t :=
  {| paused := paused w; time := time w; stepnumber := stepnumber w;
     spook_k := spook_k w; spook_d := spook_d w; spook_b := spook_b w;
     solver := solver w; gravity := gravity w;
     x := x w; y := y w; z := z w;
     vx := vx w; vy := vy w; vz := vz w;
     fx := fx w; fy := fy w; fz := fz w;
     taux := taux w; tauy := tauy w; tauz := tauz w;
     wx := wx w; wy := wy w; wz := wz w;
     qx := qx; qy := qy; qz := qz; qw := qw;
     type := type w; body := body w; fixed := fixed w; mass := mass w;
     inertiax := inertiax w; inertiay := inertiay w; inertiaz := inertiaz w;
     invm := invm w;
     collision_matrix := collision_matrix w |}.

Definition with_mass (w : t) (mass invm : list num) : t :=
  {| paused := paused w; time := time w; stepnumber := stepnumber w;
     spook_k := spook_k w; spook_d := spook_d w; spook_b := spook_b w;
     solver := solver w; gravity := gravity w;
     x := x w; y := y w; z := z w;
     vx := vx w; vy := vy w; vz := vz w;
     fx := fx w; fy := fy w; fz := fz w;
     taux := taux w; tauy := tauy w; tauz := tauz w;
     wx := wx w; wy := wy w; wz := wz w;
     qx := qx w; qy := qy w; qz := qz w; qw := qw w;
     type := type w; body := body w; fixed := fixed w; mass := mass;
     inertiax := inertiax w; inertiay := inertiay w; inertiaz := inertiaz w;
     invm := invm;
     collision_matrix := collision_matrix w |}.

Definition with_collision_matrix (w : t) (cm : list Z) : t :=
  {| paused := paused w; time := time w; stepnumber := stepnumber w;
     spook_k := spook_k w; spook_d := spook_d w; spook_b := spook_b w;
     solver := solver w; gravity := gravity w;
     x := x w; y := y w; z := z w;
     vx := vx w; vy := vy w; vz := vz w;
     fx := fx w; fy := fy w; fz := fz w;
     taux := taux w; tauy := tauy w; tauz := tauz w;
     wx := wx w; wy := wy w; wz := wz w;
     qx := qx w; qy := qy w; qz := qz w; qw := qw w;
     type := type w; body := body w; fixed := fixed w; mass := mass w;
     inertiax := inertiax w; inertiay := inertiay w; inertiaz := inertiaz w;
     invm := invm w;
     collision_matrix := cm |}.

Definition with_solver (w : t) (s : Solver.t) : t :=
  {| paused := paused w; time := time w; stepnumber := stepnumber w;
     spook_k := spook_k w; spook_d := spook_d w; spook_b := spook_b w;
     solver := s; gravity := gravity w;
     x := x w; y := y w; z := z w;
     vx := vx w; vy := vy w; vz := vz w;
     fx := fx w; fy := fy w; fz := fz w;
     taux := taux w; tauy := tauy w; tauz := tauz w;
     wx := wx w; wy := wy w; wz := wz w;
     qx := qx w; qy := qy w; qz := qz w; qw := qw w;
     type := type w; body := body w; fixed := fixed w; mass := mass w;
     inertiax := inertiax w; inertiay := inertiay w; inertiaz := inertiaz w;
     invm := invm w;
     collision_matrix := collision_matrix w |}.

Definition with_clock (w : t) (paused : bool) (time stepnumber : num)
    (gravity : option Vec3.t) : t :=
  {| paused := paused; time := time; stepnumber := stepnumber;
     spook_k := spook_k w; spook_d := spook_d w; spook_b := spook_b w;
     solver := solver w; gravity := gravity;
     x := x w; y := y w; z := z w;
     vx := vx w; vy := vy w; vz := vz w;
     fx := fx w; fy := fy w; fz := fz w;
     taux := taux w; tauy := tauy w; tauz := tauz w;
     wx := wx w; wy := wy w; wz := wz w;
     qx := qx w; qy := qy w; qz := qz w; qw := qw w;
     type := type w; body := body w; fixed := fixed w; mass := mass w;
     inertiax := inertiax w; inertiay := inertiay w; inertiaz := inertiaz w;
     invm := invm w;
     collision_matrix := collision_matrix w |}.

(** [this.togglepause()] *)
Definition togglepause (this : t) : t :=
  with_clock this (negb (paused this)) (time this) (stepnumber this) (gravity this).

(** [this.gravity(g)] with an argument: the setter.  It assigns
    [this.gravity = g], which hides the method of the prototype: on a
    world whose gravity has been set, [this.gravity] is the vector and a
    further call throws. *)
Definition set_gravity (this : t) (g : Vec3.t) : completion t :=
  match gravity this with
  | None => Ok (with_clock this (paused this) (time this) (stepnumber this) (Some g))
  | Some _ => Throw "TypeError: this.gravity is not a function"
  end.

(** [this.numObjects()] *)
Definition numObjects (this : t) : nat := length (x this).

(** [this.clearCollisionState(body)] *)
Definition clearCollisionState (this : t) (body : RigidBody.t) : t :=
  let n := numObjects this in
  let i := RigidBody._id body in
  with_collision_matrix this
    (fold_left
       (fun cm idx =>
          let j := Z.of_nat idx in
          let at_ := if (j <? i)%Z then (j + i * Z.of_nat n)%Z
                     else (i + j * Z.of_nat n)%Z in
          if (at_ <? 0)%Z then cm else setI cm (Z.to_nat at_) 0)
       (seq 0 n) (collision_matrix this)).

(** [world.body[i]] followed by a property access, and an access to a
    property that may be [undefined]. *)
Definition body_at (this : t) (i : nat) : completion RigidBody.t :=
  match body this !! i with
  | Some b => Ok b
  | None => Throw "TypeError: cannot read a property of undefined"
  end.

Definition defined {A : Type} (o : option A) : completion A :=
  match o with
  | Some a => Ok a
  | None => Throw "TypeError: cannot read a property of undefined"
  end.

(** The impulse [J] of [_addImpulse]: everything up to "Add to
    velocities". *)
Definition impulse (this : t) (i j : nat) (ri rj ui ni : Vec3.t) (e mu : num)
    : completion Vec3.t :=
  let ri_star := crossmat ri in
  let rj_star := crossmat rj in
  let ii := if gtb (getF (inertiax this) i) 0 then 1 / getF (inertiax this) i else 0 in
  let Iinv_i := Mat3.new [ii; 0; 0; 0; ii; 0; 0; 0; ii] in
  let ii := if gtb (getF (inertiax this) j) 0 then 1 / getF (inertiax this) j else 0 in
  let Iinv_j := Mat3.new [ii; 0; 0; 0; ii; 0; 0; 0; ii] in
  let im := getF (invm this) i + getF (invm this) j in
  let K := Mat3.new [im; 0; 0; 0; im; 0; 0; 0; im] in
  let rIr_i := Mat3.mmult ri_star (Mat3.mmult Iinv_i ri_star) in
  let rIr_j := Mat3.mmult rj_star (Mat3.mmult Iinv_j rj_star) in
  let v_f := Vec3.mult ni (- e * Vec3.dot ui ni) in
  try J := Mat3.solve K (Vec3.vsub v_f ui) in
  let mu := 0 in
  if gtb mu 0 then
    let J_n := Vec3.mult ni (Vec3.dot J ni) in
    let J_t := Vec3.vsub J J_n in
    if gtb (Vec3.norm J_t) (Vec3.norm (Vec3.mult J_n mu)) then
      let v_tang := Vec3.vsub ui (Vec3.mult ni (Vec3.dot ui ni)) in
      let tangent := Vec3.mult v_tang (1 / (Vec3.norm v_tang + 0.0001)) in
      let impulse :=
        - (1 + e) * Vec3.dot ui ni
        / Vec3.dot ni (Mat3.vmult K (Vec3.vsub ni (Vec3.mult tangent mu))) in
      Ok (Vec3.vsub (Vec3.mult ni impulse) (Vec3.mult tangent (mu * impulse)))
    else Ok J
  else Ok J.

(** [this._addImpulse(i,j,ri,rj,ui,ni,e,mu)].  The six stores run in the
    source's order: the stores for body [j] read the velocity of body
    [i] already updated.  The lines that would change [wx], [wy], [wz]
    are commented out in the source. *)
Definition _addImpulse (this : t) (i j : nat) (ri rj ui ni : Vec3.t) (e mu : num)
    : completion t :=
  try J := impulse this i j ri rj ui ni e mu in
  let imi := getF (invm this) i in
  let imj := getF (invm this) j in
  let vx := vx this in
  let vy := vy this in
  let vz := vz this in
  let vx := setF vx i (getF vx i + (Vec3.x J * imi - (getF vx j - Vec3.x ui))) in
  let vy := setF vy i (getF vy i + (Vec3.y J * imi - (getF vy j - Vec3.y ui))) in
  let vz := setF vz i (getF vz i + (Vec3.z J * imi - (getF vz j - Vec3.z ui))) in
  let vx := setF vx j (getF vx j - (Vec3.x J * imj - (getF vx i - Vec3.x ui))) in
  let vy := setF vy j (getF vy j - (Vec3.y J * imj - (getF vy i - Vec3.y ui))) in
  let vz := setF vz j (getF vz j - (Vec3.z J * imj - (getF vz i - Vec3.z ui))) in
  let cr := Vec3.cross ri J in
  let wadd := Vec3.mult cr (1 / getF (inertiax this) i) in
  Ok (with_v this vx vy vz).

(** The reallocation of one array in [add]: a fresh array of [n+1], the
    copy loop over the old one, and the new last element. *)
Definition grow_F (n : nat) (old : list num) (v : num) : list num :=
  let arr := fold_left (fun arr i => setF arr i (getF old i)) (seq 0 n)
                       (Float32Array (n + 1)) in
  setF arr n v.

Definition grow_I (n : nat) (old : list Z) (v : Z) : list Z :=
  let arr := fold_left (fun arr i => setI arr i (default 0%Z (old !! i))) (seq 0 n)
                       (Int16Array (n + 1)) in
  setI arr n v.

(** [this.add(body)]: the new world and the body, which now carries its
    index.  [this.body] is an ordinary array of the [n] old bodies and
    the new one. *)
Definition add (this : t) (body : RigidBody.t) : t * RigidBody.t :=
  let n := numObjects this in
  let body' :=
    {| RigidBody._position := RigidBody._position body;
       RigidBody._velocity := RigidBody._velocity body;
       RigidBody._force := RigidBody._force body;
       RigidBody._tau := RigidBody._tau body;
       RigidBody._quaternion := RigidBody._quaternion body;
       RigidBody._rotvelo := RigidBody._rotvelo body;
       RigidBody._mass := RigidBody._mass body;
       RigidBody._shape := RigidBody._shape body;
       RigidBody._inertia := RigidBody._inertia body;
       RigidBody._torque := RigidBody._torque body;
       RigidBody._id := Z.of_nat n |} in
  ({| paused := paused this; time := time this; stepnumber := stepnumber this;
      spook_k := spook_k this; spook_d := spook_d this; spook_b := spook_b this;
      solver := solver this; gravity := gravity this;
      x := grow_F n (x this) (Vec3.x (RigidBody._position body));
      y := grow_F n (y this) (Vec3.y (RigidBody._position body));
      z := grow_F n (z this) (Vec3.z (RigidBody._position body));
      vx := grow_F n (vx this) (Vec3.x (RigidBody._velocity body));
      vy := grow_F n (vy this) (Vec3.y (RigidBody._velocity body));
      vz := grow_F n (vz this) (Vec3.z (RigidBody._velocity body));
      fx := grow_F n (fx this) (Vec3.x (RigidBody._force body));
      fy := grow_F n (fy this) (Vec3.y (RigidBody._force body));
      fz := grow_F n (fz this) (Vec3.z (RigidBody._force body));
      taux := grow_F n (taux this) (Vec3.x (RigidBody._tau body));
      tauy := grow_F n (tauy this) (Vec3.y (RigidBody._tau body));
      tauz := grow_F n (tauz this) (Vec3.z (RigidBody._tau body));
      wx := grow_F n (wx this) (Vec3.x (RigidBody._rotvelo body));
      wy := grow_F n (wy this) (Vec3.y (RigidBody._rotvelo body));
      wz := grow_F n (wz this) (Vec3.z (RigidBody._rotvelo body));
      qx := grow_F n (qx this) (Quaternion.x (RigidBody._quaternion body));
      qy := grow_F n (qy this) (Quaternion.y (RigidBody._quaternion body));
      qz := grow_F n (qz this) (Quaternion.z (RigidBody._quaternion body));
      qw := grow_F n (qw this) (Quaternion.w (RigidBody._quaternion body));
      type := grow_I n (type this) (Shape.type (RigidBody._shape body));
      body := take n (World.body this) ++ [body'];
      fixed := grow_I n (fixed this)
                      (if (RigidBody._mass body <=? 0)%float then 1%Z else 0%Z);
      mass := grow_F n (mass this) (RigidBody._mass body);
      inertiax := grow_F n (inertiax this) (Vec3.x (RigidBody._inertia body));
      inertiay := grow_F n (inertiay this) (Vec3.y (RigidBody._inertia body));
      inertiaz := grow_F n (inertiaz this) (Vec3.z (RigidBody._inertia body));
      invm := grow_F n (invm this)
                     (if gtb (RigidBody._mass body) 0
                      then 1 / RigidBody._mass body else 0);
      collision_matrix := Int16Array ((n + 1) * (n + 1)) |},
   body').

(** *** [step]: the contact-history matrix *)

(** The index computed by the local function [cmatrix(i,j,which,...)] of
    [step]; [which] is [0] for the current and [-1] for the previous
    time step. *)
Definition cmatrix_index (this : t) (i j : nat) (which : Z) : nat :=
  let '(i, j) :=
    if ((which =? 0)%Z && (i <? j)%nat) || ((which =? -1)%Z && (j <? i)%nat)
    then (j, i) else (i, j) in
  i + j * numObjects this.

(** [cmatrix(i,j,which)] *)
Definition cmatrix_get (this : t) (i j : nat) (which : Z) : option Z :=
  getI (collision_matrix this) (cmatrix_index this i j which).

(** [cmatrix(i,j,which,newval)] with [newval] an integer. *)
Definition cmatrix_set (this : t) (i j : nat) (which : Z) (newval : Z) : t :=
  with_collision_matrix this
    (setI (collision_matrix this) (cmatrix_index this i j which) newval).

(** [cmatrix(i,j,-1, cmatrix(i,j,0)); cmatrix(i,j,0,0);]  When the inner
    call gives [undefined] the outer call is a read and stores nothing. *)
Definition transfer (this : t) (i j : nat) : t :=
  let this :=
    match cmatrix_get this i j 0 with
    | Some cur => cmatrix_set this i j (-1) cur
    | None => this
    end in
  cmatrix_set this i j 0 0.

(** "Begin with transferring old contact data to the right place" *)
Definition transfer_contacts (this : t) : t :=
  fold_left
    (fun w i => fold_left (fun w j => transfer w i j) (seq 0 i) w)
    (seq 0 (numObjects this)) this.

(** *** [step]: gravity *)

Definition gravity_x (this : t) : num :=
  match gravity this with Some g => Vec3.x g | None => nan end.
Definition gravity_y (this : t) : num :=
  match gravity this with Some g => Vec3.y g | None => nan end.
Definition gravity_z (this : t) : num :=
  match gravity this with Some g => Vec3.z g | None => nan end.

(** "Add gravity to all objects" *)
Definition add_gravity (this : t) : t :=
  fold_left
    (fun w i =>
       with_f w
         (setF (fx w) i (getF (fx w) i + gravity_x w * getF (mass w) i))
         (setF (fy w) i (getF (fy w) i + gravity_y w * getF (mass w) i))
         (setF (fz w) i (getF (fz w) i + gravity_z w * getF (mass w) i)))
    (seq 0 (numObjects this)) this.

(** *** [step]: the narrowphase, one handler per shape pair *)

Definition Z_ (i : nat) : Z := Z.of_nat i.

(** The sphere-plane branch, for the sphere [si] and the plane [pi]. *)
Definition sphere_plane (this : t) (si pi : nat) : completion t :=
  try bp := body_at this pi in
  try normal := defined (Shape.normal (RigidBody._shape bp)) in
  let n := Vec3.copy normal in
  let n := Vec3.negate n in
  try bs := body_at this si in
  let rsi := Vec3.mult n (Shape.radius (RigidBody._shape bs)) in
  let rsixn := Vec3.cross rsi n in
  let point_on_plane_to_sphere :=
    Vec3.new (getF (x this) si - getF (x this) pi)
             (getF (y this) si - getF (y this) pi)
             (getF (z this) si - getF (z this) pi) in
  let xs := Vec3.new (getF (x this) si) (getF (y this) si) (getF (z this) si) in
  let plane_to_sphere := Vec3.mult n (Vec3.dot n point_on_plane_to_sphere) in
  let xp := Vec3.vsub xs plane_to_sphere in
  let rj := Vec3.new (Vec3.x xp - getF (x this) pi)
                     (Vec3.y xp - getF (y this) pi)
                     (Vec3.z xp - getF (z this) pi) in
  let qvec := Vec3.new (Vec3.x xp - getF (x this) si - Vec3.x rsi)
                       (Vec3.y xp - getF (y this) si - Vec3.y rsi)
                       (Vec3.z xp - getF (z this) si - Vec3.z rsi) in
  let q := Vec3.dot qvec n in
  if q <? 0 then
    let this := cmatrix_set this si pi 0 1 in
    let v_sphere :=
      Vec3.new (getF (vx this) si) (getF (vy this) si) (getF (vz this) si) in
    let u := v_sphere in
    if bool_decide (cmatrix_get this si pi (-1) = Some 0%Z) then
      _addImpulse this si pi rsi rj u n 0.5 0.3
    else if bool_decide (cmatrix_get this si pi (-1) = Some 1%Z) then
      let iM := getF (invm this) si in
      let iI := if gtb (getF (inertiax this) si) 0
                then 1 / getF (inertiax this) si else 0 in
      let '(s, _) :=
        Solver.addConstraint (solver this)
          [ - Vec3.x n; - Vec3.y n; - Vec3.z n; 0; 0; 0; 0; 0; 0; 0; 0; 0 ]
          [ iM; iM; iM; iI; iI; iI; 0; 0; 0; 0; 0; 0 ]
          [ - Vec3.x qvec; - Vec3.y qvec; - Vec3.z qvec; 0; 0; 0; 0; 0; 0; 0; 0; 0 ]
          [ Vec3.x v_sphere; Vec3.y v_sphere; Vec3.z v_sphere;
            0; 0; 0; 0; 0; 0; 0; 0; 0 ]
          [ getF (fx this) si; getF (fy this) si; getF (fz this) si;
            getF (taux this) si; getF (tauy this) si; getF (tauz this) si;
            getF (fx this) pi; getF (fy this) pi; getF (fz this) pi;
            getF (taux this) pi; getF (tauy this) pi; getF (tauz this) pi ]
          (Solver.Num 0) Solver.Str_inf (Z_ si) (Z_ pi) in
      Ok (with_solver this s)
    else Ok this
  else Ok this.

(** The sphere-sphere branch.  The two [vadd] calls have no target and
    their results are dropped, so [u] is the difference of the linear
    velocities. *)
Definition sphere_sphere (this : t) (i j : nat) : completion t :=
  let ri := Vec3.new (getF (x this) j - getF (x this) i)
                     (getF (y this) j - getF (y this) i)
                     (getF (z this) j - getF (z this) i) in
  let rj := Vec3.new (getF (x this) i - getF (x this) j)
                     (getF (y this) i - getF (y this) j)
                     (getF (z this) i - getF (z this) j) in
  let ri := fst (Vec3.normalize ri) in
  try bi := body_at this i in
  let ri := Vec3.mult ri (Shape.radius (RigidBody._shape bi)) in
  let rj := fst (Vec3.normalize rj) in
  try bj := body_at this j in
  let rj := Vec3.mult rj (Shape.radius (RigidBody._shape bj)) in
  let ni := Vec3.new (getF (x this) j - getF (x this) i)
                     (getF (y this) j - getF (y this) i)
                     (getF (z this) j - getF (z this) i) in
  let ni := fst (Vec3.normalize ni) in
  let q_vec :=
    Vec3.new (getF (x this) j + Vec3.x rj - getF (x this) i - Vec3.x ri)
             (getF (y this) j + Vec3.y rj - getF (y this) i - Vec3.y ri)
             (getF (z this) j + Vec3.z rj - getF (z this) i - Vec3.z ri) in
  let q := Vec3.dot q_vec ni in
  if q <? 0 then
    let this := cmatrix_set this i j 0 1 in
    let v_sphere_i :=
      Vec3.new (getF (vx this) i) (getF (vy this) i) (getF (vz this) i) in
    let v_sphere_j :=
      Vec3.new (getF (vx this) j) (getF (vy this) j) (getF (vz this) j) in
    let u := Vec3.vsub v_sphere_j v_sphere_i in
    if bool_decide (cmatrix_get this i j (-1) = Some 0%Z) then
      _addImpulse this i j ri rj u ni 0.5 0.3
    else
      let not_fixed (b : nat) := bool_decide (default 0%Z (fixed this !! b) = 0%Z) in
      let iM_i := if not_fixed i then getF (invm this) i else 0 in
      let iI_i := if not_fixed i then 1 / getF (inertiax this) i else 0 in
      let iM_j := if not_fixed j then getF (invm this) j else 0 in
      let iI_j := if not_fixed j then 1 / getF (inertiax this) j else 0 in
      let '(s, _) :=
        Solver.addConstraint (solver this)
          [ - Vec3.x ni; - Vec3.y ni; - Vec3.z ni; 0; 0; 0;
            Vec3.x ni; Vec3.y ni; Vec3.z ni; 0; 0; 0 ]
          [ iM_i; iM_i; iM_i; iI_i; iI_i; iI_i;
            iM_j; iM_j; iM_j; iI_j; iI_j; iI_j ]
          [ - Vec3.x q_vec; - Vec3.y q_vec; - Vec3.z q_vec; 0; 0; 0;
            Vec3.x q_vec; Vec3.y q_vec; Vec3.z q_vec; 0; 0; 0 ]
          [ getF (vx this) i; getF (vy this) i; getF (vz this) i; 0; 0; 0;
            getF (vx this) j; getF (vy this) j; getF (vz this) j; 0; 0; 0 ]
          [ getF (fx this) i; getF (fy this) i; getF (fz this) i;
            getF (taux this) i; getF (tauy this) i; getF (tauz this) i;
            getF (fx this) j; getF (fy this) j; getF (fz this) j;
            getF (taux this) j; getF (tauy this) j; getF (tauz this) j ]
          (Solver.Num 0) Solver.Str_inf (Z_ i) (Z_ j) in
      Ok (with_solver this s)
  else Ok this.

(** The eight corners pushed in the box-plane branch. *)
Definition corners (ex : Vec3.t) : list Vec3.t :=
  [ Vec3.new (Vec3.x ex) (Vec3.y ex) (Vec3.z ex);
    Vec3.new (- Vec3.x ex) (Vec3.y ex) (Vec3.z ex);
    Vec3.new (- Vec3.x ex) (- Vec3.y ex) (Vec3.z ex);
    Vec3.new (- Vec3.x ex) (- Vec3.y ex) (- Vec3.z ex);
    Vec3.new (Vec3.x ex) (- Vec3.y ex) (- Vec3.z ex);
    Vec3.new (Vec3.x ex) (Vec3.y ex) (- Vec3.z ex);
    Vec3.new (- Vec3.x ex) (Vec3.y ex) (- Vec3.z ex);
    Vec3.new (Vec3.x ex) (- Vec3.y ex) (Vec3.z ex) ].

(** The body of the loop over the corners, for the corner [ri]: the
    solver and [numcontacts] after it. *)
Definition box_plane_corner (this : t) (bi pi : nat) (n xi worldInertia : Vec3.t)
    (quat : Quaternion.t) (ri : Vec3.t) (acc : Solver.t * nat) : Solver.t * nat :=
  let '(s, numcontacts) := acc in
  let ri := Quaternion.vmult quat ri in
  let rixn := Vec3.cross ri n in
  let point_on_plane_to_corner :=
    Vec3.new (Vec3.x xi + Vec3.x ri * 0.5 - getF (x this) pi)
             (Vec3.y xi + Vec3.y ri * 0.5 - getF (y this) pi)
             (Vec3.z xi + Vec3.z ri * 0.5 - getF (z this) pi) in
  let plane_to_corner := Vec3.mult n (Vec3.dot n point_on_plane_to_corner) in
  let xj := Vec3.vsub xi plane_to_corner in
  let qvec := Vec3.new (Vec3.x xj - getF (x this) bi - Vec3.x ri * 0.5)
                       (Vec3.y xj - getF (y this) bi - Vec3.y ri * 0.5)
                       (Vec3.z xj - getF (z this) bi - Vec3.z ri * 0.5) in
  let q := Vec3.dot qvec n in
  let qvec := Vec3.mult n q in
  if q <? 0 then
    let numcontacts := (numcontacts + 1)%nat in
    let v_box := Vec3.new (getF (vx this) bi) (getF (vy this) bi) (getF (vz this) bi) in
    let w_box := Vec3.new (getF (wx this) bi) (getF (wy this) bi) (getF (wz this) bi) in
    let iM := getF (invm this) bi in
    let '(s, _) :=
      Solver.addConstraint s
        [ - Vec3.x n; - Vec3.y n; - Vec3.z n;
          - Vec3.x rixn; - Vec3.y rixn; - Vec3.z rixn; 0; 0; 0; 0; 0; 0 ]
        [ iM; iM; iM;
          1 / Vec3.x worldInertia; 1 / Vec3.y worldInertia; 1 / Vec3.z worldInertia;
          0; 0; 0; 0; 0; 0 ]
        [ - Vec3.x qvec; - Vec3.y qvec; - Vec3.z qvec; 0; 0; 0; 0; 0; 0; 0; 0; 0 ]
        [ Vec3.x v_box; Vec3.y v_box; Vec3.z v_box;
          Vec3.x w_box; Vec3.y w_box; Vec3.z w_box; 0; 0; 0; 0; 0; 0 ]
        [ getF (fx this) bi; getF (fy this) bi; getF (fz this) bi;
          getF (taux this) bi; getF (tauy this) bi; getF (tauz this) bi;
          getF (fx this) pi; getF (fy this) pi; getF (fz this) pi;
          getF (taux this) pi; getF (tauy this) pi; getF (tauz this) pi ]
        (Solver.Num 0) Solver.Str_inf (Z_ bi) (Z_ pi) in
    (s, numcontacts)
  else (s, numcontacts).

(** [for(idx=0; idx<corners.length && numcontacts<=4; idx++)], over the
    corners that remain. *)
Fixpoint box_plane_corners (this : t) (bi pi : nat) (n xi worldInertia : Vec3.t)
    (quat : Quaternion.t) (rest : list Vec3.t) (acc : Solver.t * nat)
    : Solver.t * nat :=
  match rest with
  | [] => acc
  | ri :: rest' =>
      if (snd acc <=? 4)%nat then
        box_plane_corners this bi pi n xi worldInertia quat rest'
          (box_plane_corner this bi pi n xi worldInertia quat ri acc)
      else acc
  end.

(** The box-plane branch, for the box [bi] and the plane [pi]: the new
    world and the final [numcontacts]. *)
Definition box_plane_contacts (this : t) (bi pi : nat) : completion (t * nat) :=
  try bp := body_at this pi in
  try normal := defined (Shape.normal (RigidBody._shape bp)) in
  let n := Vec3.copy normal in
  let n := Vec3.negate n in
  let xi := Vec3.new (getF (x this) bi) (getF (y this) bi) (getF (z this) bi) in
  let quat := Quaternion.new (Some (getF (qx this) bi)) (Some (getF (qy this) bi))
                             (Some (getF (qz this) bi)) (Some (getF (qw this) bi)) in
  let quat := Quaternion.normalize quat in
  let localInertia :=
    Vec3.new (getF (inertiax this) bi) (getF (inertiay this) bi)
             (getF (inertiaz this) bi) in
  let worldInertia := Quaternion.vmult quat localInertia in
  let worldInertia :=
    Vec3.mk (abs (Vec3.x worldInertia)) (abs (Vec3.y worldInertia))
            (abs (Vec3.z worldInertia)) in
  try bb := body_at this bi in
  try ex := defined (Shape.halfExtents (RigidBody._shape bb)) in
  let '(s, numcontacts) :=
    box_plane_corners this bi pi n xi worldInertia quat (corners ex)
                      (solver this, 0%nat) in
  Ok (with_solver this s, numcontacts).

Definition box_plane (this : t) (bi pi : nat) : completion t :=
  try r := box_plane_contacts this bi pi in Ok (fst r).

(** The body of the loop over the pairs, for the pair [(i,j)]. *)
Definition narrowphase_pair (this : t) (i j : nat) : completion t :=
  let ti := getI (type this) i in
  let tj := getI (type this) j in
  let eq_ (ty : option Z) (c : Z) := bool_decide (ty = Some c) in
  if (eq_ ti Shape.SPHERE && eq_ tj Shape.PLANE)
     || (eq_ ti Shape.PLANE && eq_ tj Shape.SPHERE) then
    if eq_ ti Shape.SPHERE then sphere_plane this i j else sphere_plane this j i
  else if eq_ ti Shape.SPHERE && eq_ tj Shape.SPHERE then
    sphere_sphere this i j
  else if (eq_ ti Shape.BOX && eq_ tj Shape.PLANE)
          || (eq_ ti Shape.PLANE && eq_ tj Shape.BOX) then
    if eq_ ti Shape.BOX then box_plane this i j else box_plane this j i
  else Ok this.

(** [for(var k=0; k<p1.length; k++)]; a pair whose second index is
    missing matches no branch. *)
Definition narrowphase (this : t) (p1 p2 : list nat) : completion t :=
  fold_left
    (fun (acc : completion t) (k : nat) =>
       try this := acc in
       match p1 !! k, p2 !! k with
       | Some i, Some j => narrowphase_pair this i j
       | _, _ => Ok this
       end)
    (seq 0 (length p1)) (Ok this).

(** *** [step]: solver, integration and clean-up *)

(** [if(this.solver.n){ this.solver.solve(); ... }] *)
Definition solve_contacts (this : t) : completion t :=
  if (Solver.n (solver this) =? 0)%nat then Ok this
  else
    try s := Solver.solve (solver this) in
    try l := defined (Solver.lambdas s) in
    let this := with_solver this s in
    Ok (fold_left
          (fun w i =>
             let w := with_v w
               (setF (vx w) i (getF (vx w) i + getF (Solver.vxlambda l) i))
               (setF (vy w) i (getF (vy w) i + getF (Solver.vylambda l) i))
               (setF (vz w) i (getF (vz w) i + getF (Solver.vzlambda l) i)) in
             with_w w
               (setF (wx w) i (getF (wx w) i + getF (Solver.wxlambda l) i))
               (setF (wy w) i (getF (wy w) i + getF (Solver.wylambda l) i))
               (setF (wz w) i (getF (wz w) i + getF (Solver.wzlambda l) i)))
          (seq 0 (numObjects this)) this).

(** The body of the "Leap frog" loop for body [i]. *)
Definition leapfrog_body (dt : num) (w : t) (i : nat) : t :=
  if bool_decide (default 0%Z (fixed w !! i) = 0%Z) then
    let w := with_v w
      (setF (vx w) i (getF (vx w) i + getF (fx w) i * getF (invm w) i * dt))
      (setF (vy w) i (getF (vy w) i + getF (fy w) i * getF (invm w) i * dt))
      (setF (vz w) i (getF (vz w) i + getF (fz w) i * getF (invm w) i * dt)) in
    let w := with_w w
      (setF (wx w) i (getF (wx w) i + getF (taux w) i * 1 / getF (inertiax w) i * dt))
      (setF (wy w) i (getF (wy w) i + getF (tauy w) i * 1 / getF (inertiay w) i * dt))
      (setF (wz w) i (getF (wz w) i + getF (tauz w) i * 1 / getF (inertiaz w) i * dt)) in
    let w := with_x w
      (setF (x w) i (getF (x w) i + getF (vx w) i * dt))
      (setF (y w) i (getF (y w) i + getF (vy w) i * dt))
      (setF (z w) i (getF (z w) i + getF (vz w) i * dt)) in
    let q := Quaternion.new (Some (getF (qx w) i)) (Some (getF (qy w) i))
                            (Some (getF (qz w) i)) (Some (getF (qw w) i)) in
    let w_ := Quaternion.new (Some (getF (wx w) i)) (Some (getF (wy w) i))
                             (Some (getF (wz w) i)) (Some 0) in
    let wq := Quaternion.mult w_ q in
    let w := with_q w
      (setF (qx w) i (getF (qx w) i + dt * 0.5 * Quaternion.x wq))
      (setF (qy w) i (getF (qy w) i + dt * 0.5 * Quaternion.y wq))
      (setF (qz w) i (getF (qz w) i + dt * 0.5 * Quaternion.z wq))
      (setF (qw w) i (getF (qw w) i + dt * 0.5 * Quaternion.w wq)) in
    let q := Quaternion.mk (getF (qx w) i) (getF (qy w) i)
                           (getF (qz w) i) (getF (qw w) i) in
    let q := Quaternion.normalize q in
    with_q w
      (setF (qx w) i (Quaternion.x q))
      (setF (qy w) i (Quaternion.y q))
      (setF (qz w) i (Quaternion.z q))
      (setF (qw w) i (Quaternion.w q))
  else w.

Definition leapfrog (dt : num) (this : t) : t :=
  fold_left (leapfrog_body dt) (seq 0 (numObjects this)) this.

(** "Reset all forces" *)
Definition reset_forces (this : t) : t :=
  fold_left
    (fun w i =>
       let w := with_f w (setF (fx w) i 0) (setF (fy w) i 0) (setF (fz w) i 0) in
       with_tau w (setF (taux w) i 0) (setF (tauy w) i 0) (setF (tauz w) i 0))
    (seq 0 (numObjects this)) this.

(** *** [step]: the global variable [world]

    [step] reads [this] for the pause flag, the broadphase, the contact
    matrix (through [cmatrix]), [_addImpulse] and the solver; everything
    else it reads and writes through the free variable [world], which is
    looked up in the global scope of the page: the arrays, the bodies,
    the gravity, the masses, the fixed flags, the time and the step
    number.  That variable names the world being stepped, another world,
    or nothing. *)
Inductive global : Type :=
| Itself
| Another (world : t)
| Unbound.

(** [new Float32Array(world.x.length)] and the five allocations after it:
    the arrays themselves are locals that nothing reads, but [.length] of
    a property that is still [undefined] throws. *)
Definition scratch_arrays (world : t) : completion unit :=
  match x world, y world, z world with
  | _ :: _, _ :: _, _ :: _ => Ok tt
  | _, _, _ => Throw "TypeError: cannot read a property of undefined"
  end.

(** The phases between the gravity loop and the integration when [world]
    is another world than [this]: the arrays of [world] are read, the
    contact matrix, the velocities (by [_addImpulse]) and the solver of
    [this] are written. *)
Module Apart.

Definition sphere_plane (world this : t) (si pi : nat) : completion t :=
  try bp := body_at world pi in
  try normal := defined (Shape.normal (RigidBody._shape bp)) in
  let n := Vec3.copy normal in
  let n := Vec3.negate n in
  try bs := body_at world si in
  let rsi := Vec3.mult n (Shape.radius (RigidBody._shape bs)) in
  let rsixn := Vec3.cross rsi n in
  let point_on_plane_to_sphere :=
    Vec3.new (getF (x world) si - getF (x world) pi)
             (getF (y world) si - getF (y world) pi)
             (getF (z world) si - getF (z world) pi) in
  let xs := Vec3.new (getF (x world) si) (getF (y world) si) (getF (z world) si) in
  let plane_to_sphere := Vec3.mult n (Vec3.dot n point_on_plane_to_sphere) in
  let xp := Vec3.vsub xs plane_to_sphere in
  let rj := Vec3.new (Vec3.x xp - getF (x world) pi)
                     (Vec3.y xp - getF (y world) pi)
                     (Vec3.z xp - getF (z world) pi) in
  let qvec := Vec3.new (Vec3.x xp - getF (x world) si - Vec3.x rsi)
                       (Vec3.y xp - getF (y world) si - Vec3.y rsi)
                       (Vec3.z xp - getF (z world) si - Vec3.z rsi) in
  let q := Vec3.dot qvec n in
  if q <? 0 then
    let this := cmatrix_set this si pi 0 1 in
    let v_sphere :=
      Vec3.new (getF (vx world) si) (getF (vy world) si) (getF (vz world) si) in
    let u := v_sphere in
    if bool_decide (cmatrix_get this si pi (-1) = Some 0%Z) then
      _addImpulse this si pi rsi rj u n 0.5 0.3
    else if bool_decide (cmatrix_get this si pi (-1) = Some 1%Z) then
      let iM := getF (invm world) si in
      let iI := if gtb (getF (inertiax world) si) 0
                then 1 / getF (inertiax world) si else 0 in
      let '(s, _) :=
        Solver.addConstraint (solver this)
          [ - Vec3.x n; - Vec3.y n; - Vec3.z n; 0; 0; 0; 0; 0; 0; 0; 0; 0 ]
          [ iM; iM; iM; iI; iI; iI; 0; 0; 0; 0; 0; 0 ]
          [ - Vec3.x qvec; - Vec3.y qvec; - Vec3.z qvec; 0; 0; 0; 0; 0; 0; 0; 0; 0 ]
          [ Vec3.x v_sphere; Vec3.y v_sphere; Vec3.z v_sphere;
            0; 0; 0; 0; 0; 0; 0; 0; 0 ]
          [ getF (fx world) si; getF (fy world) si; getF (fz world) si;
            getF (taux world) si; getF (tauy world) si; getF (tauz world) si;
            getF (fx world) pi; getF (fy world) pi; getF (fz world) pi;
            getF (taux world) pi; getF (tauy world) pi; getF (tauz world) pi ]
          (Solver.Num 0) Solver.Str_inf (Z_ si) (Z_ pi) in
      Ok (with_solver this s)
    else Ok this
  else Ok this.

Definition sphere_sphere (world this : t) (i j : nat) : completion t :=
  let ri := Vec3.new (getF (x world) j - getF (x world) i)
                     (getF (y world) j - getF (y world) i)
                     (getF (z world) j - getF (z world) i) in
  let rj := Vec3.new (getF (x world) i - getF (x world) j)
                     (getF (y world) i - getF (y world) j)
                     (getF (z world) i - getF (z world) j) in
  let ri := fst (Vec3.normalize ri) in
  try bi := body_at world i in
  let ri := Vec3.mult ri (Shape.radius (RigidBody._shape bi)) in
  let rj := fst (Vec3.normalize rj) in
  try bj := body_at world j in
  let rj := Vec3.mult rj (Shape.radius (RigidBody._shape bj)) in
  let ni := Vec3.new (getF (x world) j - getF (x world) i)
                     (getF (y world) j - getF (y world) i)
                     (getF (z world) j - getF (z world) i) in
  let ni := fst (Vec3.normalize ni) in
  let q_vec :=
    Vec3.new (getF (x world) j + Vec3.x rj - getF (x world) i - Vec3.x ri)
             (getF (y world) j + Vec3.y rj - getF (y world) i - Vec3.y ri)
             (getF (z world) j + Vec3.z rj - getF (z world) i - Vec3.z ri) in
  let q := Vec3.dot q_vec ni in
  if q <? 0 then
    let this := cmatrix_set this i j 0 1 in
    let v_sphere_i :=
      Vec3.new (getF (vx world) i) (getF (vy world) i) (getF (vz world) i) in
    let v_sphere_j :=
      Vec3.new (getF (vx world) j) (getF (vy world) j) (getF (vz world) j) in
    let u := Vec3.vsub v_sphere_j v_sphere_i in
    if bool_decide (cmatrix_get this i j (-1) = Some 0%Z) then
      _addImpulse this i j ri rj u ni 0.5 0.3
    else
      let not_fixed (b : nat) := bool_decide (default 0%Z (fixed world !! b) = 0%Z) in
      let iM_i := if not_fixed i then getF (invm world) i else 0 in
      let iI_i := if not_fixed i then 1 / getF (inertiax world) i else 0 in
      let iM_j := if not_fixed j then getF (invm world) j else 0 in
      let iI_j := if not_fixed j then 1 / getF (inertiax world) j else 0 in
      let '(s, _) :=
        Solver.addConstraint (solver this)
          [ - Vec3.x ni; - Vec3.y ni; - Vec3.z ni; 0; 0; 0;
            Vec3.x ni; Vec3.y ni; Vec3.z ni; 0; 0; 0 ]
          [ iM_i; iM_i; iM_i; iI_i; iI_i; iI_i;
            iM_j; iM_j; iM_j; iI_j; iI_j; iI_j ]
          [ - Vec3.x q_vec; - Vec3.y q_vec; - Vec3.z q_vec; 0; 0; 0;
            Vec3.x q_vec; Vec3.y q_vec; Vec3.z q_vec; 0; 0; 0 ]
          [ getF (vx world) i; getF (vy world) i; getF (vz world) i; 0; 0; 0;
            getF (vx world) j; getF (vy world) j; getF (vz world) j; 0; 0; 0 ]
          [ getF (fx world) i; getF (fy world) i; getF (fz world) i;
            getF (taux world) i; getF (tauy world) i; getF (tauz world) i;
            getF (fx world) j; getF (fy world) j; getF (fz world) j;
            getF (taux world) j; getF (tauy world) j; getF (tauz world) j ]
          (Solver.Num 0) Solver.Str_inf (Z_ i) (Z_ j) in
      Ok (with_solver this s)
  else Ok this.

(** The box-plane branch reads the arrays and the bodies of [world] and
    adds its rows to [this.solver]; it calls neither [cmatrix] nor
    [_addImpulse]. *)
Definition box_plane (world this : t) (bi pi : nat) : completion t :=
  try bp := body_at world pi in
  try normal := defined (Shape.normal (RigidBody._shape bp)) in
  let n := Vec3.copy normal in
  let n := Vec3.negate n in
  let xi := Vec3.new (getF (x world) bi) (getF (y world) bi) (getF (z world) bi) in
  let quat := Quaternion.new (Some (getF (qx world) bi)) (Some (getF (qy world) bi))
                             (Some (getF (qz world) bi)) (Some (getF (qw world) bi)) in
  let quat := Quaternion.normalize quat in
  let localInertia :=
    Vec3.new (getF (inertiax world) bi) (getF (inertiay world) bi)
             (getF (inertiaz world) bi) in
  let worldInertia := Quaternion.vmult quat localInertia in
  let worldInertia :=
    Vec3.mk (abs (Vec3.x worldInertia)) (abs (Vec3.y worldInertia))
            (abs (Vec3.z worldInertia)) in
  try bb := body_at world bi in
  try ex := defined (Shape.halfExtents (RigidBody._shape bb)) in
  let '(s, numcontacts) :=
    box_plane_corners world bi pi n xi worldInertia quat (corners ex)
                      (solver this, 0%nat) in
  Ok (with_solver this s).

Definition narrowphase_pair (world this : t) (i j : nat) : completion t :=
  let ti := getI (type world) i in
  let tj := getI (type world) j in
  let eq_ (ty : option Z) (c : Z) := bool_decide (ty = Some c) in
  if (eq_ ti Shape.SPHERE && eq_ tj Shape.PLANE)
     || (eq_ ti Shape.PLANE && eq_ tj Shape.SPHERE) then
    if eq_ ti Shape.SPHERE then sphere_plane world this i j
    else sphere_plane world this j i
  else if eq_ ti Shape.SPHERE && eq_ tj Shape.SPHERE then
    sphere_sphere world this i j
  else if (eq_ ti Shape.BOX && eq_ tj Shape.PLANE)
          || (eq_ ti Shape.PLANE && eq_ tj Shape.BOX) then
    if eq_ ti Shape.BOX then box_plane world this i j else box_plane world this j i
  else Ok this.

Definition narrowphase (world this : t) (p1 p2 : list nat) : completion t :=
  fold_left
    (fun (acc : completion t) (k : nat) =>
       try this := acc in
       match p1 !! k, p2 !! k with
       | Some i, Some j => narrowphase_pair world this i j
       | _, _ => Ok this
       end)
    (seq 0 (length p1)) (Ok this).

(** [if(this.solver.n){ this.solver.solve(); ... }]: the solver of [this]
    is solved and its scratch velocities are added to the velocities of
    [world].  The new [this] and the new [world]. *)
Definition solve_contacts (world this : t) : completion (t * t) :=
  if (Solver.n (solver this) =? 0)%nat then Ok (this, world)
  else
    try s := Solver.solve (solver this) in
    try l := defined (Solver.lambdas s) in
    let this := with_solver this s in
    Ok (this,
        fold_left
          (fun w i =>
             let w := with_v w
               (setF (vx w) i (getF (vx w) i + getF (Solver.vxlambda l) i))
               (setF (vy w) i (getF (vy w) i + getF (Solver.vylambda l) i))
               (setF (vz w) i (getF (vz w) i + getF (Solver.vzlambda l) i)) in
             with_w w
               (setF (wx w) i (getF (wx w) i + getF (Solver.wxlambda l) i))
               (setF (wy w) i (getF (wy w) i + getF (Solver.wylambda l) i))
               (setF (wz w) i (getF (wz w) i + getF (Solver.wzlambda l) i)))
          (seq 0 (numObjects world)) world).

End Apart.

(** [this.step(dt)], for the world [this] and what the global variable
    [world] names: the new [this] and the new value of [world].
    [collisionPairs] is the method of the broadphase object installed in
    [this].  The first use of [world] comes after the broadphase has
    returned. *)
Definition step (collisionPairs : t -> completion (list nat * list nat))
    (world : global) (this : t) (dt : num) : completion (t * global) :=
  if paused this then Ok (this, world)
  else
    try pairs := collisionPairs this in
    let p1 := fst pairs in
    let p2 := snd pairs in
    match world with
    | Unbound => Throw "ReferenceError: world is not defined"
    | Itself =>
        try _ := scratch_arrays this in
        let this := transfer_contacts this in
        let this := add_gravity this in
        let this := with_solver this (Solver.reset (solver this) (numObjects this)) in
        try this := narrowphase this p1 p2 in
        try this := solve_contacts this in
        let this := leapfrog dt this in
        let this := reset_forces this in
        Ok (with_clock this (paused this) (time this + dt) (stepnumber this + 1)
                       (gravity this),
            Itself)
    | Another world =>
        try _ := scratch_arrays world in
        let this := transfer_contacts this in
        let world := add_gravity world in
        let this := with_solver this (Solver.reset (solver this) (numObjects world)) in
        try this := Apart.narrowphase world this p1 p2 in
        try both := Apart.solve_contacts world this in
        let this := fst both in
        let world := snd both in
        let world := leapfrog dt world in
        let world := reset_forces world in
        Ok (this,
            Another (with_clock world (paused world) (time world + dt)
                                (stepnumber world + 1) (gravity world)))
    end.

End World.

(** ** Broadphase *)

Module Broadphase.

(** [CANNON.Broadphase.prototype.collisionPairs] *)
Definition collisionPairs (world : World.t) : completion (list nat * list nat) :=
  Throw "collisionPairs not implemented for this BroadPhase class!".

End Broadphase.

Module NaiveBroadphase.

(** The body of the inner loop for the pair [(i,j)], [j < i]. *)
Definition test_pair (world : World.t) (i j : nat) (pairs : list nat * list nat)
    : completion (list nat * list nat) :=
  let '(pairs1, pairs2) := pairs in
  let push := Ok (pairs1 ++ [i], pairs2 ++ [j]) in
  let x := World.x world in
  let y := World.y world in
  let z := World.z world in
  let ti := getI (World.type world) i in
  let tj := getI (World.type world) j in
  let eq_ (ty : option Z) (c : Z) := bool_decide (ty = Some c) in
  if eq_ ti Shape.SPHERE && eq_ tj Shape.SPHERE then
    try bi := World.body_at world i in
    try bj := World.body_at world j in
    let r2 := Shape.radius (RigidBody._shape bi) + Shape.radius (RigidBody._shape bj) in
    if (abs (getF x i - getF x j) <? r2)
       && (abs (getF y i - getF y j) <? r2)
       && (abs (getF z i - getF z j) <? r2)
    then push else Ok pairs
  else if (eq_ ti Shape.SPHERE && eq_ tj Shape.PLANE)
          || (eq_ ti Shape.PLANE && eq_ tj Shape.SPHERE) then
    let si := if eq_ ti Shape.SPHERE then i else j in
    let pi := if eq_ ti Shape.PLANE then i else j in
    let r := Vec3.new (getF x si - getF x pi) (getF y si - getF y pi)
                      (getF z si - getF z pi) in
    try bp := World.body_at world pi in
    try normal := World.defined (Shape.normal (RigidBody._shape bp)) in
    try bs := World.body_at world si in
    let q := Vec3.dot r normal - Shape.radius (RigidBody._shape bs) in
    if q <? 0 then push else Ok pairs
  else if (eq_ ti Shape.BOX && eq_ tj Shape.PLANE)
          || (eq_ ti Shape.PLANE && eq_ tj Shape.BOX) then
    let bi := if eq_ ti Shape.BOX then i else j in
    let pi := if eq_ ti Shape.PLANE then i else j in
    let r := Vec3.new (getF x bi - getF x pi) (getF y bi - getF y pi)
                      (getF z bi - getF z pi) in
    try bp := World.body_at world pi in
    try normal := World.defined (Shape.normal (RigidBody._shape bp)) in
    let d := Vec3.dot r normal in
    try bb := World.body_at world bi in
    try halfExtents := World.defined (Shape.halfExtents (RigidBody._shape bb)) in
    let boundingRadius := Vec3.norm halfExtents in
    let q := d - boundingRadius in
    if q <? 0 then push else Ok pairs
  else Ok pairs.

(** [CANNON.NaiveBroadphase.prototype.collisionPairs] *)
Definition collisionPairs (world : World.t) : completion (list nat * list nat) :=
  fold_left
    (fun acc i =>
       fold_left
         (fun acc j => try pairs := acc in test_pair world i j pairs)
         (seq 0 i) acc)
    (seq 0 (World.numObjects world)) (Ok ([], [])).

End NaiveBroadphase.

(** ** RigidBody: the methods of the prototype

    A method takes the world the body may live in and the body, and gives
    back both with what it returns.  While [_id] is [-1] only the body is
    read or written. *)

Module RigidBodyProto.

Definition attached (this : RigidBody.t) : bool :=
  negb (RigidBody._id this =? -1)%Z.

Definition id (this : RigidBody.t) : nat := Z.to_nat (RigidBody._id this).

(** Updates of one property of the body, the others kept. *)
Definition with_vectors (this : RigidBody.t)
    (position velocity force tau rotvelo : Vec3.t) (quaternion : Quaternion.t)
    (mass : num) : RigidBody.t :=
  {| RigidBody._position := position;
     RigidBody._velocity := velocity;
     RigidBody._force := force;
     RigidBody._tau := tau;
     RigidBody._quaternion := quaternion;
     RigidBody._rotvelo := rotvelo;
     RigidBody._mass := mass;
     RigidBody._shape := RigidBody._shape this;
     RigidBody._inertia := RigidBody._inertia this;
     RigidBody._torque := RigidBody._torque this;
     RigidBody._id := RigidBody._id this |}.

(** [this.mass(m)]: [None] is the call without an argument, the getter. *)
Definition mass (w : World.t) (this : RigidBody.t) (m : option num)
    : World.t * RigidBody.t * option num :=
  match m with
  | None =>
      if attached this then (w, this, Some (getF (World.mass w) (id this)))
      else (w, this, Some (RigidBody._mass this))
  | Some m =>
      if attached this then
        (World.with_mass w (setF (World.mass w) (id this) m)
                           (setF (World.invm w) (id this) (1 / m)),
         this, None)
      else
        (w,
         with_vectors this (RigidBody._position this) (RigidBody._velocity this)
                      (RigidBody._force this) (RigidBody._tau this)
                      (RigidBody._rotvelo this) (RigidBody._quaternion this) m,
         None)
  end.

(** [this.setPosition(x,y,z)] *)
Definition setPosition (w : World.t) (this : RigidBody.t) (x y z : num)
    : World.t * RigidBody.t :=
  if attached this then
    let w := World.with_x w (setF (World.x w) (id this) x)
                            (setF (World.y w) (id this) y)
                            (setF (World.z w) (id this) z) in
    (World.clearCollisionState w this, this)
  else
    (w,
     with_vectors this (Vec3.mk x y z) (RigidBody._velocity this)
                  (RigidBody._force this) (RigidBody._tau this)
                  (RigidBody._rotvelo this) (RigidBody._quaternion this)
                  (RigidBody._mass this)).

(** [this.getPosition()] *)
Definition getPosition (w : World.t) (this : RigidBody.t) : completion Vec3.t :=
  if attached this then
    Ok (Vec3.mk (getF (World.x w) (id this)) (getF (World.y w) (id this))
                (getF (World.z w) (id this)))
  else
    Ok (Vec3.mk (Vec3.x (RigidBody._position this)) (Vec3.y (RigidBody._position this))
                (Vec3.z (RigidBody._position this))).

(** [this.setOrientation(x,y,z,w)] *)
Definition setOrientation (w : World.t) (this : RigidBody.t) (x y z w_ : num)
    : World.t * RigidBody.t :=
  let q := Quaternion.new (Some x) (Some y) (Some z) (Some w_) in
  let q := Quaternion.normalize q in
  if attached this then
    (World.with_q w (setF (World.qx w) (id this) (Quaternion.x q))
                    (setF (World.qy w) (id this) (Quaternion.y q))
                    (setF (World.qz w) (id this) (Quaternion.z q))
                    (setF (World.qw w) (id this) (Quaternion.w q)),
     this)
  else
    (w,
     with_vectors this (RigidBody._position this) (RigidBody._velocity this)
                  (RigidBody._force this) (RigidBody._tau this)
                  (RigidBody._rotvelo this)
                  (Quaternion.mk (Quaternion.x q) (Quaternion.y q)
                                 (Quaternion.z q) (Quaternion.w q))
                  (RigidBody._mass this)).

(** [this.getOrientation()]: the target is normalised before it is
    returned. *)
Definition getOrientation (w : World.t) (this : RigidBody.t)
    : completion Quaternion.t :=
  let target :=
    if attached this then
      Quaternion.mk (getF (World.qx w) (id this)) (getF (World.qy w) (id this))
                    (getF (World.qz w) (id this)) (getF (World.qw w) (id this))
    else
      Quaternion.mk (Quaternion.x (RigidBody._quaternion this))
                    (Quaternion.y (RigidBody._quaternion this))
                    (Quaternion.z (RigidBody._quaternion this))
                    (Quaternion.w (RigidBody._quaternion this)) in
  Ok (Quaternion.normalize target).

(** [this.setVelocity(x,y,z)] *)
Definition setVelocity (w : World.t) (this : RigidBody.t) (x y z : num)
    : World.t * RigidBody.t :=
  if attached this then
    (World.with_v w (setF (World.vx w) (id this) x)
                    (setF (World.vy w) (id this) y)
                    (setF (World.vz w) (id this) z),
     this)
  else
    (w,
     with_vectors this (RigidBody._position this) (Vec3.mk x y z)
                  (RigidBody._force this) (RigidBody._tau this)
                  (RigidBody._rotvelo this) (RigidBody._quaternion this)
                  (RigidBody._mass this)).

(** [this.getVelocity()]: on an attached body the source reads the
    arrays [x], [y], [z] of the world. *)
Definition getVelocity (w : World.t) (this : RigidBody.t) : completion Vec3.t :=
  if attached this then
    Ok (Vec3.mk (getF (World.x w) (id this)) (getF (World.y w) (id this))
                (getF (World.z w) (id this)))
  else
    Ok (Vec3.mk (Vec3.x (RigidBody._velocity this)) (Vec3.y (RigidBody._velocity this))
                (Vec3.z (RigidBody._velocity this))).

(** [this.setAngularVelocity(x,y,z)] *)
Definition setAngularVelocity (w : World.t) (this : RigidBody.t) (x y z : num)
    : World.t * RigidBody.t :=
  if attached this then
    (World.with_w w (setF (World.wx w) (id this) x)
                    (setF (World.wy w) (id this) y)
                    (setF (World.wz w) (id this) z),
     this)
  else
    (w,
     with_vectors this (RigidBody._position this) (RigidBody._velocity this)
                  (RigidBody._force this) (RigidBody._tau this)
                  (Vec3.mk x y z) (RigidBody._quaternion this)
                  (RigidBody._mass this)).

(** [this.getAngularvelocity()] *)
Definition getAngularvelocity (w : World.t) (this : RigidBody.t)
    : completion Vec3.t :=
  if attached this then
    Ok (Vec3.mk (getF (World.wx w) (id this)) (getF (World.wy w) (id this))
                (getF (World.wz w) (id this)))
  else
    Ok (Vec3.mk (Vec3.x (RigidBody._rotvelo this)) (Vec3.y (RigidBody._rotvelo this))
                (Vec3.z (RigidBody._rotvelo this))).

(** [this.setForce(x,y,z)] *)
Definition setForce (w : World.t) (this : RigidBody.t) (x y z : num)
    : World.t * RigidBody.t :=
  if attached this then
    (World.with_f w (setF (World.fx w) (id this) x)
                    (setF (World.fy w) (id this) y)
                    (setF (World.fz w) (id this) z),
     this)
  else
    (w,
     with_vectors this (RigidBody._position this) (RigidBody._velocity this)
                  (Vec3.mk x y z) (RigidBody._tau this)
                  (RigidBody._rotvelo this) (RigidBody._quaternion this)
                  (RigidBody._mass this)).

(** [this.getForce()] *)
Definition getForce (w : World.t) (this : RigidBody.t) : completion Vec3.t :=
  if attached this then
    Ok (Vec3.mk (getF (World.fx w) (id this)) (getF (World.fy w) (id this))
                (getF (World.fz w) (id this)))
  else
    Ok (Vec3.mk (Vec3.x (RigidBody._force this)) (Vec3.y (RigidBody._force this))
                (Vec3.z (RigidBody._force this))).

(** [this.setTorque(x,y,z)]: the detached branch writes [_tau]. *)
Definition setTorque (w : World.t) (this : RigidBody.t) (x y z : num)
    : World.t * RigidBody.t :=
  if attached this then
    (World.with_tau w (setF (World.taux w) (id this) x)
                      (setF (World.tauy w) (id this) y)
                      (setF (World.tauz w) (id this) z),
     this)
  else
    (w,
     with_vectors this (RigidBody._position this) (RigidBody._velocity this)
                  (RigidBody._force this) (Vec3.mk x y z)
                  (RigidBody._rotvelo this) (RigidBody._quaternion this)
                  (RigidBody._mass this)).

(** [this.getTorque()]: the detached branch reads [this._torque.x]. *)
Definition getTorque (w : World.t) (this : RigidBody.t) : completion Vec3.t :=
  if attached this then
    Ok (Vec3.mk (getF (World.taux w) (id this)) (getF (World.tauy w) (id this))
                (getF (World.tauz w) (id this)))
  else
    match RigidBody._torque this with
    | Some torque => Ok (Vec3.mk (Vec3.x torque) (Vec3.y torque) (Vec3.z torque))
    | None => Throw "TypeError: cannot read a property of undefined"
    end.

End RigidBodyProto.

(** ** Well-formed worlds *)

(** Every per-body array of the world has one entry per body, as [add]
    keeps them. *)
Definition sized (w : World.t) : bool :=
  forallb (fun a : list num => (length a =? World.numObjects w)%nat)
    [ World.x w; World.y w; World.z w;
      World.vx w; World.vy w; World.vz w;
      World.fx w; World.fy w; World.fz w;
      World.taux w; World.tauy w; World.tauz w;
      World.wx w; World.wy w; World.wz w;
      World.qx w; World.qy w; World.qz w; World.qw w;
      World.mass w; World.invm w;
      World.inertiax w; World.inertiay w; World.inertiaz w ]
  && (length (World.fixed w) =? World.numObjects w)%nat.

(** A Number that a [Float32Array] holds as it is. *)
Definition is_float32 (v : num) : bool := Leibniz.eqb (fround v) v.

(** A Number that is neither a zero nor NaN. *)
Definition is_nonzero (v : num) : bool := negb (is_zero v) && negb (is_nan v).

(** Two Numbers that are the same value, or two zeros of any sign. *)
Definition same_num (a b : num) : Prop :=
  a = b \/ (is_zero a = true /\ is_zero b = true).

Definition zero_vector (v : Vec3.t) : bool :=
  is_zero (Vec3.x v) && is_zero (Vec3.y v) && is_zero (Vec3.z v).

(** No force and no torque is accumulated on body [i]. *)
Definition unloaded (w : World.t) (i : nat) : bool :=
  is_zero (getF (World.fx w) i) && is_zero (getF (World.fy w) i)
  && is_zero (getF (World.fz w) i) && is_zero (getF (World.taux w) i)
  && is_zero (getF (World.tauy w) i) && is_zero (getF (World.tauz w) i).

(** Body [i] has a finite mass and inverse mass and an inertia without
    zero or NaN component, and its velocities are binary32 values. *)
Definition regular (w : World.t) (i : nat) : bool :=
  is_finite (getF (World.mass w) i) && is_finite (getF (World.invm w) i)
  && is_nonzero (getF (World.inertiax w) i)
  && is_nonzero (getF (World.inertiay w) i)
  && is_nonzero (getF (World.inertiaz w) i)
  && is_float32 (getF (World.vx w) i) && is_float32 (getF (World.vy w) i)
  && is_float32 (getF (World.vz w) i) && is_float32 (getF (World.wx w) i)
  && is_float32 (getF (World.wy w) i) && is_float32 (getF (World.wz w) i).

(** The momentum of the bodies along [x]: the sum of [mass[i] * vx[i]]. *)
Definition momentum_x (w : World.t) : num :=
  fold_left (fun acc i => acc + getF (World.mass w) i * getF (World.vx w) i)
            (seq 0 (World.numObjects w)) 0.

(** Position, linear and angular velocity of body [i], nine Numbers. *)
Definition kin (w : World.t) (i : nat) : list num :=
  [ getF (World.x w) i; getF (World.y w) i; getF (World.z w) i;
    getF (World.vx w) i; getF (World.vy w) i; getF (World.vz w) i;
    getF (World.wx w) i; getF (World.wy w) i; getF (World.wz w) i ].

(** What the integration reads and does not write. *)
Definition loads (w : World.t) : list (list num) * list Z :=
  ([ World.fx w; World.fy w; World.fz w;
     World.taux w; World.tauy w; World.tauz w;
     World.invm w; World.inertiax w; World.inertiay w; World.inertiaz w ],
   World.fixed w).

(** The nine Numbers of a body that is integrated over [dt], from the
    state [w]: the velocities first, the position from the new velocity. *)
Definition kin_integrated (dt : num) (w : World.t) (i : nat) : list num :=
  let vx := fround (getF (World.vx w) i + getF (World.fx w) i * getF (World.invm w) i * dt) in
  let vy := fround (getF (World.vy w) i + getF (World.fy w) i * getF (World.invm w) i * dt) in
  let vz := fround (getF (World.vz w) i + getF (World.fz w) i * getF (World.invm w) i * dt) in
  [ fround (getF (World.x w) i + vx * dt);
    fround (getF (World.y w) i + vy * dt);
    fround (getF (World.z w) i + vz * dt);
    vx; vy; vz;
    fround (getF (World.wx w) i + getF (World.taux w) i * 1 / getF (World.inertiax w) i * dt);
    fround (getF (World.wy w) i + getF (World.tauy w) i * 1 / getF (World.inertiay w) i * dt);
    fround (getF (World.wz w) i + getF (World.tauz w) i * 1 / getF (World.inertiaz w) i * dt) ].

(** Body [i] is where and as fast in [w'] as it was in [w]. *)
Definition at_rest (w w' : World.t) (i : nat) : Prop := kin w' i = kin w i.

(** Body [i] has in [w'] the velocities it had in [w], and has moved by
    its velocity times [dt]. *)
Definition free_flight (dt : num) (w w' : World.t) (i : nat) : Prop :=
  same_num (getF (World.vx w') i) (getF (World.vx w) i)
  /\ same_num (getF (World.vy w') i) (getF (World.vy w) i)
  /\ same_num (getF (World.vz w') i) (getF (World.vz w) i)
  /\ same_num (getF (World.wx w') i) (getF (World.wx w) i)
  /\ same_num (getF (World.wy w') i) (getF (World.wy w) i)
  /\ same_num (getF (World.wz w') i) (getF (World.wz w) i)
  /\ getF (World.x w') i = fround (getF (World.x w) i + getF (World.vx w') i * dt)
  /\ getF (World.y w') i = fround (getF (World.y w) i + getF (World.vy w') i * dt)
  /\ getF (World.z w') i = fround (getF (World.z w) i + getF (World.vz w') i * dt).

(** The values an [Int16Array] holds. *)
Definition int16 (v : Z) : Prop := (-32768 <= v < 32768)%Z.

(** The lengths of the nine arrays that the integration writes. *)
Definition kin_sized (N : nat) (w : World.t) : Prop :=
  Forall (fun a : list num => length a = N)
    [ World.x w; World.y w; World.z w; World.vx w; World.vy w; World.vz w;
      World.wx w; World.wy w; World.wz w ].

(** The cells of the pair [(a,b)], [b < a], after its transfer, relative
    to the matrix [cm0] at the start of the step: the cell [a + b*N] is
    zero and the cell [b + a*N] holds what [a + b*N] held. *)
Definition transferred (N : nat) (cm0 cm : list Z) (a b : nat) : Prop :=
  cm !! (a + b * N)%nat = Some 0%Z
  /\ cm !! (b + a * N)%nat = cm0 !! (a + b * N)%nat.

Definition untouched (N : nat) (cm0 cm : list Z) (a b : nat) : Prop :=
  cm !! (a + b * N)%nat = cm0 !! (a + b * N)%nat
  /\ cm !! (b + a * N)%nat = cm0 !! (b + a * N)%nat.

(** The state of the transfer loops when the pairs [(a,b)] with [a < I],
    and those with [a = I] and [b < J], have been handled. *)
Definition transfer_inv (N : nat) (cm0 : list Z) (I J : nat) (w : World.t) : Prop :=
  World.numObjects w = N
  /\ length (World.collision_matrix w) = (N * N)%nat
  /\ Forall int16 (World.collision_matrix w)
  /\ forall a b : nat, (b < a)%nat -> (a < N)%nat ->
       ((a < I \/ (a = I /\ b < J))%nat ->
        transferred N cm0 (World.collision_matrix w) a b)
       /\ (~ (a < I \/ (a = I /\ b < J))%nat ->
           untouched N cm0 (World.collision_matrix w) a b).

(** ** Worlds and solvers used as concrete inputs *)

Definition completion_map {A B : Type} (f : A -> B) (r : completion A) : completion B :=
  try a := r in Ok (f a).

Module Scene.

Definition unit_sphere (mass : num) : RigidBody.t :=
  RigidBody.new mass (Shape.Sphere_new (Some 1)).

(** A body placed and launched before it is added to a world. *)
Definition launched (b : RigidBody.t) (px py pz vx vy vz : num) : RigidBody.t :=
  let b := snd (RigidBodyProto.setPosition World.new b px py pz) in
  snd (RigidBodyProto.setVelocity World.new b vx vy vz).

Definition zero_gravity (w : World.t) : World.t :=
  match World.set_gravity w (Vec3.mk 0 0 0) with
  | Ok w' => w'
  | Throw _ => w
  end.

(** Two unit spheres of mass 1 that overlap and approach each other:
    body 0 at [x = -0.5] moving at [+1], body 1 at [x = 0.5] moving at
    [-1]. *)
Definition two_spheres : World.t :=
  let '(w, _) := World.add World.new (launched (unit_sphere 1) (-0.5) 0 0 1 0 0) in
  let '(w, _) := World.add w (launched (unit_sphere 1) 0.5 0 0 (-1) 0 0) in
  zero_gravity w.

(** What the sphere-sphere branch passes to [_addImpulse] for the pair
    [(1,0)] of [two_spheres]. *)
Definition ri : Vec3.t := Vec3.mk (-1) 0 0.
Definition rj : Vec3.t := Vec3.mk 1 0 0.
Definition u : Vec3.t := Vec3.mk 2 0 0.
Definition ni : Vec3.t := Vec3.mk (-1) 0 0.

(** A static plane through the origin with normal [(0,1,0)] and a box of
    half extents [(1,1,1)] and mass 1 centred 10 below it. *)
Definition sunk_box : World.t :=
  let '(w, _) :=
    World.add World.new (RigidBody.new 0 (Shape.Plane_new (Vec3.mk 0 1 0))) in
  let '(w, _) :=
    World.add w (launched (RigidBody.new 1 (Shape.Box_new (Vec3.mk 1 1 1)))
                          0 (-10) 0 0 0 0) in
  zero_gravity w.

(** One sphere of the given mass at the origin moving at [(1,0,0)]. *)
Definition lone_sphere (mass : num) : World.t :=
  let '(w, _) := World.add World.new (launched (unit_sphere mass) 0 0 0 1 0 0) in
  zero_gravity w.

(** A sphere added with mass 1 whose mass is then set to 0. *)
Definition remassed : World.t :=
  let '(w, b) := World.add World.new (unit_sphere 1) in
  fst (fst (RigidBodyProto.mass w b (Some 0))).

(** A body at [(1,2,3)] with velocity [(4,5,6)], added to a world. *)
Definition flying : World.t * RigidBody.t :=
  World.add World.new (launched (unit_sphere 1) 1 2 3 4 5 6).

(** A solver with [a = 1], [b = 0], [eps = 1], two sweeps and [h = 1],
    for two bodies, and two rows on the [x] velocity of body 0 with
    lower bound 0. *)
Definition e1 : list num := [1; 0; 0; 0; 0; 0; 0; 0; 0; 0; 0; 0].
Definition zeros : list num := [0; 0; 0; 0; 0; 0; 0; 0; 0; 0; 0; 0].
Definition q_of (v : num) : list num := [v; 0; 0; 0; 0; 0; 0; 0; 0; 0; 0; 0].

Definition two_rows : Solver.t :=
  let s := Solver.reset (Solver.new 1 0 1 0 0 2 1) 2 in
  let s := fst (Solver.addConstraint s e1 e1 (q_of (-2)) zeros zeros
                                     (Solver.Num 0) Solver.Str_inf 0 1) in
  fst (Solver.addConstraint s e1 e1 (q_of (-8)) zeros zeros
                            (Solver.Num 0) Solver.Str_inf 0 1).

Definition two_rows_G : list num := Float32Array_from (Solver.G two_rows).
Definition two_rows_i : list Z := map toInt16 (Solver.i two_rows).

(** The state of [solve] on [two_rows] after the first sweep. *)
Definition after_sweep_1 : Solver.sweep :=
  fold_left (Solver.row two_rows two_rows_G two_rows_i) (seq 0 2)
            (Solver.sweep0 two_rows
               (Solver.mkScratch (Float32Array 2) (Float32Array 2) (Float32Array 2)
                                 (Float32Array 2) (Float32Array 2) (Float32Array 2))).

End Scene.

(** ** Notions used by the further properties *)

(** The arguments of one call of [addConstraint]. *)
Record constraint : Type := mkConstraint {
  c_G : list num;
  c_MinvTrace : list num;
  c_q : list num;
  c_qdot : list num;
  c_Fext : list num;
  c_lower : Solver.bound;
  c_upper : Solver.bound;
  c_i : Z;
  c_j : Z
}.

(** A sequence of [addConstraint] calls. *)
Definition add_all (s : Solver.t) (cs : list constraint) : Solver.t :=
  fold_left
    (fun s c =>
       fst (Solver.addConstraint s (c_G c) (c_MinvTrace c) (c_q c) (c_qdot c)
                                 (c_Fext c) (c_lower c) (c_upper c) (c_i c) (c_j c)))
    cs s.

(** The pairs of shape types that the naive broadphase tests. *)
Definition collidable (ti tj : option Z) : bool :=
  let eq_ (ty : option Z) (c : Z) := bool_decide (ty = Some c) in
  (eq_ ti Shape.SPHERE && eq_ tj Shape.SPHERE)
  || (eq_ ti Shape.SPHERE && eq_ tj Shape.PLANE)
  || (eq_ ti Shape.PLANE && eq_ tj Shape.SPHERE)
  || (eq_ ti Shape.BOX && eq_ tj Shape.PLANE)
  || (eq_ ti Shape.PLANE && eq_ tj Shape.BOX).

(** The order in which the naive broadphase visits the pairs [(i,j)]. *)
Definition visited_before (p p' : nat * nat) : Prop :=
  (fst p < fst p')%nat \/ (fst p = fst p' /\ snd p < snd p')%nat.

(** A pair that the naive broadphase may report in a world. *)
Definition reportable (world : World.t) (p : nat * nat) : Prop :=
  (snd p < fst p)%nat /\ (fst p < World.numObjects world)%nat
  /\ collidable (World.type world !! fst p) (World.type world !! snd p) = true.

(** The six entries of body [k] in the scratch arrays. *)
Definition scratch_at (s : Solver.scratch) (k : Z) : list num :=
  [ getFz (Solver.vxlambda s) k; getFz (Solver.vylambda s) k;
    getFz (Solver.vzlambda s) k; getFz (Solver.wxlambda s) k;
    getFz (Solver.wylambda s) k; getFz (Solver.wzlambda s) k ].

Definition scratch_lengths (s : Solver.scratch) : list nat :=
  [ length (Solver.vxlambda s); length (Solver.vylambda s);
    length (Solver.vzlambda s); length (Solver.wxlambda s);
    length (Solver.wylambda s); length (Solver.wzlambda s) ].

(** The state of the two loops of [collisionPairs] when the pairs before
    [(I,J)] have been tested. *)
Definition pairs_inv (world : World.t) (I J : nat)
    (acc : completion (list nat * list nat)) : Prop :=
  match acc with
  | Throw _ => True
  | Ok (p1, p2) =>
      length p1 = length p2
      /\ Forall (fun p => reportable world p /\ visited_before p (I, J)) (zip p1 p2)
      /\ StronglySorted visited_before (zip p1 p2)
  end.


(** What no phase of [step] writes: the shapes, the bodies, the fixed
    flags, masses and inertias, the gravity, the pause flag and the spook
    parameters. *)
Definition data (w : World.t) :=
  (World.type w, World.body w, World.fixed w, World.mass w, World.invm w,
   World.inertiax w, World.inertiay w, World.inertiaz w,
   World.gravity w, World.paused w,
   World.spook_k w, World.spook_d w, World.spook_b w).

(** The lengths of the arrays that [step] writes. *)
Definition census (w : World.t) : list nat :=
  map length
    [ World.x w; World.y w; World.z w; World.vx w; World.vy w; World.vz w;
      World.fx w; World.fy w; World.fz w;
      World.taux w; World.tauy w; World.tauz w;
      World.wx w; World.wy w; World.wz w;
      World.qx w; World.qy w; World.qz w; World.qw w ].

(** Positions and orientations, the arrays that only the integration
    writes. *)
Definition placement (w : World.t) :=
  (World.x w, World.y w, World.z w,
   World.qx w, World.qy w, World.qz w, World.qw w).

Definition clock (w : World.t) := (World.time w, World.stepnumber w).

(** What every phase of [step] before the integration leaves as it is. *)
Definition outline (w : World.t) := (data w, census w, placement w, clock w).

(** Position and orientation of body [i], as the arrays hold them. *)
Definition pose_at (w : World.t) (i : nat) : list (option num) :=
  [ World.x w !! i; World.y w !! i; World.z w !! i;
    World.qx w !! i; World.qy w !! i; World.qz w !! i; World.qw w !! i ].

(** Forces and torques. *)
Definition forces (w : World.t) : list (list num) :=
  [ World.fx w; World.fy w; World.fz w;
    World.taux w; World.tauy w; World.tauz w ].

(** What the contact phases of [step] leave as it is: the outline and
    the forces. *)
Definition settled (w : World.t) := (outline w, forces w).

(** Linear velocity and position of body [i], six Numbers. *)
Definition drift (w : World.t) (i : nat) : list num :=
  [ getF (World.vx w) i; getF (World.vy w) i; getF (World.vz w) i;
    getF (World.x w) i; getF (World.y w) i; getF (World.z w) i ].


(** ** Further concrete inputs *)

Module Trial.

(** The value of a computation that returned, [d] for one that threw. *)
Definition value {A : Type} (d : A) (r : completion A) : A :=
  match r with Ok a => a | Throw _ => d end.

(** The world after [step(dt)] with the naive broadphase, [world] being
    the world itself. *)
Definition stepped (w : World.t) (dt : num) : World.t :=
  value w (completion_map fst
             (World.step NaiveBroadphase.collisionPairs World.Itself w dt)).

(** A solver for three bodies with one row between the bodies 0 and 1,
    and the solver after [solve]. *)
Definition one_row : Solver.t :=
  fst (Solver.addConstraint (Solver.reset (Solver.new 1 0 1 0 0 2 1) 3)
         Scene.e1 Scene.e1 (Scene.q_of (-2)) Scene.zeros Scene.zeros
         (Solver.Num 0) Solver.Str_inf 0 1).

Definition one_row_solved : Solver.t := value one_row (Solver.solve one_row).

Definition no_scratch : Solver.scratch := Solver.mkScratch [] [] [] [] [] [].

(** The two spheres with the previous-step bit of their pair set, and
    the body 0 of that world. *)
Definition marked : World.t := World.cmatrix_set Scene.two_spheres 0 1 (-1) 1.

Definition first_body : RigidBody.t :=
  default (Scene.unit_sphere 1) (World.body marked !! 0%nat).

(** The outcome of the box-plane branch on the sunk box. *)
Definition sunk_box_contacts : World.t * nat :=
  value (Scene.sunk_box, 0%nat) (World.box_plane_contacts Scene.sunk_box 1 0).

(** A sphere of mass 1 in a world whose gravity was never set. *)
Definition weightless : World.t := fst (World.add World.new (Scene.unit_sphere 1)).

(** The flying sphere with the force (1,2,3) set on it, under a zero
    gravity. *)
Definition pushed : World.t :=
  Scene.zero_gravity
    (fst (RigidBodyProto.setForce (fst Scene.flying) (snd Scene.flying) 1 2 3)).

(** The sphere of mass 1 stepped over 0.5 while [world] names the pushed
    sphere: the stepped world and the new value of [world]. *)
Definition stepped_apart : World.t * World.global :=
  value (Scene.lone_sphere 1, World.Another pushed)
        (World.step NaiveBroadphase.collisionPairs (World.Another pushed)
                    (Scene.lone_sphere 1) 0.5).

End Trial.

(** * Properties *)

(** ** Typed arrays *)

Lemma length_setF (a : list num) (i : nat) (v : num) :
  length (setF a i v) = length a.
Proof. unfold setF. apply length_insert. Qed.

Lemma getF_setF_eq (a : list num) (i : nat) (v : num) :
  (i < length a)%nat -> getF (setF a i v) i = fround v.
Proof.
  intros Hi. unfold getF, setF.
  rewrite list_lookup_insert_eq by exact Hi. reflexivity.
Qed.

Lemma getF_setF_ne (a : list num) (i j : nat) (v : num) :
  i <> j -> getF (setF a i v) j = getF a j.
Proof.
  intros Hij. unfold getF, setF.
  rewrite list_lookup_insert_ne by exact Hij. reflexivity.
Qed.

Lemma lookup_setF_ne (a : list num) (i j : nat) (v : num) :
  i <> j -> setF a i v !! j = a !! j.
Proof. intros Hij. unfold setF. apply list_lookup_insert_ne. exact Hij. Qed.

Lemma length_setI (a : list Z) (i : nat) (v : Z) :
  length (setI a i v) = length a.
Proof. unfold setI. apply length_insert. Qed.

(** The lengths that [sized] records, as equations in the context. *)
Ltac sized_lengths H :=
  unfold sized in H; cbn [forallb] in H;
  repeat match goal with
         | H' : _ && _ = true |- _ => apply andb_prop in H'; destruct H'
         | H' : (_ =? _)%nat = true |- _ => apply Nat.eqb_eq in H'
         | H' : true = true |- _ => clear H'
         end;
  unfold World.numObjects in *.

(** ** Mat3.solve *)

(** C5.  [Mat3.solve] on the matrix with rows (0,0,0), (0,1,0), (0,0,1)
    and right-hand side (-1,0,0) returns the vector (-Infinity, 0, 0): a
    solution with an infinite component is returned, nothing is thrown.
    The test after the back substitution compares with [Infinity] only. *)
Theorem solve_returns_negative_infinity :
  Mat3.solve (Mat3.new [0; 0; 0; 0; 1; 0; 0; 0; 1]) (Vec3.mk (-1) 0 0)
  = Ok (Vec3.mk neg_infinity 0 0).
Proof. vm_compute. reflexivity. Qed.

(** The test that ends [solve], on the three computed components. *)
Lemma solve_check (tx ty tz : num) (v : Vec3.t) :
  (if isNaN tx || isNaN ty || isNaN tz
      || (tx =? infinity) || (ty =? infinity) || (tz =? infinity)
   then Throw "Could not solve equation!"
   else Ok (Vec3.mk tx ty tz)) = Ok v ->
  isNaN (Vec3.x v) = false /\ isNaN (Vec3.y v) = false /\ isNaN (Vec3.z v) = false
  /\ (Vec3.x v =? infinity) = false /\ (Vec3.y v =? infinity) = false
  /\ (Vec3.z v =? infinity) = false.
Proof.
  destruct (isNaN tx || isNaN ty || isNaN tz
            || (tx =? infinity) || (ty =? infinity) || (tz =? infinity)) eqn:Hc;
    [discriminate|].
  intros [= <-]. cbn [Vec3.x Vec3.y Vec3.z].
  repeat (apply orb_false_elim in Hc; destruct Hc as [Hc ?]).
  repeat split; assumption.
Qed.

(** What [solve] does check: a returned solution has no NaN and no
    [+Infinity] component. *)
Lemma solve_ok_checked (A : Mat3.t) (b v : Vec3.t) :
  Mat3.solve A b = Ok v ->
  isNaN (Vec3.x v) = false /\ isNaN (Vec3.y v) = false /\ isNaN (Vec3.z v) = false
  /\ (Vec3.x v =? infinity) = false /\ (Vec3.y v =? infinity) = false
  /\ (Vec3.z v =? infinity) = false.
Proof.
  intros H. unfold Mat3.solve in H. cbv zeta in H.
  match type of H with
  | (if _ then _ else Ok (Vec3.mk ?tx ?ty ?tz)) = _ => exact (solve_check tx ty tz v H)
  end.
Qed.

(** ** Body getters *)

(** C8.  For the body at (1,2,3) with velocity (4,5,6) added to a world,
    the world's velocity arrays hold (4,5,6) at the body's index and
    [getVelocity] returns (1,2,3), the position: the attached branch of
    the getter reads the arrays [x], [y], [z]. *)
Theorem getVelocity_attached_returns_position :
  let '(w, b) := Scene.flying in
  RigidBody._id b = 0%Z
  /\ (World.vx w, World.vy w, World.vz w) = ([4], [5], [6])
  /\ RigidBodyProto.getVelocity w b = Ok (Vec3.mk 1 2 3).
Proof. vm_compute. repeat split; reflexivity. Qed.

(** On every attached body [getVelocity] and [getPosition] coincide. *)
Lemma getVelocity_attached_is_getPosition (w : World.t) (b : RigidBody.t) :
  RigidBodyProto.attached b = true ->
  RigidBodyProto.getVelocity w b = RigidBodyProto.getPosition w b.
Proof.
  intros Hb. unfold RigidBodyProto.getVelocity, RigidBodyProto.getPosition.
  rewrite Hb. reflexivity.
Qed.

(** C9.  On a freshly constructed (detached) body, and on it after any
    [setTorque], [getTorque] throws: the setter stores the torque in
    [_tau] and the getter reads [_torque], which no code assigns.  The
    getters of position, velocity, angular velocity and force return
    what the matching setter stored in the body. *)
Theorem getTorque_detached_throws (w : World.t) (mass : num) (shape : Shape.t)
    (x y z : num) :
  let b := RigidBody.new mass shape in
  RigidBodyProto.getTorque w b
    = Throw "TypeError: cannot read a property of undefined"
  /\ RigidBodyProto.getTorque w (snd (RigidBodyProto.setTorque w b x y z))
    = Throw "TypeError: cannot read a property of undefined"
  /\ RigidBody._tau (snd (RigidBodyProto.setTorque w b x y z)) = Vec3.mk x y z
  /\ RigidBodyProto.getPosition w (snd (RigidBodyProto.setPosition w b x y z))
    = Ok (Vec3.mk x y z)
  /\ RigidBodyProto.getVelocity w (snd (RigidBodyProto.setVelocity w b x y z))
    = Ok (Vec3.mk x y z)
  /\ RigidBodyProto.getAngularvelocity w
       (snd (RigidBodyProto.setAngularVelocity w b x y z))
    = Ok (Vec3.mk x y z)
  /\ RigidBodyProto.getForce w (snd (RigidBodyProto.setForce w b x y z))
    = Ok (Vec3.mk x y z).
Proof. cbv zeta. repeat split; reflexivity. Qed.

(** ** Mass, inverse mass and the fixed flag *)

(** C6.  A sphere is added with mass 1 and its mass is then set to 0
    through the body's [mass] setter: the world holds [mass[0] = 0],
    [invm[0] = Infinity] and [fixed[0] = 0].  The setter stores [1.0/m]
    unguarded and leaves [fixed] alone, unlike [World.add]. *)
Theorem mass_setter_breaks_invariant :
  (World.mass Scene.remassed, World.invm Scene.remassed, World.fixed Scene.remassed)
  = ([0], [infinity], [0%Z]).
Proof. vm_compute. reflexivity. Qed.

(** ** Box against plane *)

(** C4.  For the box sunk 10 below the plane all eight corners penetrate,
    and the box-plane branch adds five constraint rows: the loop runs
    while [numcontacts <= 4].  One [step] with the naive broadphase
    ([world] being this world) leaves the solver with these five rows. *)
Theorem box_plane_emits_five_rows :
  NaiveBroadphase.collisionPairs Scene.sunk_box = Ok ([1%nat], [0%nat])
  /\ completion_map snd (World.box_plane_contacts Scene.sunk_box 1 0) = Ok 5%nat
  /\ completion_map (fun r => Solver.n (World.solver (fst r)))
       (World.step NaiveBroadphase.collisionPairs World.Itself Scene.sunk_box (1 / 60))
     = Ok 5%nat.
Proof. vm_compute. repeat split; reflexivity. Qed.

(** ** The clamp of the solver *)

(** C2.  On the two-row system the first sweep leaves the multipliers
    (1, 3.5) and the scratch velocity 4.5 for body 0.  In the second sweep
    row 0 falls below its lower bound 0: the stored multiplier becomes 0,
    but the correction [dlambda[0]] that is applied is 0, not
    [0 - 1 = -1], and the scratch velocity stays 4.5.  [solve] ends with
    multipliers (0, 3.5) and scratch velocity 4.5. *)
Theorem clamp_applies_no_correction :
  let st1 := Scene.after_sweep_1 in
  let st2 := Solver.row Scene.two_rows Scene.two_rows_G Scene.two_rows_i st1 0 in
  Solver.haslower Scene.two_rows !! 0%nat = Some true
  /\ Solver.lambda st1 = [1; 3.5]
  /\ Solver.vxlambda (Solver.vl st1) = [4.5; 0]
  /\ Solver.lambda st2 = [0; 3.5]
  /\ getF (Solver.dlambda st2) 0 = 0
  /\ getF (Solver.lambda st2) 0 - getF (Solver.lambda st1) 0 = -1
  /\ Solver.vxlambda (Solver.vl st2) = [4.5; 0]
  /\ completion_map
       (fun r => (Solver.lambda (snd r), option_map Solver.vxlambda (Solver.lambdas (fst r))))
       (Solver.solve_sweep Scene.two_rows)
     = Ok ([0; 3.5], Some [4.5; 0]).
Proof. vm_compute. repeat split; reflexivity. Qed.

(** The clamp against the lower bound, when it fires: the correction is
    computed from the multiplier that was just overwritten. *)
Lemma clamp_lower_hit (this : Solver.t) (l : nat) (lambda dlambda : list num) (lo : num) :
  (l < length lambda)%nat ->
  Solver.haslower this !! l = Some true ->
  Solver.lower this !! l = Some (Solver.Num lo) ->
  (getF lambda l <? lo) = true ->
  Solver.clamp_lower this l lambda dlambda
  = (setF lambda l lo, setF dlambda l (lo - fround lo)).
Proof.
  intros Hl Hhas Hlo Hlt. unfold Solver.clamp_lower.
  rewrite Hhas, Hlo. simpl.
  rewrite Hlt. rewrite getF_setF_eq by exact Hl. reflexivity.
Qed.

(** ** The default orientation *)

Lemma length_fold_setF (f : nat -> num) (l : list nat) (arr : list num) :
  length (fold_left (fun arr i => setF arr i (f i)) l arr) = length arr.
Proof.
  revert arr. induction l as [|i l IH]; intros arr; cbn [fold_left].
  - reflexivity.
  - rewrite IH. apply length_setF.
Qed.

Lemma grow_F_last (n : nat) (old : list num) (v : num) :
  World.grow_F n old v !! n = Some (fround v).
Proof.
  unfold World.grow_F, setF at 1.
  apply list_lookup_insert_eq.
  rewrite (length_fold_setF (fun i => getF old i)).
  unfold Float32Array. rewrite length_replicate. lia.
Qed.

(** C10.  A body as the constructor leaves it has the orientation
    quaternion (x,y,z,w) = (1,0,0,0): its squared norm is 1, its [w] is
    0, it is not the identity (0,0,0,1), and as a rotation it fixes the x
    axis and reverses the y and z axes.  [World.add] stores these four
    numbers unchanged at the new body's index. *)
Theorem default_orientation_is_x_half_turn (mass : num) (shape : Shape.t)
    (w : World.t) :
  let q := RigidBody._quaternion (RigidBody.new mass shape) in
  let w' := fst (World.add w (RigidBody.new mass shape)) in
  let n := World.numObjects w in
  q = Quaternion.mk 1 0 0 0
  /\ Quaternion.x q * Quaternion.x q + Quaternion.y q * Quaternion.y q
     + Quaternion.z q * Quaternion.z q + Quaternion.w q * Quaternion.w q = 1
  /\ Quaternion.w q = 0
  /\ q <> Quaternion.mk 0 0 0 1
  /\ Quaternion.vmult q (Vec3.mk 1 0 0) = Vec3.mk 1 0 0
  /\ Quaternion.vmult q (Vec3.mk 0 1 0) = Vec3.mk 0 (-1) 0
  /\ Quaternion.vmult q (Vec3.mk 0 0 1) = Vec3.mk 0 0 (-1)
  /\ World.qx w' !! n = Some 1
  /\ World.qy w' !! n = Some 0
  /\ World.qz w' !! n = Some 0
  /\ World.qw w' !! n = Some 0.
Proof.
  cbv zeta. cbn [RigidBody.new RigidBody._quaternion Quaternion.new default].
  split; [reflexivity|]. split; [vm_compute; reflexivity|].
  split; [reflexivity|]. split.
  { intros H. apply (f_equal (fun q => Quaternion.x q =? 0)) in H.
    vm_compute in H. discriminate. }
  split; [vm_compute; reflexivity|]. split; [vm_compute; reflexivity|].
  split; [vm_compute; reflexivity|].
  repeat split.
  + cbn [World.add fst World.qx]. rewrite grow_F_last. reflexivity.
  + cbn [World.add fst World.qy]. rewrite grow_F_last. reflexivity.
  + cbn [World.add fst World.qz]. rewrite grow_F_last. reflexivity.
  + cbn [World.add fst World.qw]. rewrite grow_F_last. reflexivity.
Qed.

(** ** The impulse handler *)

(** C1.  First contact of the two approaching spheres (the call that the
    sphere-sphere branch makes for the pair (1,0)): the solve gives
    [J = (-1.5, 0, 0)] and both masses and inverse masses are 1.  The
    rule [vi = vi + J/mi], [vj = vj - J/mj], which is also the comment of
    the handler, asks for [vx[1] = -1 + -1.5 = -2.5] and
    [vx[0] = 1 - -1.5 = 2.5].  The handler leaves [vx[1] = -1.5] and
    [vx[0] = -1]: its stores add the terms [-(vx[j] - ui.x)] and
    [-(vx[i] - ui.x)], and the momentum along [x] goes from 0 to -2.5. *)
Theorem addImpulse_adds_relative_velocity_terms :
  World.impulse Scene.two_spheres 1 0 Scene.ri Scene.rj Scene.u Scene.ni 0.5 0.3
    = Ok (Vec3.mk (-1.5) 0 0)
  /\ (World.mass Scene.two_spheres, World.invm Scene.two_spheres) = ([1; 1], [1; 1])
  /\ World.vx Scene.two_spheres = [1; -1]
  /\ completion_map World.vx
       (World._addImpulse Scene.two_spheres 1 0 Scene.ri Scene.rj Scene.u Scene.ni 0.5 0.3)
     = Ok [-1; -1.5]
  /\ -1.5 <> fround (-1 + -1.5 * 1)
  /\ -1 <> fround (1 - -1.5 * 1)
  /\ momentum_x Scene.two_spheres = 0
  /\ completion_map momentum_x
       (World._addImpulse Scene.two_spheres 1 0 Scene.ri Scene.rj Scene.u Scene.ni 0.5 0.3)
     = Ok (-2.5).
Proof.
  repeat split; try (vm_compute; reflexivity).
  - intros H. apply (f_equal (fun v => v =? -1.5)) in H. vm_compute in H. discriminate.
  - intros H. apply (f_equal (fun v => v =? -1)) in H. vm_compute in H. discriminate.
Qed.

(** What the handler stores in general.  Once the impulse [J] is
    obtained, the handler returns
    and stores, for each axis, [v_i + (J*invm_i - (v_j - u))] for body [i]
    and then [v_j - (J*invm_j - (v_i' - u))] for body [j], where [v_i'] is
    the velocity of body [i] just stored and [u] the relative velocity it
    was given, each rounded to binary32.  Every other body's velocity and
    all angular velocities are left as they were; there is no switch that
    would change the angular velocities. *)
Lemma addImpulse_velocity_change (this : World.t) (i j : nat)
    (ri rj ui ni : Vec3.t) (e mu : num) (J : Vec3.t) :
  i <> j ->
  sized this = true ->
  (i < World.numObjects this)%nat ->
  (j < World.numObjects this)%nat ->
  World.impulse this i j ri rj ui ni e mu = Ok J ->
  exists w',
    World._addImpulse this i j ri rj ui ni e mu = Ok w'
    /\ getF (World.vx w') i
       = fround (getF (World.vx this) i
                 + (Vec3.x J * getF (World.invm this) i
                    - (getF (World.vx this) j - Vec3.x ui)))
    /\ getF (World.vy w') i
       = fround (getF (World.vy this) i
                 + (Vec3.y J * getF (World.invm this) i
                    - (getF (World.vy this) j - Vec3.y ui)))
    /\ getF (World.vz w') i
       = fround (getF (World.vz this) i
                 + (Vec3.z J * getF (World.invm this) i
                    - (getF (World.vz this) j - Vec3.z ui)))
    /\ getF (World.vx w') j
       = fround (getF (World.vx this) j
                 - (Vec3.x J * getF (World.invm this) j
                    - (getF (World.vx w') i - Vec3.x ui)))
    /\ getF (World.vy w') j
       = fround (getF (World.vy this) j
                 - (Vec3.y J * getF (World.invm this) j
                    - (getF (World.vy w') i - Vec3.y ui)))
    /\ getF (World.vz w') j
       = fround (getF (World.vz this) j
                 - (Vec3.z J * getF (World.invm this) j
                    - (getF (World.vz w') i - Vec3.z ui)))
    /\ (forall k : nat, k <> i -> k <> j ->
        World.vx w' !! k = World.vx this !! k
        /\ World.vy w' !! k = World.vy this !! k
        /\ World.vz w' !! k = World.vz this !! k)
    /\ World.wx w' = World.wx this
    /\ World.wy w' = World.wy this
    /\ World.wz w' = World.wz this.
Proof.
  intros Hij Hsized Hi Hj HJ.
  sized_lengths Hsized.
  eexists. split.
  { unfold World._addImpulse. rewrite HJ. cbn [bind]. reflexivity. }
  cbn [World.with_v World.vx World.vy World.vz World.wx World.wy World.wz].
  assert (Hji : j <> i) by congruence.
  repeat split.
  - rewrite getF_setF_ne by exact Hji. rewrite getF_setF_eq by lia. reflexivity.
  - rewrite getF_setF_ne by exact Hji. rewrite getF_setF_eq by lia. reflexivity.
  - rewrite getF_setF_ne by exact Hji. rewrite getF_setF_eq by lia. reflexivity.
  - rewrite getF_setF_eq by (rewrite length_setF; lia).
    rewrite !(getF_setF_ne _ j i) by exact Hji.
    rewrite !(getF_setF_ne _ i j) by exact Hij.
    rewrite getF_setF_eq by lia. reflexivity.
  - rewrite getF_setF_eq by (rewrite length_setF; lia).
    rewrite !(getF_setF_ne _ j i) by exact Hji.
    rewrite !(getF_setF_ne _ i j) by exact Hij.
    rewrite getF_setF_eq by lia. reflexivity.
  - rewrite getF_setF_eq by (rewrite length_setF; lia).
    rewrite !(getF_setF_ne _ j i) by exact Hji.
    rewrite !(getF_setF_ne _ i j) by exact Hij.
    rewrite getF_setF_eq by lia. reflexivity.
  - rewrite !lookup_setF_ne by congruence. reflexivity.
  - rewrite !lookup_setF_ne by congruence. reflexivity.
  - rewrite !lookup_setF_ne by congruence. reflexivity.
Qed.


(** ** The contact-history matrix *)

Lemma toInt16_int16 (v : Z) : int16 (toInt16 v).
Proof.
  unfold int16, toInt16.
  pose proof (Z.mod_pos_bound (v + 32768) 65536 ltac:(lia)). lia.
Qed.

Lemma toInt16_id (v : Z) : int16 v -> toInt16 v = v.
Proof.
  unfold int16, toInt16. intros Hv.
  rewrite Z.mod_small by lia. lia.
Qed.

(** Two cells of an [N] by [N] matrix stored as [column + row * N]
    coincide only when their columns and rows do. *)
Lemma cell_inj (N a b c d : nat) :
  (a < N)%nat -> (c < N)%nat -> (a + b * N = c + d * N)%nat -> a = c /\ b = d.
Proof.
  intros Ha Hc Heq.
  assert (b = d) by nia. subst d. split; [lia | reflexivity].
Qed.

Lemma cell_lt (N a b : nat) : (a < N)%nat -> (b < N)%nat -> (a + b * N < N * N)%nat.
Proof. intros Ha Hb. nia. Qed.

(** A loop [for(k=0; k<n; k++)] establishes [P n] from [P 0] when each
    round takes [P k] to [P (k+1)]. *)
Lemma fold_left_seq_ind {A : Type} (P : nat -> A -> Prop) (f : A -> nat -> A)
    (n : nat) (a : A) :
  P 0%nat a ->
  (forall (k : nat) (a' : A), (k < n)%nat -> P k a' -> P (S k) (f a' k)) ->
  P n (fold_left f (seq 0 n) a).
Proof.
  intros H0 Hstep. induction n as [|n IH].
  - exact H0.
  - rewrite seq_S, fold_left_app. cbn [fold_left Nat.add].
    apply Hstep; [lia|]. apply IH. intros k a' Hk. apply Hstep. lia.
Qed.

Lemma numObjects_with_collision_matrix (w : World.t) (cm : list Z) :
  World.numObjects (World.with_collision_matrix w cm) = World.numObjects w.
Proof. reflexivity. Qed.

(** Where [cmatrix] reads and writes: the current bit of a pair is in
    the cell whose column is the larger index, the previous bit in the
    cell whose column is the smaller one. *)
Lemma cmatrix_index_current (w : World.t) (a b : nat) :
  World.cmatrix_index w a b 0 = (Nat.max a b + Nat.min a b * World.numObjects w)%nat.
Proof.
  unfold World.cmatrix_index. cbn [Z.eqb andb orb].
  destruct (a <? b)%nat eqn:Hab.
  - apply Nat.ltb_lt in Hab. rewrite Nat.max_r, Nat.min_l by lia. reflexivity.
  - apply Nat.ltb_ge in Hab. rewrite Nat.max_l, Nat.min_r by lia. reflexivity.
Qed.

Lemma cmatrix_index_previous (w : World.t) (a b : nat) :
  World.cmatrix_index w a b (-1) = (Nat.min a b + Nat.max a b * World.numObjects w)%nat.
Proof.
  unfold World.cmatrix_index. cbn [Z.eqb Pos.eqb andb orb].
  destruct (b <? a)%nat eqn:Hab.
  - apply Nat.ltb_lt in Hab. rewrite Nat.max_l, Nat.min_r by lia. reflexivity.
  - apply Nat.ltb_ge in Hab. rewrite Nat.max_r, Nat.min_l by lia. reflexivity.
Qed.

(** One transfer, [cmatrix(i,j,-1,cmatrix(i,j,0)); cmatrix(i,j,0,0)], for
    [j < i]. *)
Lemma transfer_cells (w : World.t) (i j : nat) :
  let N := World.numObjects w in
  let cm := World.collision_matrix w in
  let cm' := World.collision_matrix (World.transfer w i j) in
  (j < i)%nat -> (i < N)%nat ->
  length cm = (N * N)%nat ->
  Forall int16 cm ->
  World.numObjects (World.transfer w i j) = N
  /\ length cm' = (N * N)%nat
  /\ Forall int16 cm'
  /\ cm' !! (i + j * N)%nat = Some 0%Z
  /\ cm' !! (j + i * N)%nat = cm !! (i + j * N)%nat
  /\ (forall p : nat, p <> (i + j * N)%nat -> p <> (j + i * N)%nat -> cm' !! p = cm !! p).
Proof.
  intros N cm cm' Hji HiN Hlen Hint.
  assert (Hcur : (i + j * N < length cm)%nat) by (rewrite Hlen; apply cell_lt; lia).
  assert (Hprev : (j + i * N < length cm)%nat) by (rewrite Hlen; apply cell_lt; lia).
  assert (Hne : (j + i * N)%nat <> (i + j * N)%nat).
  { intros Heq. apply cell_inj in Heq; lia. }
  destruct (lookup_lt_is_Some_2 cm _ Hcur) as [cur Hcurv].
  assert (Hcur16 : int16 cur) by (eapply Forall_lookup_1; eassumption).
  assert (Hw' : World.transfer w i j
                = World.with_collision_matrix w
                    (<[(i + j * N)%nat := 0%Z]> (<[(j + i * N)%nat := cur]> cm))).
  { unfold World.transfer, World.cmatrix_get, World.cmatrix_set, getI, setI.
    rewrite cmatrix_index_current. fold N. fold cm.
    rewrite Nat.max_l, Nat.min_r by lia. rewrite Hcurv.
    rewrite cmatrix_index_current, cmatrix_index_previous.
    rewrite !numObjects_with_collision_matrix. fold N.
    rewrite Nat.max_l, Nat.min_r by lia.
    rewrite (toInt16_id cur Hcur16). reflexivity. }
  subst cm'. rewrite Hw'.
  cbn [World.with_collision_matrix World.collision_matrix].
  repeat split.
  - rewrite !length_insert. exact Hlen.
  - apply Forall_insert; [apply Forall_insert; assumption|]. unfold int16. lia.
  - apply list_lookup_insert_eq. rewrite length_insert. exact Hcur.
  - rewrite list_lookup_insert_ne by (intros Heq; apply Hne; symmetry; exact Heq).
    rewrite list_lookup_insert_eq by exact Hprev. symmetry. exact Hcurv.
  - intros p Hp1 Hp2.
    rewrite !list_lookup_insert_ne by congruence. reflexivity.
Qed.

(** The cells of two different pairs are four different cells. *)
Lemma pair_cells_apart (N a b i k : nat) :
  (b < a)%nat -> (a < N)%nat -> (k < i)%nat -> (i < N)%nat ->
  ~ (a = i /\ b = k) ->
  (a + b * N)%nat <> (i + k * N)%nat
  /\ (a + b * N)%nat <> (k + i * N)%nat
  /\ (b + a * N)%nat <> (i + k * N)%nat
  /\ (b + a * N)%nat <> (k + i * N)%nat.
Proof.
  intros Hba HaN Hki HiN Hne.
  repeat split; intros Heq; apply cell_inj in Heq; lia.
Qed.

(** The inner loop, over [j < i]. *)
Lemma transfer_row (N : nat) (cm0 : list Z) (i : nat) (w : World.t) :
  (i < N)%nat ->
  transfer_inv N cm0 i 0 w ->
  transfer_inv N cm0 i i (fold_left (fun w j => World.transfer w i j) (seq 0 i) w).
Proof.
  intros HiN Hinv.
  apply (fold_left_seq_ind (fun J w => transfer_inv N cm0 i J w)); [exact Hinv|].
  clear w Hinv. intros k w Hki (HN & Hlen & Hint & Hcells).
  destruct (transfer_cells w i k) as (HN' & Hlen' & Hint' & Hcur & Hprev & Hrest);
    rewrite ?HN; try assumption.
  rewrite HN in *.
  split; [exact HN'|]. split; [exact Hlen'|]. split; [exact Hint'|].
  intros a b Hba HaN.
  destruct (Hcells a b Hba HaN) as [Hdone Htodo].
  destruct (decide (a = i /\ b = k)) as [[-> ->]|Hother].
  - split; [|intros Hnot; exfalso; apply Hnot; right; lia].
    intros _. split; [exact Hcur|].
    rewrite Hprev. apply Htodo. lia.
  - destruct (pair_cells_apart N a b i k) as (H1 & H2 & H3 & H4); try assumption.
    split.
    + intros Hp. destruct Hdone as [Hd1 Hd2]; [lia|].
      split; rewrite Hrest by assumption; assumption.
    + intros Hp. destruct Htodo as [Ht1 Ht2]; [lia|].
      split; rewrite Hrest by assumption; assumption.
Qed.

(** The two nested loops: every pair has been transferred. *)
Lemma transfer_contacts_inv (w : World.t) :
  length (World.collision_matrix w) = (World.numObjects w * World.numObjects w)%nat ->
  Forall int16 (World.collision_matrix w) ->
  transfer_inv (World.numObjects w) (World.collision_matrix w)
               (World.numObjects w) 0 (World.transfer_contacts w).
Proof.
  intros Hlen Hint. unfold World.transfer_contacts.
  set (N := World.numObjects w). set (cm0 := World.collision_matrix w).
  apply (fold_left_seq_ind (fun I w' => transfer_inv N cm0 I 0 w')).
  - split; [reflexivity|]. split; [exact Hlen|]. split; [exact Hint|].
    intros a b Hba HaN. split; [lia|]. intros _. split; reflexivity.
  - intros i w' HiN Hinv.
    destruct (transfer_row N cm0 i w' HiN Hinv) as (HN & Hlen' & Hint' & Hcells).
    split; [exact HN|]. split; [exact Hlen'|]. split; [exact Hint'|].
    intros a b Hba HaN. destruct (Hcells a b Hba HaN) as [Hdone Htodo].
    split; intros Hp; [apply Hdone | apply Htodo]; lia.
Qed.

(** Two overlapping spheres, bodies 0 and 1 of two: the narrowphase of
    one step leaves the current contact bit in cell [1 + 0*2 = 1] and
    not in cell [0 + 1*2 = 2]; the transfer at the start of the next step
    moves it to cell 2. *)
Lemma current_bit_not_at_i_plus_jN :
  let w1 :=
    completion_map fst
      (World.step NaiveBroadphase.collisionPairs World.Itself Scene.two_spheres (1 / 60)) in
  NaiveBroadphase.collisionPairs Scene.two_spheres = Ok ([1%nat], [0%nat])
  /\ completion_map World.collision_matrix w1 = Ok [0; 1; 0; 0]%Z
  /\ completion_map (fun w => World.collision_matrix w !! (0 + 1 * 2)%nat) w1
     = Ok (Some 0%Z)
  /\ completion_map (fun w => World.collision_matrix w !! (1 + 0 * 2)%nat) w1
     = Ok (Some 1%Z)
  /\ completion_map (fun w => World.collision_matrix (World.transfer_contacts w)) w1
     = Ok [0; 0; 1; 0]%Z.
Proof. vm_compute. repeat split; reflexivity. Qed.

(** C3 (amended).  In a world of [N] bodies whose contact matrix has
    [N*N] 16-bit entries, for every pair [i < j < N]: the narrowphase
    reads and writes the current contact bit of the pair at
    [collision_matrix[j + i*N]] and reads the previous one at
    [collision_matrix[i + j*N]], whichever body it names first; and the
    transfer that opens a step copies the current bit into
    [collision_matrix[i + j*N]] and zeroes [collision_matrix[j + i*N]]. *)
Theorem contact_history_layout (w : World.t) (i j : nat) (bit : Z) :
  let N := World.numObjects w in
  length (World.collision_matrix w) = (N * N)%nat ->
  Forall int16 (World.collision_matrix w) ->
  int16 bit ->
  (i < j)%nat -> (j < N)%nat ->
  World.cmatrix_index w i j 0 = (j + i * N)%nat
  /\ World.cmatrix_index w j i 0 = (j + i * N)%nat
  /\ World.cmatrix_index w i j (-1) = (i + j * N)%nat
  /\ World.cmatrix_index w j i (-1) = (i + j * N)%nat
  /\ World.collision_matrix (World.cmatrix_set w i j 0 bit) !! (j + i * N)%nat = Some bit
  /\ World.collision_matrix (World.cmatrix_set w j i 0 bit) !! (j + i * N)%nat = Some bit
  /\ World.cmatrix_get w i j (-1) = World.collision_matrix w !! (i + j * N)%nat
  /\ World.collision_matrix (World.transfer_contacts w) !! (i + j * N)%nat
     = World.collision_matrix w !! (j + i * N)%nat
  /\ World.collision_matrix (World.transfer_contacts w) !! (j + i * N)%nat = Some 0%Z.
Proof.
  intros N Hlen Hint Hbit Hij HjN.
  assert (Hc1 : World.cmatrix_index w i j 0 = (j + i * N)%nat).
  { rewrite cmatrix_index_current. rewrite Nat.max_r, Nat.min_l by lia. reflexivity. }
  assert (Hc2 : World.cmatrix_index w j i 0 = (j + i * N)%nat).
  { rewrite cmatrix_index_current. rewrite Nat.max_l, Nat.min_r by lia. reflexivity. }
  assert (Hp1 : World.cmatrix_index w i j (-1) = (i + j * N)%nat).
  { rewrite cmatrix_index_previous. rewrite Nat.max_r, Nat.min_l by lia. reflexivity. }
  assert (Hp2 : World.cmatrix_index w j i (-1) = (i + j * N)%nat).
  { rewrite cmatrix_index_previous. rewrite Nat.max_l, Nat.min_r by lia. reflexivity. }
  assert (Hcell : (j + i * N < length (World.collision_matrix w))%nat).
  { rewrite Hlen. apply cell_lt; lia. }
  destruct (transfer_contacts_inv w Hlen Hint) as (_ & _ & _ & Hcells).
  destruct (Hcells j i Hij HjN) as [[Hzero Hcopy] _]; [left; exact HjN|].
  repeat split; try assumption.
  - unfold World.cmatrix_set, setI. rewrite Hc1.
    cbn [World.with_collision_matrix World.collision_matrix].
    rewrite list_lookup_insert_eq by exact Hcell. rewrite toInt16_id by exact Hbit.
    reflexivity.
  - unfold World.cmatrix_set, setI. rewrite Hc2.
    cbn [World.with_collision_matrix World.collision_matrix].
    rewrite list_lookup_insert_eq by exact Hcell. rewrite toInt16_id by exact Hbit.
    reflexivity.
  - unfold World.cmatrix_get, getI. rewrite Hp1. reflexivity.
Qed.

(** The amended C3 on the two spheres, for the pair (0,1) and the bit 1. *)
Lemma contact_history_layout_two_spheres :
  World.cmatrix_index Scene.two_spheres 0 1 0 = 1%nat
  /\ World.cmatrix_index Scene.two_spheres 0 1 (-1) = 2%nat
  /\ World.collision_matrix (World.cmatrix_set Scene.two_spheres 1 0 0 1) !! 1%nat
     = Some 1%Z.
Proof.
  destruct (contact_history_layout Scene.two_spheres 0 1 1)
    as (Hc & _ & Hp & _ & _ & Hset & _).
  - vm_compute. reflexivity.
  - vm_compute. repeat constructor; discriminate.
  - unfold int16. lia.
  - lia.
  - vm_compute. lia.
  - split; [exact Hc|]. split; [exact Hp|]. exact Hset.
Defined.


(** ** Arithmetic with zeros *)

Lemma is_zero_spec (v : num) :
  is_zero v = true <-> exists s, Prim2SF v = S754_zero s.
Proof.
  unfold is_zero. rewrite FloatAxioms.eqb_spec.
  change (Prim2SF zero) with (S754_zero false).
  destruct (Prim2SF v) as [s| s | |s m e]; cbn.
  - split; [intros _; exists s; reflexivity | reflexivity].
  - split; [destruct s; discriminate | intros [s' Hs']; discriminate].
  - split; [discriminate | intros [s' Hs']; discriminate].
  - split; [destruct s; discriminate | intros [s' Hs']; discriminate].
Qed.

Lemma is_finite_spec (v : num) :
  is_finite v = true ->
  (exists s, Prim2SF v = S754_zero s) \/ (exists s m e, Prim2SF v = S754_finite s m e).
Proof.
  unfold is_finite, is_nan, is_infinity. rewrite !FloatAxioms.eqb_spec, FloatAxioms.abs_spec.
  change (Prim2SF infinity) with (S754_infinity false).
  destruct (Prim2SF v) as [s| s | |s m e]; cbn.
  - intros _. left. exists s. reflexivity.
  - destruct s; discriminate.
  - discriminate.
  - intros _. right. exists s, m, e. reflexivity.
Qed.

Lemma is_nonzero_spec (v : num) :
  is_nonzero v = true ->
  (exists s, Prim2SF v = S754_infinity s) \/ (exists s m e, Prim2SF v = S754_finite s m e).
Proof.
  unfold is_nonzero, is_zero, is_nan. rewrite !FloatAxioms.eqb_spec.
  change (Prim2SF zero) with (S754_zero false).
  destruct (Prim2SF v) as [s| s | |s m e]; cbn.
  - discriminate.
  - intros _. left. exists s. reflexivity.
  - discriminate.
  - intros _. right. exists s, m, e. reflexivity.
Qed.

Lemma zero_mul_finite (a m : num) :
  is_zero a = true -> is_finite m = true -> is_zero (a * m) = true.
Proof.
  intros Ha Hm. apply is_zero_spec in Ha. destruct Ha as [sa Ha].
  apply is_zero_spec. rewrite FloatAxioms.mul_spec, Ha. unfold SF64mul.
  destruct (is_finite_spec m Hm) as [[s ->]|(s & p & e & ->)]; cbn; eexists; reflexivity.
Qed.

Lemma zero_add_zero (a b : num) :
  is_zero a = true -> is_zero b = true -> is_zero (a + b) = true.
Proof.
  intros Ha Hb. apply is_zero_spec in Ha, Hb.
  destruct Ha as [sa Ha]. destruct Hb as [sb Hb].
  apply is_zero_spec. rewrite FloatAxioms.add_spec, Ha, Hb. unfold SF64add.
  destruct sa, sb; cbn; eexists; reflexivity.
Qed.

Lemma zero_div_nonzero (a d : num) :
  is_zero a = true -> is_nonzero d = true -> is_zero (a / d) = true.
Proof.
  intros Ha Hd. apply is_zero_spec in Ha. destruct Ha as [sa Ha].
  apply is_zero_spec. rewrite FloatAxioms.div_spec, Ha. unfold SF64div.
  destruct (is_nonzero_spec d Hd) as [[s ->]|(s & p & e & ->)]; cbn; eexists; reflexivity.
Qed.

Lemma fround_zero (a : num) : is_zero a = true -> fround a = a.
Proof.
  intros Ha. apply is_zero_spec in Ha. destruct Ha as [sa Ha].
  unfold fround. rewrite Ha. reflexivity.
Qed.

Lemma add_zero_same (v z : num) : is_zero z = true -> same_num (v + z) v.
Proof.
  intros Hz. pose proof Hz as Hz'. apply is_zero_spec in Hz'. destruct Hz' as [sz Hsz].
  destruct (Prim2SF v) as [s| s | |s m e] eqn:Hv.
  - right. split.
    + apply zero_add_zero; [|exact Hz]. apply is_zero_spec. exists s. exact Hv.
    + apply is_zero_spec. exists s. exact Hv.
  - left. apply Prim2SF_inj. rewrite FloatAxioms.add_spec, Hv, Hsz. reflexivity.
  - left. apply Prim2SF_inj. rewrite FloatAxioms.add_spec, Hv, Hsz. reflexivity.
  - left. apply Prim2SF_inj. rewrite FloatAxioms.add_spec, Hv, Hsz. reflexivity.
Qed.

Lemma fround_same (a b : num) :
  same_num a b -> is_float32 b = true -> same_num (fround a) b.
Proof.
  intros [->|[Ha Hb]] Hf.
  - left. apply Leibniz.eqb_spec. exact Hf.
  - right. rewrite fround_zero by exact Ha. split; assumption.
Qed.

(** [v + z] stored in a [Float32Array], for a binary32 [v] and a zero [z]. *)
Lemma store_add_zero (v z : num) :
  is_float32 v = true -> is_zero z = true -> same_num (fround (v + z)) v.
Proof.
  intros Hv Hz. apply fround_same; [|exact Hv]. apply add_zero_same. exact Hz.
Qed.


(** ** A step without contacts *)

(** Reduction of the projections of an updated world. *)
Ltac world_fields :=
  cbn [World.with_v World.with_w World.with_x World.with_q World.with_f
       World.with_tau World.with_mass World.with_collision_matrix
       World.with_solver World.with_clock
       World.paused World.time World.stepnumber World.spook_k World.spook_d
       World.spook_b World.solver World.gravity
       World.x World.y World.z World.vx World.vy World.vz
       World.fx World.fy World.fz World.taux World.tauy World.tauz
       World.wx World.wy World.wz World.qx World.qy World.qz World.qw
       World.type World.body World.fixed World.mass
       World.inertiax World.inertiay World.inertiaz World.invm
       World.collision_matrix World.numObjects
       World.gravity_x World.gravity_y World.gravity_z] in *.

(** The transfer of the contact bits writes the contact matrix only. *)
Lemma transfer_contacts_frame (w : World.t) :
  exists cm, World.transfer_contacts w = World.with_collision_matrix w cm.
Proof.
  unfold World.transfer_contacts.
  apply (fold_left_seq_ind
           (fun _ w' => exists cm, w' = World.with_collision_matrix w cm)).
  - exists (World.collision_matrix w). destruct w. reflexivity.
  - intros i w' _ Hw'.
    apply (fold_left_seq_ind
             (fun _ w'' => exists cm, w'' = World.with_collision_matrix w cm));
      [exact Hw'|].
    intros j w'' _ [cm ->].
    unfold World.transfer, World.cmatrix_set.
    destruct (World.cmatrix_get _ i j 0); eexists; reflexivity.
Qed.

(** The gravity loop adds [gravity * mass] to the force of every body. *)
Lemma add_gravity_spec (w : World.t) :
  sized w = true ->
  exists fx fy fz,
    World.add_gravity w = World.with_f w fx fy fz
    /\ (length fx = World.numObjects w /\ length fy = World.numObjects w
        /\ length fz = World.numObjects w)
    /\ forall i : nat, (i < World.numObjects w)%nat ->
         getF fx i = fround (getF (World.fx w) i + World.gravity_x w * getF (World.mass w) i)
         /\ getF fy i = fround (getF (World.fy w) i + World.gravity_y w * getF (World.mass w) i)
         /\ getF fz i = fround (getF (World.fz w) i + World.gravity_z w * getF (World.mass w) i).
Proof.
  intros Hsized. sized_lengths Hsized.
  set (N := length (World.x w)) in *.
  unfold World.add_gravity, World.numObjects. fold N.
  pose (updated (fx fy fz : list num) (i : nat) :=
    getF fx i = fround (getF (World.fx w) i + World.gravity_x w * getF (World.mass w) i)
    /\ getF fy i = fround (getF (World.fy w) i + World.gravity_y w * getF (World.mass w) i)
    /\ getF fz i = fround (getF (World.fz w) i + World.gravity_z w * getF (World.mass w) i)).
  pose (pending (fx fy fz : list num) (i : nat) :=
    getF fx i = getF (World.fx w) i /\ getF fy i = getF (World.fy w) i
    /\ getF fz i = getF (World.fz w) i).
  pose (P (k : nat) (w' : World.t) :=
    exists fx fy fz,
      w' = World.with_f w fx fy fz
      /\ (length fx = N /\ length fy = N /\ length fz = N)
      /\ forall i : nat, (i < N)%nat ->
           ((i < k)%nat -> updated fx fy fz i) /\ ((k <= i)%nat -> pending fx fy fz i)).
  enough (Hinv : P N
    (fold_left
       (fun w0 i =>
          World.with_f w0
            (setF (World.fx w0) i (getF (World.fx w0) i + World.gravity_x w0 * getF (World.mass w0) i))
            (setF (World.fy w0) i (getF (World.fy w0) i + World.gravity_y w0 * getF (World.mass w0) i))
            (setF (World.fz w0) i (getF (World.fz w0) i + World.gravity_z w0 * getF (World.mass w0) i)))
       (seq 0 N) w)).
  { destruct Hinv as (fx & fy & fz & Heq & Hlen & Hall).
    exists fx, fy, fz. split; [exact Heq|]. split; [exact Hlen|].
    intros i Hi. apply (Hall i Hi). exact Hi. }
  apply (fold_left_seq_ind P).
  - exists (World.fx w), (World.fy w), (World.fz w).
    split; [destruct w; reflexivity|]. split; [repeat split; assumption|].
    intros i Hi. split; [lia|]. intros _. repeat split; reflexivity.
  - intros k w' Hk (fx & fy & fz & -> & (Lx & Ly & Lz) & Hall).
    world_fields.
    eexists _, _, _. split; [reflexivity|].
    split; [rewrite !length_setF; repeat split; assumption|].
    intros i Hi. destruct (Hall i Hi) as [Hdone Htodo].
    unfold updated, pending in *.
    destruct (decide (i = k)) as [->|Hik].
    + split; [|lia]. intros _.
      destruct Htodo as (Hx & Hy & Hz); [lia|].
      rewrite !getF_setF_eq by lia. rewrite Hx, Hy, Hz. repeat split; reflexivity.
    + rewrite !getF_setF_ne by congruence.
      split; intros Hlt; [apply Hdone | apply Htodo]; lia.
Qed.

Ltac kin_lengths H :=
  unfold kin_sized in H;
  repeat match goal with
         | H' : Forall _ (_ :: _) |- _ =>
             let Hhd := fresh "L" in
             apply Forall_cons_1 in H'; destruct H' as [Hhd H']
         | H' : Forall _ [] |- _ => clear H'
         end.

(** Evaluation of the integration round on a world given by its fields. *)
Ltac world_eval :=
  cbv beta iota zeta delta
      [World.leapfrog_body kin loads kin_integrated kin_sized
       World.with_v World.with_w World.with_x World.with_q World.with_f
       World.with_tau World.with_mass World.with_collision_matrix
       World.with_solver World.with_clock
       World.paused World.time World.stepnumber World.spook_k World.spook_d
       World.spook_b World.solver World.gravity
       World.x World.y World.z World.vx World.vy World.vz
       World.fx World.fy World.fz World.taux World.tauy World.tauz
       World.wx World.wy World.wz World.qx World.qy World.qz World.qw
       World.type World.body World.fixed World.mass
       World.inertiax World.inertiay World.inertiaz World.invm
       World.collision_matrix].

(** One round of the integration loop, at a body that is not fixed. *)
Lemma leapfrog_body_moving (dt : num) (w : World.t) (k : nat) :
  kin_sized (length (World.x w)) w ->
  (k < length (World.x w))%nat ->
  World.fixed w !! k = Some 0%Z ->
  let w' := World.leapfrog_body dt w k in
  loads w' = loads w
  /\ kin_sized (length (World.x w)) w'
  /\ kin w' k = kin_integrated dt w k
  /\ forall i : nat, i <> k -> kin w' i = kin w i.
Proof.
  intros Hlen Hk Hfixed w'. subst w'. kin_lengths Hlen.
  destruct w.
  cbn [World.x World.y World.z World.vx World.vy World.vz
       World.wx World.wy World.wz World.fixed] in *.
  world_eval. rewrite Hfixed.
  cbn [default]. rewrite bool_decide_eq_true_2 by reflexivity.
  split; [reflexivity|]. split.
  { repeat constructor; rewrite ?length_setF; assumption. }
  split.
  - rewrite !getF_setF_eq by lia. reflexivity.
  - intros i Hik. rewrite !getF_setF_ne by congruence. reflexivity.
Qed.

(** One round of the integration loop, at a fixed body. *)
Lemma leapfrog_body_fixed (dt : num) (w : World.t) (k : nat) (f : Z) :
  World.fixed w !! k = Some f -> f <> 0%Z ->
  World.leapfrog_body dt w k = w.
Proof.
  intros Hfixed Hf. destruct w. cbn [World.fixed] in *.
  world_eval. rewrite Hfixed.
  cbn [default]. rewrite bool_decide_eq_false_2 by exact Hf. reflexivity.
Qed.

(** The integration loop: a body that is not fixed is integrated from the
    state before the loop, a fixed body is left alone. *)
Lemma leapfrog_spec (dt : num) (w : World.t) :
  sized w = true ->
  let w' := World.leapfrog dt w in
  loads w' = loads w
  /\ forall i : nat, (i < World.numObjects w)%nat ->
       (World.fixed w !! i = Some 0%Z -> kin w' i = kin_integrated dt w i)
       /\ (World.fixed w !! i <> Some 0%Z -> kin w' i = kin w i).
Proof.
  intros Hsized w'. subst w'. sized_lengths Hsized.
  set (N := length (World.x w)) in *.
  assert (Hkin : kin_sized N w) by (repeat constructor; assumption).
  unfold World.leapfrog, World.numObjects. fold N.
  enough (Hinv :
    loads (fold_left (World.leapfrog_body dt) (seq 0 N) w) = loads w
    /\ kin_sized N (fold_left (World.leapfrog_body dt) (seq 0 N) w)
    /\ length (World.x (fold_left (World.leapfrog_body dt) (seq 0 N) w)) = N
    /\ forall i : nat, (i < N)%nat ->
         ((i < N)%nat ->
          (World.fixed w !! i = Some 0%Z ->
           kin (fold_left (World.leapfrog_body dt) (seq 0 N) w) i = kin_integrated dt w i)
          /\ (World.fixed w !! i <> Some 0%Z ->
              kin (fold_left (World.leapfrog_body dt) (seq 0 N) w) i = kin w i))
         /\ ((N <= i)%nat -> kin (fold_left (World.leapfrog_body dt) (seq 0 N) w) i = kin w i)).
  { destruct Hinv as (Hloads & _ & _ & Hall). split; [exact Hloads|].
    intros i Hi. apply (Hall i Hi). exact Hi. }
  apply (fold_left_seq_ind
    (fun k w' =>
       loads w' = loads w
       /\ kin_sized N w'
       /\ length (World.x w') = N
       /\ forall i : nat, (i < N)%nat ->
            ((i < k)%nat ->
             (World.fixed w !! i = Some 0%Z -> kin w' i = kin_integrated dt w i)
             /\ (World.fixed w !! i <> Some 0%Z -> kin w' i = kin w i))
            /\ ((k <= i)%nat -> kin w' i = kin w i))).
  - split; [reflexivity|]. split; [exact Hkin|]. split; [reflexivity|].
    intros i Hi. split; [lia|]. reflexivity.
  - intros k w' Hk (Hloads & Hkin' & HN & Hall).
    assert (Hfix : World.fixed w' = World.fixed w) by (injection Hloads; auto).
    destruct (lookup_lt_is_Some_2 (World.fixed w) k ltac:(lia)) as [f Hf].
    destruct (decide (f = 0%Z)) as [->|Hf0].
    + destruct (leapfrog_body_moving dt w' k) as (Hl & Hs & Hat & Hother);
        rewrite ?HN, ?Hfix; try assumption.
      split; [rewrite Hl; exact Hloads|].
      rewrite HN in Hs. split; [exact Hs|].
      split; [kin_lengths Hs; assumption|].
      intros i Hi. destruct (Hall i Hi) as [Hdone Htodo].
      destruct (decide (i = k)) as [->|Hik].
      * split; [|lia]. intros _. split; [|congruence]. intros _.
        rewrite Hat. unfold kin_integrated.
        assert (Hk0 : kin w' k = kin w k) by (apply Htodo; lia).
        unfold kin in Hk0. unfold loads in Hloads.
        injection Hk0 as Hx Hy Hz Hvx Hvy Hvz Hwx Hwy Hwz.
        injection Hloads as Hfx Hfy Hfz Htx Hty Htz Him HIx HIy HIz _.
        rewrite Hx, Hy, Hz, Hvx, Hvy, Hvz, Hwx, Hwy, Hwz.
        rewrite Hfx, Hfy, Hfz, Htx, Hty, Htz, Him, HIx, HIy, HIz.
        reflexivity.
      * rewrite Hother by exact Hik.
        split; intros Hlt; [apply Hdone | apply Htodo]; lia.
    + rewrite (leapfrog_body_fixed dt w' k f) by (rewrite ?Hfix; assumption).
      split; [exact Hloads|]. split; [exact Hkin'|]. split; [exact HN|].
      intros i Hi. destruct (Hall i Hi) as [Hdone Htodo].
      destruct (decide (i = k)) as [->|Hik].
      * split; [|lia]. intros _. split; [rewrite Hf; congruence|].
        intros _. apply Htodo. lia.
      * split; intros Hlt; [apply Hdone | apply Htodo]; lia.
Qed.

(** The loop that resets the forces writes the force and torque arrays only. *)
Lemma reset_forces_frame (w : World.t) :
  exists fx fy fz taux tauy tauz,
    World.reset_forces w
    = World.with_tau (World.with_f w fx fy fz) taux tauy tauz.
Proof.
  unfold World.reset_forces.
  apply (fold_left_seq_ind
           (fun _ w' =>
              exists fx fy fz taux tauy tauz,
                w' = World.with_tau (World.with_f w fx fy fz) taux tauy tauz)).
  - exists (World.fx w), (World.fy w), (World.fz w),
      (World.taux w), (World.tauy w), (World.tauz w).
    destruct w. reflexivity.
  - intros k w' _ (fx & fy & fz & taux & tauy & tauz & ->).
    eexists _, _, _, _, _, _. reflexivity.
Qed.


(** A world stays [sized] when its forces are replaced by arrays of the
    same length and its solver is replaced. *)
Lemma sized_with_f (w : World.t) (fx fy fz : list num) (s : Solver.t) :
  sized w = true ->
  length fx = World.numObjects w -> length fy = World.numObjects w ->
  length fz = World.numObjects w ->
  sized (World.with_solver (World.with_f w fx fy fz) s) = true.
Proof.
  intros Hsized Lx Ly Lz. sized_lengths Hsized.
  unfold sized. cbn [forallb]. world_fields.
  repeat (apply andb_true_intro; split); try reflexivity; apply Nat.eqb_eq; assumption.
Qed.

(** In a world with bodies whose arrays hold one entry per body, the
    scratch arrays of [step] can be allocated. *)
Lemma scratch_arrays_sized (w : World.t) :
  sized w = true -> (0 < World.numObjects w)%nat -> World.scratch_arrays w = Ok tt.
Proof.
  intros Hsized Hn. sized_lengths Hsized. unfold World.scratch_arrays.
  destruct (World.x w) as [|x0 xs]; [cbn in Hn; lia|].
  destruct (World.y w) as [|y0 ys]; [discriminate|].
  destruct (World.z w) as [|z0 zs]; [discriminate|].
  reflexivity.
Qed.

(** A fixed body crosses a step without contacts without moving: the
    sphere of mass 0 at the origin with velocity (1,0,0) is still at
    [x = 0] after [step(1)], and not at [0 + 1*1]. *)
Lemma fixed_body_is_not_advanced :
  let w := Scene.lone_sphere 0 in
  let w' :=
    completion_map fst (World.step NaiveBroadphase.collisionPairs World.Itself w 1) in
  NaiveBroadphase.collisionPairs w = Ok ([], [])
  /\ World.gravity w = Some (Vec3.mk 0 0 0)
  /\ (World.x w, World.vx w, World.fixed w) = ([0], [1], [1%Z])
  /\ completion_map (fun w' => (World.x w', World.vx w')) w' = Ok ([0], [1])
  /\ 0 <> fround (0 + 1 * 1).
Proof.
  repeat split; try (vm_compute; reflexivity).
  intros H. apply (f_equal (fun v => v =? 0)) in H. vm_compute in H. discriminate.
Qed.

(** C7 (amended).  When the global variable [world] names the world that
    is stepped, in a world that is not paused, that has at least one
    body, whose arrays hold one entry per body, whose gravity has been
    set to a zero vector, on whose bodies no force and no torque is
    accumulated and for which the broadphase returns no pairs,
    [step(dt)] with a finite [dt] returns, and then: a fixed body keeps its position and its linear and angular
    velocity (it is not advanced); a body that is not fixed, with a finite
    mass and inverse mass, an inertia without zero or NaN component and
    binary32 velocities, keeps its linear and angular velocity (up to the
    sign of a zero) and its position becomes [x + v*dt], rounded to
    binary32. *)
Theorem step_without_contacts
    (collisionPairs : World.t -> completion (list nat * list nat))
    (world : World.global) (w : World.t) (dt : num) (g : Vec3.t) :
  world = World.Itself ->
  World.paused w = false ->
  (0 < World.numObjects w)%nat ->
  collisionPairs w = Ok ([], []) ->
  sized w = true ->
  World.gravity w = Some g ->
  zero_vector g = true ->
  (forall i : nat, (i < World.numObjects w)%nat -> unloaded w i = true) ->
  is_finite dt = true ->
  exists w',
    World.step collisionPairs world w dt = Ok (w', world)
    /\ forall i : nat, (i < World.numObjects w)%nat ->
         (World.fixed w !! i <> Some 0%Z -> at_rest w w' i)
         /\ (World.fixed w !! i = Some 0%Z -> regular w i = true ->
             free_flight dt w w' i).
Proof.
  intros -> Hrun Hbodies Hpairs Hsized Hg Hg0 Hload Hdt.
  pose proof (scratch_arrays_sized w Hsized Hbodies) as Hscratch.
  destruct (transfer_contacts_frame w) as [cm Hcm].
  destruct (add_gravity_spec (World.with_collision_matrix w cm) Hsized)
    as (fx & fy & fz & Hgrav & (Lx & Ly & Lz) & Hf).
  pose (w3 := World.with_solver
                (World.with_f (World.with_collision_matrix w cm) fx fy fz)
                (Solver.reset (World.solver w) (World.numObjects w))).
  assert (Hsized3 : sized w3 = true) by (apply sized_with_f; assumption).
  destruct (leapfrog_spec dt w3 Hsized3) as [_ Hleap].
  destruct (reset_forces_frame (World.leapfrog dt w3))
    as (fx5 & fy5 & fz5 & tx5 & ty5 & tz5 & Hreset).
  assert (Hstep :
    World.step collisionPairs World.Itself w dt
    = Ok (World.with_clock (World.reset_forces (World.leapfrog dt w3))
            (World.paused (World.reset_forces (World.leapfrog dt w3)))
            (World.time (World.reset_forces (World.leapfrog dt w3)) + dt)
            (World.stepnumber (World.reset_forces (World.leapfrog dt w3)) + 1)
            (World.gravity (World.reset_forces (World.leapfrog dt w3))),
          World.Itself)).
  { unfold World.step. rewrite Hrun, Hpairs. cbn [bind fst snd].
    rewrite Hscratch. cbv zeta. cbn [bind].
    rewrite Hcm, Hgrav. reflexivity. }
  remember (World.with_clock (World.reset_forces (World.leapfrog dt w3))
              (World.paused (World.reset_forces (World.leapfrog dt w3)))
              (World.time (World.reset_forces (World.leapfrog dt w3)) + dt)
              (World.stepnumber (World.reset_forces (World.leapfrog dt w3)) + 1)
              (World.gravity (World.reset_forces (World.leapfrog dt w3))))
    as w' eqn:Hw'.
  exists w'. split; [exact Hstep|].
  assert (Hkin : forall i : nat, kin w' i = kin (World.leapfrog dt w3) i).
  { intros i. rewrite Hw', Hreset. reflexivity. }
  clear Hw' Hstep Hreset.
  intros i Hi. destruct (Hleap i Hi) as [Hmove Hstill].
  change (World.fixed w3) with (World.fixed w) in Hmove, Hstill.
  change (kin w3 i) with (kin w i) in Hstill.
  split.
  - intros Hfixed. unfold at_rest. rewrite Hkin. apply Hstill. exact Hfixed.
  - intros Hfixed Hreg.
    specialize (Hmove Hfixed). specialize (Hload i Hi). specialize (Hf i Hi).
    rewrite <- Hkin in Hmove. clear Hkin Hstill Hleap.
    unfold kin_integrated in Hmove.
    change (World.vx w3) with (World.vx w) in Hmove.
    change (World.vy w3) with (World.vy w) in Hmove.
    change (World.vz w3) with (World.vz w) in Hmove.
    change (World.wx w3) with (World.wx w) in Hmove.
    change (World.wy w3) with (World.wy w) in Hmove.
    change (World.wz w3) with (World.wz w) in Hmove.
    change (World.x w3) with (World.x w) in Hmove.
    change (World.y w3) with (World.y w) in Hmove.
    change (World.z w3) with (World.z w) in Hmove.
    change (World.fx w3) with fx in Hmove.
    change (World.fy w3) with fy in Hmove.
    change (World.fz w3) with fz in Hmove.
    change (World.taux w3) with (World.taux w) in Hmove.
    change (World.tauy w3) with (World.tauy w) in Hmove.
    change (World.tauz w3) with (World.tauz w) in Hmove.
    change (World.invm w3) with (World.invm w) in Hmove.
    change (World.inertiax w3) with (World.inertiax w) in Hmove.
    change (World.inertiay w3) with (World.inertiay w) in Hmove.
    change (World.inertiaz w3) with (World.inertiaz w) in Hmove.
    cbv zeta in Hmove. unfold kin in Hmove.
    injection Hmove as Hx Hy Hz Hvx Hvy Hvz Hwx Hwy Hwz.
    unfold World.gravity_x, World.gravity_y, World.gravity_z in Hf.
    change (World.gravity (World.with_collision_matrix w cm))
      with (World.gravity w) in Hf.
    change (World.fx (World.with_collision_matrix w cm)) with (World.fx w) in Hf.
    change (World.fy (World.with_collision_matrix w cm)) with (World.fy w) in Hf.
    change (World.fz (World.with_collision_matrix w cm)) with (World.fz w) in Hf.
    change (World.mass (World.with_collision_matrix w cm)) with (World.mass w) in Hf.
    rewrite Hg in Hf. destruct Hf as (Hfx & Hfy & Hfz).
    unfold zero_vector in Hg0. unfold unloaded in Hload. unfold regular in Hreg.
    repeat match goal with
           | H : _ && _ = true |- _ => apply andb_prop in H; destruct H
           end.
    assert (Zfx : is_zero (getF fx i) = true).
    { rewrite Hfx. rewrite fround_zero; apply zero_add_zero; try assumption;
        apply zero_mul_finite; assumption. }
    assert (Zfy : is_zero (getF fy i) = true).
    { rewrite Hfy. rewrite fround_zero; apply zero_add_zero; try assumption;
        apply zero_mul_finite; assumption. }
    assert (Zfz : is_zero (getF fz i) = true).
    { rewrite Hfz. rewrite fround_zero; apply zero_add_zero; try assumption;
        apply zero_mul_finite; assumption. }
    unfold free_flight.
    rewrite Hx, Hy, Hz. rewrite Hwx, Hwy, Hwz. rewrite Hvx, Hvy, Hvz.
    split; [apply store_add_zero; [assumption|];
            repeat (apply zero_mul_finite; [|assumption]); assumption|].
    split; [apply store_add_zero; [assumption|];
            repeat (apply zero_mul_finite; [|assumption]); assumption|].
    split; [apply store_add_zero; [assumption|];
            repeat (apply zero_mul_finite; [|assumption]); assumption|].
    split; [apply store_add_zero; [assumption|];
            apply zero_mul_finite; [|assumption];
            apply zero_div_nonzero; [|assumption];
            apply zero_mul_finite; [assumption|reflexivity]|].
    split; [apply store_add_zero; [assumption|];
            apply zero_mul_finite; [|assumption];
            apply zero_div_nonzero; [|assumption];
            apply zero_mul_finite; [assumption|reflexivity]|].
    split; [apply store_add_zero; [assumption|];
            apply zero_mul_finite; [|assumption];
            apply zero_div_nonzero; [|assumption];
            apply zero_mul_finite; [assumption|reflexivity]|].
    repeat split; reflexivity.
Qed.


(** The amended C7 on the sphere of mass 1 launched at (1,0,0), over
    [dt = 0.5]. *)
Lemma step_without_contacts_lone_sphere :
  exists w',
    World.step NaiveBroadphase.collisionPairs World.Itself (Scene.lone_sphere 1) 0.5
      = Ok (w', World.Itself)
    /\ free_flight 0.5 (Scene.lone_sphere 1) w' 0.
Proof.
  destruct (step_without_contacts NaiveBroadphase.collisionPairs World.Itself
              (Scene.lone_sphere 1) 0.5 (Vec3.mk 0 0 0))
    as (w' & Hstep & Hall).
  - reflexivity.
  - reflexivity.
  - vm_compute. lia.
  - vm_compute. reflexivity.
  - vm_compute. reflexivity.
  - reflexivity.
  - reflexivity.
  - intros i Hi. assert (i = 0%nat) as -> by (vm_compute in Hi; lia).
    vm_compute. reflexivity.
  - reflexivity.
  - exists w'. split; [exact Hstep|]. apply (Hall 0%nat).
    + vm_compute. lia.
    + vm_compute. reflexivity.
    + vm_compute. reflexivity.
Defined.


(** * Further properties of the code *)

(** * Further properties of the code *)

(** ** Rows of the solver *)

(** [addConstraint] adds one row: the count goes up by one, the five
    data arrays and the four bound arrays grow by 12, the body lists by
    one, and the returned index is the old count. *)
Lemma addConstraint_grows (s : Solver.t) (G M q qdot F : list num)
    (lo up : Solver.bound) (bi bj : Z) :
  let s' := fst (Solver.addConstraint s G M q qdot F lo up bi bj) in
  snd (Solver.addConstraint s G M q qdot F lo up bi bj) = Solver.n s
  /\ Solver.n s' = S (Solver.n s)
  /\ length (Solver.G s') = (length (Solver.G s) + 12)%nat
  /\ Solver.lower s' = Solver.lower s ++ replicate 12 lo
  /\ Solver.upper s' = Solver.upper s ++ replicate 12 up
  /\ Solver.haslower s'
     = Solver.haslower s ++ replicate 12 (negb (isNaN (Solver.toNumber lo)))
  /\ Solver.hasupper s'
     = Solver.hasupper s ++ replicate 12 (negb (isNaN (Solver.toNumber up)))
  /\ Solver.i s' = Solver.i s ++ [bi]
  /\ Solver.j s' = Solver.j s ++ [bj]
  /\ Solver.lambdas s' = Solver.lambdas s.
Proof.
  destruct s. cbv zeta.
  cbv beta iota delta [Solver.addConstraint fold_left seq fst snd
    Solver.n Solver.G Solver.lower Solver.upper Solver.haslower Solver.hasupper
    Solver.i Solver.j Solver.lambdas Solver.iter Solver.h Solver.a Solver.b
    Solver.eps Solver.k Solver.d Solver.MinvTrace Solver.Fext Solver.q
    Solver.qdot Solver.result].
  cbn [replicate].
  repeat split; rewrite <- ?app_assoc; try reflexivity.
  - lia.
  - rewrite !length_app. cbn [length]. lia.
Qed.


Lemma add_all_bounds (cs : list constraint) (s : Solver.t) :
  Solver.n (add_all s cs) = (Solver.n s + length cs)%nat
  /\ Solver.lower (add_all s cs)
     = Solver.lower s ++ flat_map (fun c => replicate 12 (c_lower c)) cs
  /\ Solver.upper (add_all s cs)
     = Solver.upper s ++ flat_map (fun c => replicate 12 (c_upper c)) cs.
Proof.
  revert s. induction cs as [|c cs IH]; intros s.
  - cbn. rewrite !app_nil_r. repeat split; lia.
  - unfold add_all. cbn [fold_left flat_map length]. fold (add_all
      (fst (Solver.addConstraint s (c_G c) (c_MinvTrace c) (c_q c) (c_qdot c)
              (c_Fext c) (c_lower c) (c_upper c) (c_i c) (c_j c))) cs).
    destruct (IH (fst (Solver.addConstraint s (c_G c) (c_MinvTrace c) (c_q c)
                         (c_qdot c) (c_Fext c) (c_lower c) (c_upper c) (c_i c) (c_j c))))
      as (Hn & Hlo & Hup).
    destruct (addConstraint_grows s (c_G c) (c_MinvTrace c) (c_q c) (c_qdot c)
                (c_Fext c) (c_lower c) (c_upper c) (c_i c) (c_j c))
      as (_ & Hn1 & _ & Hlo1 & Hup1 & _).
    rewrite Hn, Hlo, Hup, Hn1, Hlo1, Hup1. rewrite <- !app_assoc.
    repeat split; lia.
Qed.

(** In a list made of 12 copies per element, position [l] holds the copy
    of element [l / 12]. *)
Lemma lookup_twelvefold {A B : Type} (f : A -> B) (cs : list A) (l : nat) :
  flat_map (fun c => replicate 12 (f c)) cs !! l = f <$> cs !! (l / 12)%nat.
Proof.
  revert l. induction cs as [|c cs IH]; intros l.
  - reflexivity.
  - cbn [flat_map]. destruct (decide (l < 12)%nat) as [Hl|Hl].
    + rewrite lookup_app_l by (rewrite length_replicate; exact Hl).
      rewrite Nat.div_small by exact Hl. cbn [lookup list_lookup fmap option_fmap option_map].
      apply lookup_replicate_2. exact Hl.
    + rewrite lookup_app_r by (rewrite length_replicate; lia).
      rewrite length_replicate. rewrite IH.
      replace l with (1 * 12 + (l - 12))%nat at 2 by lia.
      rewrite Nat.div_add_l by lia. reflexivity.
Qed.

(** X1.  After [reset] and any sequence of [addConstraint] calls, the
    solver has one row per call, but the bounds are stored 12 times per
    call: what [solve] reads as the bounds of row [l], [lower[l]] and
    [upper[l]], are the bounds passed with call [l / 12].  Rows 1 to 11
    are clamped with the bounds of row 0. *)
Theorem row_bounds_come_from_row_l_div_12 (s : Solver.t) (numbodies : nat)
    (cs : list constraint) (l : nat) :
  let s' := add_all (Solver.reset s numbodies) cs in
  Solver.n s' = length cs
  /\ Solver.lower s' !! l = c_lower <$> cs !! (l / 12)%nat
  /\ Solver.upper s' !! l = c_upper <$> cs !! (l / 12)%nat.
Proof.
  cbv zeta.
  destruct (add_all_bounds cs (Solver.reset s numbodies)) as (Hn & Hlo & Hup).
  rewrite Hn, Hlo, Hup. cbn [Solver.reset Solver.n Solver.lower Solver.upper app].
  rewrite !lookup_twelvefold. repeat split.
Qed.


(** ** What the solver writes *)

Lemma getFz_setFz_ne (a : list num) (b k : Z) (v : num) :
  b <> k -> getFz (setFz a b v) k = getFz a k.
Proof.
  intros Hbk. unfold getFz, setFz.
  destruct (b <? 0)%Z eqn:Hb; [reflexivity|].
  destruct (k <? 0)%Z eqn:Hk; [reflexivity|].
  apply Z.ltb_ge in Hb, Hk. apply getF_setF_ne. lia.
Qed.

Lemma length_setFz (a : list num) (b : Z) (v : num) :
  length (setFz a b v) = length a.
Proof. unfold setFz. destruct (b <? 0)%Z; [reflexivity | apply length_setF]. Qed.

Lemma add_velocity_frame (this : Solver.t) (G : list num) (l12 : nat) (dl : num)
    (bi bj k : Z) (s : Solver.scratch) :
  bi <> k -> bj <> k ->
  scratch_at (Solver.add_velocity this G l12 dl bi bj s) k = scratch_at s k.
Proof.
  intros Hi Hj. unfold scratch_at, Solver.add_velocity, Solver.add_lambda.
  cbn [Solver.vxlambda Solver.vylambda Solver.vzlambda
       Solver.wxlambda Solver.wylambda Solver.wzlambda].
  rewrite !getFz_setFz_ne by assumption. reflexivity.
Qed.

Lemma add_velocity_lengths (this : Solver.t) (G : list num) (l12 : nat) (dl : num)
    (bi bj : Z) (s : Solver.scratch) :
  scratch_lengths (Solver.add_velocity this G l12 dl bi bj s) = scratch_lengths s.
Proof.
  unfold scratch_lengths, Solver.add_velocity, Solver.add_lambda.
  cbn [Solver.vxlambda Solver.vylambda Solver.vzlambda
       Solver.wxlambda Solver.wylambda Solver.wzlambda].
  rewrite !length_setFz. reflexivity.
Qed.

(** The scratch arrays after one row. *)
Lemma row_vl (this : Solver.t) (G : list num) (i16 : list Z) (st : Solver.sweep)
    (l : nat) :
  exists dl,
    Solver.vl (Solver.row this G i16 st l)
    = Solver.add_velocity this G (12 * l) dl
        (default (-1)%Z (i16 !! l)) (default (-1)%Z (Solver.j this !! l))
        (Solver.vl st).
Proof.
  unfold Solver.row.
  assert (Hpre : Solver.vl (Solver.precompute this G l st) = Solver.vl st).
  { unfold Solver.precompute.
    destruct (fold_left _ (seq 0 12) (0, 0, 0, 0)) as [[[a b] c] d]. reflexivity. }
  destruct (default 0 (Solver.precomp st !! l) =? 0)%Z.
  - destruct (Solver.clamp_lower _ _ _ _) as [la dla].
    destruct (Solver.clamp_upper _ _ _ _) as [la' dla'].
    cbn [Solver.vl]. rewrite Hpre. eexists. reflexivity.
  - destruct (Solver.clamp_lower _ _ _ _) as [la dla].
    destruct (Solver.clamp_upper _ _ _ _) as [la' dla'].
    cbn [Solver.vl]. eexists. reflexivity.
Qed.

(** X2.  [solve] changes the scratch entries of a body only if some row
    names the body: for a body index [k] that is neither the (16-bit)
    [i] nor the [j] of any row, the six entries are after [solve] what
    they were before, and the scratch arrays keep their lengths. *)
Theorem solve_writes_named_bodies_only (s s' : Solver.t) (sc : Solver.scratch)
    (k : Z) :
  Solver.lambdas s = Some sc ->
  (forall l : nat, (l < Solver.n s)%nat ->
     default (-1)%Z (map toInt16 (Solver.i s) !! l) <> k
     /\ default (-1)%Z (Solver.j s !! l) <> k) ->
  Solver.solve s = Ok s' ->
  exists sc',
    Solver.lambdas s' = Some sc'
    /\ scratch_at sc' k = scratch_at sc k
    /\ scratch_lengths sc' = scratch_lengths sc.
Proof.
  intros Hsc Hrows Hsolve.
  unfold Solver.solve, Solver.solve_sweep in Hsolve. rewrite Hsc in Hsolve.
  cbn [bind fst] in Hsolve. injection Hsolve as <-.
  cbn [Solver.lambdas]. eexists. split; [reflexivity|].
  unfold Solver.sweeps.
  apply (fold_left_seq_ind
    (fun _ st => scratch_at (Solver.vl st) k = scratch_at sc k
                 /\ scratch_lengths (Solver.vl st) = scratch_lengths sc)).
  - split; reflexivity.
  - intros sweep st _ Hst.
    apply (fold_left_seq_ind
      (fun _ st => scratch_at (Solver.vl st) k = scratch_at sc k
                   /\ scratch_lengths (Solver.vl st) = scratch_lengths sc));
      [exact Hst|].
    intros l st' Hl [Hat Hlen].
    destruct (row_vl s (Float32Array_from (Solver.G s)) (map toInt16 (Solver.i s)) st' l)
      as [dl ->].
    destruct (Hrows l Hl) as [Hi Hj].
    rewrite add_velocity_frame by assumption.
    rewrite add_velocity_lengths. split; assumption.
Qed.

(** X2 on a solver for three bodies with one row between the bodies 0
    and 1: the entries of body 2 are kept, those of body 0 are not. *)
Lemma solve_writes_named_bodies_only_one_row :
  exists sc sc',
    Solver.lambdas Trial.one_row = Some sc
    /\ Solver.lambdas Trial.one_row_solved = Some sc'
    /\ scratch_at sc' 2 = scratch_at sc 2
    /\ scratch_at sc' 0 <> scratch_at sc 0.
Proof.
  exists (default Trial.no_scratch (Solver.lambdas Trial.one_row)).
  destruct (solve_writes_named_bodies_only Trial.one_row Trial.one_row_solved
              (default Trial.no_scratch (Solver.lambdas Trial.one_row)) 2)
    as (sc' & Hsc' & Hat & _).
  - vm_compute. reflexivity.
  - intros l Hl. assert (l = 0%nat) as -> by (vm_compute in Hl; lia).
    vm_compute. split; discriminate.
  - vm_compute. reflexivity.
  - exists sc'. split; [vm_compute; reflexivity|]. split; [exact Hsc'|].
    split; [exact Hat|].
    assert (Hv : Solver.lambdas Trial.one_row_solved = Some sc') by exact Hsc'.
    vm_compute in Hv. injection Hv as <-.
    intros H. apply (f_equal (fun l => default 0 (l !! 0%nat) =? 0)) in H.
    vm_compute in H. discriminate.
Defined.


(** ** The naive broadphase *)

(** What one test does to the two lists: nothing, or it throws, or it
    pushes [i] and [j], and then only for a tested pair of types. *)
Lemma test_pair_cases (world : World.t) (i j : nat) (pairs : list nat * list nat) :
  NaiveBroadphase.test_pair world i j pairs = Ok pairs
  \/ (exists msg, NaiveBroadphase.test_pair world i j pairs = Throw msg)
  \/ (NaiveBroadphase.test_pair world i j pairs
      = Ok (fst pairs ++ [i], snd pairs ++ [j])
      /\ collidable (World.type world !! i) (World.type world !! j) = true).
Proof.
  destruct pairs as [p1 p2]. unfold NaiveBroadphase.test_pair, collidable, getI.
  cbn [fst snd].
  set (si := bool_decide (World.type world !! i = Some Shape.SPHERE)).
  set (sj := bool_decide (World.type world !! j = Some Shape.SPHERE)).
  set (pi := bool_decide (World.type world !! i = Some Shape.PLANE)).
  set (pj := bool_decide (World.type world !! j = Some Shape.PLANE)).
  set (bi := bool_decide (World.type world !! i = Some Shape.BOX)).
  set (bj := bool_decide (World.type world !! j = Some Shape.BOX)).
  destruct (si && sj) eqn:Hss.
  { destruct (World.body_at world i); [|right; left; eexists; reflexivity].
    destruct (World.body_at world j); [|right; left; eexists; reflexivity].
    cbn [bind].
    match goal with |- context [if ?c then _ else _] => destruct c end;
      [right; right; split; reflexivity | left; reflexivity]. }
  destruct ((si && pj) || (pi && sj)) eqn:Hsp.
  { assert (Hc : (false || si && pj || pi && sj || bi && pj || pi && bj) = true).
    { apply orb_true_iff in Hsp. destruct Hsp as [-> | ->]; cbn;
        rewrite ?orb_true_r; reflexivity. }
    match goal with
    | |- context [World.body_at world ?p] =>
        destruct (World.body_at world p); [|right; left; eexists; reflexivity]
    end.
    cbn [bind].
    match goal with
    | |- context [World.defined ?o] =>
        destruct (World.defined o); [|right; left; eexists; reflexivity]
    end.
    cbn [bind].
    match goal with
    | |- context [World.body_at world ?p] =>
        destruct (World.body_at world p); [|right; left; eexists; reflexivity]
    end.
    cbn [bind].
    match goal with |- context [if ?c <? 0 then _ else _] => destruct (c <? 0) end;
      [right; right; split; [reflexivity | exact Hc] | left; reflexivity]. }
  destruct ((bi && pj) || (pi && bj)) eqn:Hbp.
  { assert (Hc : (false || si && pj || pi && sj || bi && pj || pi && bj) = true).
    { apply orb_true_iff in Hbp. destruct Hbp as [-> | ->]; cbn;
        rewrite ?orb_true_r; reflexivity. }
    match goal with
    | |- context [World.body_at world ?p] =>
        destruct (World.body_at world p); [|right; left; eexists; reflexivity]
    end.
    cbn [bind].
    match goal with
    | |- context [World.defined ?o] =>
        destruct (World.defined o); [|right; left; eexists; reflexivity]
    end.
    cbn [bind].
    match goal with
    | |- context [World.body_at world ?p] =>
        destruct (World.body_at world p); [|right; left; eexists; reflexivity]
    end.
    cbn [bind].
    match goal with
    | |- context [World.defined ?o] =>
        destruct (World.defined o); [|right; left; eexists; reflexivity]
    end.
    cbn [bind].
    match goal with |- context [if ?c <? 0 then _ else _] => destruct (c <? 0) end;
      [right; right; split; [reflexivity | exact Hc] | left; reflexivity]. }
  left. reflexivity.
Qed.


Lemma StronglySorted_snoc {A : Type} (R : A -> A -> Prop) (l : list A) (x : A) :
  StronglySorted R l -> Forall (fun y => R y x) l -> StronglySorted R (l ++ [x]).
Proof.
  induction 1 as [|y l Hl IH Hy]; intros Hx; cbn [app].
  - repeat constructor.
  - apply Forall_cons_1 in Hx. destruct Hx as [Hyx Hx].
    constructor; [apply IH; exact Hx|].
    apply Forall_app. split; [exact Hy | repeat constructor; exact Hyx].
Qed.

Lemma pairs_inv_test (world : World.t) (i j : nat)
    (acc : completion (list nat * list nat)) :
  (j < i)%nat -> (i < World.numObjects world)%nat ->
  pairs_inv world i j acc ->
  pairs_inv world i (S j) (try pairs := acc in NaiveBroadphase.test_pair world i j pairs).
Proof.
  intros Hji Hi Hinv. destruct acc as [[p1 p2]|msg]; [|exact I].
  cbn [bind]. destruct Hinv as (Hlen & Hall & Hsorted).
  assert (Hall' : Forall (fun p => reportable world p /\ visited_before p (i, S j))
                         (zip p1 p2)).
  { eapply Forall_impl; [exact Hall|]. intros [a b] [Hr Hv]. split; [exact Hr|].
    unfold visited_before in *. cbn [fst snd] in *. lia. }
  destruct (test_pair_cases world i j (p1, p2)) as [->|[[msg ->]|[-> Hc]]].
  - repeat split; assumption.
  - exact I.
  - cbn [fst snd pairs_inv]. split; [rewrite !length_app; cbn [length]; lia|].
    rewrite zip_with_app by exact Hlen. cbn [zip_with]. split.
    + apply Forall_app. split; [exact Hall'|].
      apply Forall_cons_2; [|apply Forall_nil_2]. split.
      * unfold reportable. cbn [fst snd]. repeat split; assumption.
      * unfold visited_before. cbn [fst snd]. lia.
    + apply StronglySorted_snoc; [exact Hsorted|].
      eapply Forall_impl; [exact Hall|]. intros p [_ Hv]. exact Hv.
Qed.

(** X3.  When the naive broadphase returns, its two lists have the same
    length and list pairs [(i,j)] with [j < i < N] whose shape types are
    sphere/sphere, sphere/plane or box/plane (in either order), in the
    order of the double loop: strictly increasing in [i], then in [j].
    No pair is listed twice and no box/box, box/sphere or plane/plane pair
    is ever listed. *)
Theorem naive_pairs_are_ordered_and_collidable (world : World.t)
    (p1 p2 : list nat) :
  NaiveBroadphase.collisionPairs world = Ok (p1, p2) ->
  length p1 = length p2
  /\ Forall (reportable world) (zip p1 p2)
  /\ StronglySorted visited_before (zip p1 p2).
Proof.
  intros Hpairs.
  assert (Hinv : pairs_inv world (World.numObjects world) 0
                   (NaiveBroadphase.collisionPairs world)).
  { unfold NaiveBroadphase.collisionPairs.
    apply (fold_left_seq_ind (fun I acc => pairs_inv world I 0 acc)).
    - cbn. repeat split; constructor.
    - intros i acc Hi Hacc.
      assert (Hrow : pairs_inv world i i
                (fold_left
                   (fun acc j => try pairs := acc in
                                 NaiveBroadphase.test_pair world i j pairs)
                   (seq 0 i) acc)).
      { apply (fold_left_seq_ind (fun J acc => pairs_inv world i J acc));
          [exact Hacc|].
        intros j acc' Hj Hacc'. apply pairs_inv_test; assumption. }
      destruct (fold_left _ (seq 0 i) acc) as [[q1 q2]|msg]; [|exact I].
      destruct Hrow as (Hlen & Hall & Hsorted).
      repeat split; try assumption.
      eapply Forall_impl; [exact Hall|]. intros [a b] [Hr Hv]. split; [exact Hr|].
      destruct Hr as (Hba & _). unfold visited_before in *. cbn [fst snd] in *. lia. }
  rewrite Hpairs in Hinv. destruct Hinv as (Hlen & Hall & Hsorted).
  repeat split; try assumption.
  eapply Forall_impl; [exact Hall|]. intros p [Hr _]. exact Hr.
Qed.

(** X3 on the two overlapping spheres, whose only pair is (1,0). *)
Lemma naive_pairs_are_ordered_and_collidable_two_spheres :
  length [1%nat] = length [0%nat]
  /\ Forall (reportable Scene.two_spheres) (zip [1%nat] [0%nat])
  /\ StronglySorted visited_before (zip [1%nat] [0%nat]).
Proof.
  apply (naive_pairs_are_ordered_and_collidable Scene.two_spheres [1%nat] [0%nat]).
  vm_compute. reflexivity.
Defined.


(** ** Rows of a box against a plane *)

Lemma addConstraint_n (s : Solver.t) (G M q qdot F : list num)
    (lo up : Solver.bound) (bi bj : Z) :
  Solver.n (fst (Solver.addConstraint s G M q qdot F lo up bi bj)) = S (Solver.n s).
Proof. apply addConstraint_grows. Qed.

(** One corner adds no row, or one row and one contact. *)
Lemma box_plane_corner_count (this : World.t) (bi pi : nat)
    (n xi worldInertia : Vec3.t) (quat : Quaternion.t) (ri : Vec3.t)
    (s : Solver.t) (k : nat) :
  let r := World.box_plane_corner this bi pi n xi worldInertia quat ri (s, k) in
  (r = (s, k))
  \/ (snd r = S k /\ Solver.n (fst r) = S (Solver.n s)).
Proof.
  cbv zeta. unfold World.box_plane_corner.
  match goal with |- context [if ?c <? 0 then _ else _] => destruct (c <? 0) end.
  - right.
    match goal with
    | |- context [Solver.addConstraint ?s ?G ?M ?q ?qd ?F ?lo ?up ?i ?j] =>
        pose proof (addConstraint_n s G M q qd F lo up i j) as Hn;
        destruct (Solver.addConstraint s G M q qd F lo up i j) as [s' idx]
    end.
    cbn [fst snd] in *. split; [lia | exact Hn].
  - left. reflexivity.
Qed.

(** The loop over the corners: the contacts counted and the rows added
    agree, and the count passes 4 by at most one. *)
Lemma box_plane_corners_count (this : World.t) (bi pi : nat)
    (n xi worldInertia : Vec3.t) (quat : Quaternion.t) (rest : list Vec3.t)
    (s : Solver.t) (k : nat) :
  let r := World.box_plane_corners this bi pi n xi worldInertia quat rest (s, k) in
  (k <= 5)%nat ->
  (snd r <= 5)%nat
  /\ (k <= snd r)%nat
  /\ (snd r - k <= length rest)%nat
  /\ (Solver.n (fst r) + k = Solver.n s + snd r)%nat.
Proof.
  cbv zeta. revert s k. induction rest as [|ri rest IH]; intros s k Hk.
  - cbn [World.box_plane_corners fst snd length]. lia.
  - cbn [World.box_plane_corners snd length].
    destruct (k <=? 4)%nat eqn:Hk4; [|cbn [fst snd]; lia].
    apply Nat.leb_le in Hk4.
    destruct (box_plane_corner_count this bi pi n xi worldInertia quat ri s k)
      as [->|[Hk' Hn']].
    + destruct (IH s k Hk) as (H1 & H2 & H3 & H4). lia.
    + destruct (World.box_plane_corner this bi pi n xi worldInertia quat ri (s, k))
        as [s' k'].
      cbn [fst snd] in Hk', Hn'. subst k'.
      destruct (IH s' (S k) ltac:(lia)) as (H1 & H2 & H3 & H4). lia.
Qed.

(** X4.  When the box-plane branch returns, it has added to the solver
    as many rows as it counted contacts, at least none and at most five
    (never more, never all eight corners), and it has changed nothing
    else in the world. *)
Theorem box_plane_adds_at_most_five_rows (this w' : World.t) (bi pi k : nat) :
  World.box_plane_contacts this bi pi = Ok (w', k) ->
  (k <= 5)%nat
  /\ Solver.n (World.solver w') = (Solver.n (World.solver this) + k)%nat
  /\ exists s, w' = World.with_solver this s.
Proof.
  unfold World.box_plane_contacts. intros H.
  destruct (World.body_at this pi) as [bp|]; [|discriminate]. cbn [bind] in H.
  destruct (World.defined (Shape.normal (RigidBody._shape bp))) as [normal|];
    [|discriminate].
  cbn [bind] in H.
  destruct (World.body_at this bi) as [bb|]; [|discriminate]. cbn [bind] in H.
  destruct (World.defined (Shape.halfExtents (RigidBody._shape bb))) as [ex|];
    [|discriminate].
  cbn [bind] in H.
  match type of H with
  | context [World.box_plane_corners ?t ?b ?p ?n ?xi ?wi ?q ?cs (?s, 0%nat)] =>
      pose proof (box_plane_corners_count t b p n xi wi q cs s 0 ltac:(lia)) as Hc;
      destruct (World.box_plane_corners t b p n xi wi q cs (s, 0%nat)) as [s' k']
  end.
  cbn [fst snd] in Hc. injection H as <- <-.
  cbn [World.with_solver World.solver].
  split; [lia|]. split; [lia|]. exists s'. reflexivity.
Qed.

(** X4 on the box sunk below the plane. *)
Lemma box_plane_adds_at_most_five_rows_sunk_box :
  (snd Trial.sunk_box_contacts <= 5)%nat
  /\ Solver.n (World.solver (fst Trial.sunk_box_contacts))
     = (Solver.n (World.solver Scene.sunk_box) + snd Trial.sunk_box_contacts)%nat.
Proof.
  destruct (box_plane_adds_at_most_five_rows Scene.sunk_box
              (fst Trial.sunk_box_contacts) 1 0 (snd Trial.sunk_box_contacts))
    as (Hk & Hn & _).
  - vm_compute. reflexivity.
  - split; [exact Hk | exact Hn].
Defined.


(** ** Adding a body *)

Lemma grow_F_spec (n : nat) (old : list num) (v : num) :
  length (World.grow_F n old v) = S n
  /\ getF (World.grow_F n old v) n = fround v
  /\ forall i : nat, (i < n)%nat -> getF (World.grow_F n old v) i = fround (getF old i).
Proof.
  unfold World.grow_F.
  assert (Hloop :
    length (fold_left (fun arr i => setF arr i (getF old i)) (seq 0 n)
                      (Float32Array (n + 1))) = S n
    /\ forall i : nat, (i < n)%nat ->
         getF (fold_left (fun arr i => setF arr i (getF old i)) (seq 0 n)
                         (Float32Array (n + 1))) i = fround (getF old i)).
  { apply (fold_left_seq_ind
      (fun k arr => length arr = S n
                    /\ forall i : nat, (i < k)%nat -> getF arr i = fround (getF old i))).
    - split; [unfold Float32Array; rewrite length_replicate; lia | intros i Hi; lia].
    - intros k arr Hk [Hlen Hdone]. split; [rewrite length_setF; exact Hlen|].
      intros i Hi. destruct (decide (i = k)) as [->|Hik].
      + apply getF_setF_eq. lia.
      + rewrite getF_setF_ne by congruence. apply Hdone. lia. }
  destruct Hloop as [Hlen Hold].
  split; [rewrite length_setF; exact Hlen|].
  split; [apply getF_setF_eq; lia|].
  intros i Hi. rewrite getF_setF_ne by lia. apply Hold. exact Hi.
Qed.

Lemma grow_I_spec (n : nat) (old : list Z) (v : Z) :
  length (World.grow_I n old v) = S n
  /\ World.grow_I n old v !! n = Some (toInt16 v).
Proof.
  unfold World.grow_I.
  assert (Hlen :
    length (fold_left (fun arr i => setI arr i (default 0%Z (old !! i))) (seq 0 n)
                      (Int16Array (n + 1))) = S n).
  { apply (fold_left_seq_ind (fun _ arr => length arr = S n)).
    - unfold Int16Array. rewrite length_replicate. lia.
    - intros k arr _ Hl. rewrite length_setI. exact Hl. }
  split; [rewrite length_setI; exact Hlen|].
  unfold setI at 1. rewrite list_lookup_insert_eq by (rewrite Hlen; lia). reflexivity.
Qed.

(** Reduction of the projections of the world that [add] builds. *)
Ltac add_fields :=
  cbn [World.add fst snd RigidBody._id
       World.x World.y World.z World.vx World.vy World.vz
       World.fx World.fy World.fz World.taux World.tauy World.tauz
       World.wx World.wy World.wz World.qx World.qy World.qz World.qw
       World.type World.body World.fixed World.mass
       World.inertiax World.inertiay World.inertiaz World.invm
       World.collision_matrix World.numObjects].

(** X5.  Whatever the world was, after [add] every per-body array has
    one entry per body, there is one body more, the body carries the old
    count as its index, and the contact matrix is a fresh [(n+1)*(n+1)]
    matrix of zeros: adding a body forgets every contact of the previous
    step. *)
Theorem add_makes_world_sized (w : World.t) (b : RigidBody.t) :
  let n := World.numObjects w in
  let w' := fst (World.add w b) in
  sized w' = true
  /\ World.numObjects w' = S n
  /\ length (World.type w') = S n
  /\ RigidBody._id (snd (World.add w b)) = Z.of_nat n
  /\ World.collision_matrix w' = replicate (S n * S n) 0%Z.
Proof.
  cbv zeta. split.
  - unfold sized, World.numObjects. add_fields. cbn [forallb].
    repeat match goal with
           | |- context [length (World.grow_F ?n ?old ?v)] =>
               rewrite (proj1 (grow_F_spec n old v))
           | |- context [length (World.grow_I ?n ?old ?v)] =>
               rewrite (proj1 (grow_I_spec n old v))
           end.
    rewrite Nat.eqb_refl. reflexivity.
  - unfold World.numObjects. add_fields.
    rewrite (proj1 (grow_F_spec _ _ _)), (proj1 (grow_I_spec _ _ _)).
    unfold Int16Array, World.numObjects.
    replace (length (World.x w) + 1)%nat with (S (length (World.x w))) by lia.
    repeat split; reflexivity.
Qed.


(** X6.  [add] copies the position, velocity and angular velocity of the
    bodies already in the world entry by entry (each a binary32 store of
    the old entry) and stores those of the new body, rounded to binary32,
    at the new index. *)
Theorem add_copies_old_and_stores_new (w : World.t) (b : RigidBody.t) :
  let n := World.numObjects w in
  let w' := fst (World.add w b) in
  (forall i : nat, (i < n)%nat -> kin w' i = map fround (kin w i))
  /\ kin w' n
     = map fround
         [ Vec3.x (RigidBody._position b); Vec3.y (RigidBody._position b);
           Vec3.z (RigidBody._position b);
           Vec3.x (RigidBody._velocity b); Vec3.y (RigidBody._velocity b);
           Vec3.z (RigidBody._velocity b);
           Vec3.x (RigidBody._rotvelo b); Vec3.y (RigidBody._rotvelo b);
           Vec3.z (RigidBody._rotvelo b) ].
Proof.
  cbv zeta. unfold kin. add_fields. cbn [map]. split.
  - intros i Hi.
    repeat match goal with
           | |- context [getF (World.grow_F ?n ?old ?v) i] =>
               rewrite (proj2 (proj2 (grow_F_spec n old v)) i Hi)
           end.
    reflexivity.
  - repeat match goal with
           | |- context [getF (World.grow_F ?n ?old ?v) ?n] =>
               rewrite (proj1 (proj2 (grow_F_spec n old v)))
           end.
    reflexivity.
Qed.

(** Comparisons with zero. *)
Lemma leb_zero_not_gtb (m : num) : (m <=? 0) = true -> gtb m 0 = false.
Proof.
  unfold gtb. rewrite FloatAxioms.leb_spec, FloatAxioms.ltb_spec.
  change (Prim2SF 0) with (S754_zero false).
  destruct (Prim2SF m) as [s|s| |s p e]; cbn; try discriminate; try reflexivity;
    destruct s; cbn; try discriminate; reflexivity.
Qed.

Lemma nan_compares_false (m : num) :
  is_nan m = true -> (m <=? 0) = false /\ gtb m 0 = false.
Proof.
  unfold gtb, is_nan.
  rewrite FloatAxioms.eqb_spec, FloatAxioms.leb_spec, FloatAxioms.ltb_spec.
  change (Prim2SF 0) with (S754_zero false).
  destruct (Prim2SF m) as [s|s| |s p e]; cbn; try discriminate.
  - destruct s; discriminate.
  - intros _. split; reflexivity.
  - destruct s; cbn; rewrite ?Z.compare_refl, ?Pos.compare_cont_refl; cbn; discriminate.
Qed.

(** X7.  For the body that [add] appends, the fixed flag and the inverse
    mass agree: with a mass [<= 0] the body is fixed and its inverse mass
    is 0; with a mass [> 0] it is not fixed and its inverse mass is
    [1/mass] rounded to binary32; with a NaN mass it is not fixed and its
    inverse mass is 0.  The stored mass is the given one rounded. *)
Theorem add_sets_fixed_and_invm_together (w : World.t) (b : RigidBody.t) :
  let n := World.numObjects w in
  let m := RigidBody._mass b in
  let w' := fst (World.add w b) in
  getF (World.mass w') n = fround m
  /\ ((m <=? 0) = true ->
      World.fixed w' !! n = Some 1%Z /\ getF (World.invm w') n = 0)
  /\ (gtb m 0 = true ->
      World.fixed w' !! n = Some 0%Z /\ getF (World.invm w') n = fround (1 / m))
  /\ (is_nan m = true ->
      World.fixed w' !! n = Some 0%Z /\ getF (World.invm w') n = 0).
Proof.
  cbv zeta. add_fields.
  rewrite !(proj1 (proj2 (grow_F_spec _ _ _))).
  rewrite !(proj2 (grow_I_spec _ _ _)).
  split; [reflexivity|]. split; [|split].
  - intros Hle. rewrite Hle, (leb_zero_not_gtb _ Hle). split; reflexivity.
  - intros Hgt. rewrite Hgt.
    destruct (RigidBody._mass b <=? 0) eqn:Hle.
    + rewrite (leb_zero_not_gtb _ Hle) in Hgt. discriminate.
    + split; reflexivity.
  - intros Hnan. destruct (nan_compares_false _ Hnan) as [-> ->].
    split; reflexivity.
Qed.


(** ** Setters and getters of an attached body *)

Lemma attached_of_id (b : RigidBody.t) :
  (0 <= RigidBody._id b)%Z -> RigidBodyProto.attached b = true.
Proof.
  intros H. unfold RigidBodyProto.attached.
  destruct (Z.eqb_spec (RigidBody._id b) (-1)); [lia | reflexivity].
Qed.

(** X8.  On a body that is in the world, a setter followed by the getter
    of the same property gives the arguments rounded to binary32, for the
    position, the force, the torque and the angular velocity. *)
Theorem attached_setter_then_getter_rounds (w : World.t) (b : RigidBody.t)
    (x y z : num) :
  (0 <= RigidBody._id b)%Z ->
  (RigidBodyProto.id b < World.numObjects w)%nat ->
  sized w = true ->
  let v := Ok (Vec3.mk (fround x) (fround y) (fround z)) in
  RigidBodyProto.getPosition (fst (RigidBodyProto.setPosition w b x y z)) b = v
  /\ RigidBodyProto.getForce (fst (RigidBodyProto.setForce w b x y z)) b = v
  /\ RigidBodyProto.getTorque (fst (RigidBodyProto.setTorque w b x y z)) b = v
  /\ RigidBodyProto.getAngularvelocity
       (fst (RigidBodyProto.setAngularVelocity w b x y z)) b = v.
Proof.
  intros Hid Hlt Hsized v. subst v.
  pose proof (attached_of_id b Hid) as Hatt.
  unfold RigidBodyProto.getPosition, RigidBodyProto.setPosition,
    RigidBodyProto.getForce, RigidBodyProto.setForce,
    RigidBodyProto.getTorque, RigidBodyProto.setTorque,
    RigidBodyProto.getAngularvelocity, RigidBodyProto.setAngularVelocity.
  rewrite Hatt. cbn [fst].
  sized_lengths Hsized.
  destruct w. unfold World.clearCollisionState.
  cbn [World.with_x World.with_f World.with_tau World.with_w
       World.with_collision_matrix
       World.x World.y World.z World.fx World.fy World.fz
       World.taux World.tauy World.tauz World.wx World.wy World.wz] in *.
  rewrite !getF_setF_eq by congruence.
  repeat split; reflexivity.
Qed.

(** X8 on the flying sphere: the position (0.1, 0.2, 0.3) comes back
    rounded. *)
Lemma attached_setter_then_getter_rounds_flying :
  RigidBodyProto.getPosition
    (fst (RigidBodyProto.setPosition (fst Scene.flying) (snd Scene.flying) 0.1 0.2 0.3))
    (snd Scene.flying)
  = Ok (Vec3.mk (fround 0.1) (fround 0.2) (fround 0.3)).
Proof.
  apply (attached_setter_then_getter_rounds (fst Scene.flying) (snd Scene.flying)
           0.1 0.2 0.3).
  - vm_compute. discriminate.
  - vm_compute. lia.
  - vm_compute. reflexivity.
Defined.

(** ** The contact matrix *)

Lemma collision_matrix_with_collision_matrix (w : World.t) (cm : list Z) :
  World.collision_matrix (World.with_collision_matrix w cm) = cm.
Proof. destruct w. reflexivity. Qed.

Lemma clear_fold (N i : nat) (cm : list Z) :
  let cell := fun j : nat => (Nat.min i j + Nat.max i j * N)%nat in
  let cm' :=
    fold_left
      (fun cm idx =>
         let j := Z.of_nat idx in
         let at_ := if (j <? Z.of_nat i)%Z then (j + Z.of_nat i * Z.of_nat N)%Z
                    else (Z.of_nat i + j * Z.of_nat N)%Z in
         if (at_ <? 0)%Z then cm else setI cm (Z.to_nat at_) 0)
      (seq 0 N) cm in
  length cm' = length cm
  /\ (forall j : nat, (j < N)%nat -> (cell j < length cm)%nat ->
        cm' !! cell j = Some 0%Z)
  /\ (forall p : nat, (forall j : nat, (j < N)%nat -> p <> cell j) ->
        cm' !! p = cm !! p).
Proof.
  intros cell. cbv zeta.
  apply (fold_left_seq_ind
           (fun K cm' =>
              length cm' = length cm
              /\ (forall j : nat, (j < K)%nat -> (cell j < length cm)%nat ->
                    cm' !! cell j = Some 0%Z)
              /\ (forall p : nat, (forall j : nat, (j < K)%nat -> p <> cell j) ->
                    cm' !! p = cm !! p))).
  - split; [reflexivity|]. split; [intros; lia|]. reflexivity.
  - intros k a Hk (Hlen & Hz & Hrest).
    assert (Hat : (if (Z.of_nat k <? Z.of_nat i)%Z
                   then (Z.of_nat k + Z.of_nat i * Z.of_nat N)%Z
                   else (Z.of_nat i + Z.of_nat k * Z.of_nat N)%Z)
                  = Z.of_nat (cell k)).
    { subst cell. cbv beta.
      destruct (Z.ltb_spec (Z.of_nat k) (Z.of_nat i)).
      - rewrite Nat.min_r, Nat.max_l by lia. lia.
      - rewrite Nat.min_l, Nat.max_r by lia. lia. }
    rewrite Hat.
    destruct (Z.ltb_spec (Z.of_nat (cell k)) 0) as [Hneg|_]; [lia|].
    rewrite Nat2Z.id.
    split; [rewrite length_setI; exact Hlen|]. split.
    + intros j Hj Hc. unfold setI.
      destruct (decide (cell k = cell j)) as [Heq|Hne].
      * rewrite <- Heq. rewrite list_lookup_insert_eq by (rewrite Hlen, Heq; exact Hc).
        reflexivity.
      * rewrite list_lookup_insert_ne by exact Hne.
        apply Hz; [|exact Hc].
        destruct (decide (j = k)) as [->|]; [congruence | lia].
    + intros p Hp. unfold setI.
      rewrite list_lookup_insert_ne by (intros Heq; apply (Hp k); [lia | congruence]).
      apply Hrest. intros j Hj. apply Hp. lia.
Qed.

Lemma clear_fold_int16 (N i : nat) (cm : list Z) :
  Forall int16 cm ->
  Forall int16
    (fold_left
       (fun cm idx =>
          let j := Z.of_nat idx in
          let at_ := if (j <? Z.of_nat i)%Z then (j + Z.of_nat i * Z.of_nat N)%Z
                     else (Z.of_nat i + j * Z.of_nat N)%Z in
          if (at_ <? 0)%Z then cm else setI cm (Z.to_nat at_) 0)
       (seq 0 N) cm).
Proof.
  intros Hint.
  apply (fold_left_seq_ind (fun _ cm' => Forall int16 cm')); [exact Hint|].
  intros k a _ Ha. cbv zeta.
  match goal with |- context [if ?c then a else _] => destruct c end;
    [exact Ha|].
  unfold setI. apply Forall_insert; [exact Ha|].
  unfold int16. change (toInt16 0) with 0%Z. lia.
Qed.

(** X9.  [clearCollisionState(body)] stores 0 in the previous-step cell of
    every pair that contains the body; the current-step cell of every
    pair, and the previous-step cell of every pair without the body,
    keep their values. *)
Theorem clearCollisionState_clears_previous_cells_only
    (w : World.t) (body : RigidBody.t) :
  let N := World.numObjects w in
  let i := RigidBodyProto.id body in
  let w' := World.clearCollisionState w body in
  (0 <= RigidBody._id body)%Z ->
  (i < N)%nat ->
  length (World.collision_matrix w) = (N * N)%nat ->
  (forall j : nat, (j < N)%nat ->
     World.cmatrix_get w' i j (-1) = Some 0%Z
     /\ World.cmatrix_get w' j i (-1) = Some 0%Z)
  /\ (forall a b : nat, (a < N)%nat -> (b < N)%nat -> a <> b ->
        World.cmatrix_get w' a b 0 = World.cmatrix_get w a b 0)
  /\ (forall a b : nat, (a < N)%nat -> (b < N)%nat -> a <> i -> b <> i ->
        World.cmatrix_get w' a b (-1) = World.cmatrix_get w a b (-1)).
Proof.
  intros N i w' Hid HiN Hlen.
  assert (Hcm : World.collision_matrix w'
                = fold_left
                    (fun cm idx =>
                       let j := Z.of_nat idx in
                       let at_ := if (j <? Z.of_nat i)%Z
                                  then (j + Z.of_nat i * Z.of_nat N)%Z
                                  else (Z.of_nat i + j * Z.of_nat N)%Z in
                       if (at_ <? 0)%Z then cm else setI cm (Z.to_nat at_) 0)
                    (seq 0 N) (World.collision_matrix w)).
  { subst w' i. unfold World.clearCollisionState.
    rewrite collision_matrix_with_collision_matrix.
    unfold RigidBodyProto.id. rewrite Z2Nat.id by exact Hid. reflexivity. }
  pose proof (clear_fold N i (World.collision_matrix w)) as Hfold.
  rewrite <- Hcm in Hfold. cbv zeta in Hfold.
  destruct Hfold as (_ & Hz & Hrest).
  assert (HN : World.numObjects w' = N) by reflexivity.
  unfold World.cmatrix_get, getI.
  split; [|split].
  - intros j Hj. rewrite !cmatrix_index_previous, HN.
    rewrite (Nat.min_comm j i), (Nat.max_comm j i).
    split; apply Hz; try exact Hj; rewrite Hlen;
      apply cell_lt; lia.
  - intros a b Ha Hb Hab. rewrite !cmatrix_index_current, HN.
    fold N. apply Hrest. intros j Hj Heq.
    apply cell_inj in Heq; lia.
  - intros a b Ha Hb Hai Hbi. rewrite !cmatrix_index_previous, HN.
    fold N. apply Hrest. intros j Hj Heq.
    apply cell_inj in Heq; lia.
Qed.

(** X9 on the two spheres with the previous-step bit of their pair set. *)
Lemma clearCollisionState_clears_previous_cells_only_marked :
  World.cmatrix_get Trial.marked 0 1 (-1) = Some 1%Z
  /\ World.cmatrix_get (World.clearCollisionState Trial.marked Trial.first_body)
                       0 1 (-1) = Some 0%Z.
Proof.
  split; [vm_compute; reflexivity|].
  destruct (clearCollisionState_clears_previous_cells_only Trial.marked
              Trial.first_body) as (Hprev & _ & _).
  - vm_compute. discriminate.
  - vm_compute. lia.
  - vm_compute. reflexivity.
  - apply (Hprev 1%nat). vm_compute. lia.
Defined.

(** X10.  The transfer at the start of a step overwrites what
    [clearCollisionState] cleared: after [transfer_contacts], every cell
    off the diagonal holds the same value whether or not the contact
    state of a body was cleared before. *)
Theorem transfer_overwrites_cleared_state (w : World.t) (body : RigidBody.t)
    (a b : nat) :
  let N := World.numObjects w in
  (0 <= RigidBody._id body)%Z ->
  (RigidBodyProto.id body < N)%nat ->
  length (World.collision_matrix w) = (N * N)%nat ->
  Forall int16 (World.collision_matrix w) ->
  (a < N)%nat -> (b < N)%nat -> a <> b ->
  World.collision_matrix
    (World.transfer_contacts (World.clearCollisionState w body)) !! (a + b * N)%nat
  = World.collision_matrix (World.transfer_contacts w) !! (a + b * N)%nat.
Proof.
  intros N Hid HiN Hlen Hint Ha Hb Hab.
  set (i := RigidBodyProto.id body).
  set (w' := World.clearCollisionState w body).
  assert (Hcm : World.collision_matrix w'
                = fold_left
                    (fun cm idx =>
                       let j := Z.of_nat idx in
                       let at_ := if (j <? Z.of_nat i)%Z
                                  then (j + Z.of_nat i * Z.of_nat N)%Z
                                  else (Z.of_nat i + j * Z.of_nat N)%Z in
                       if (at_ <? 0)%Z then cm else setI cm (Z.to_nat at_) 0)
                    (seq 0 N) (World.collision_matrix w)).
  { subst w' i. unfold World.clearCollisionState.
    rewrite collision_matrix_with_collision_matrix.
    unfold RigidBodyProto.id. rewrite Z2Nat.id by exact Hid. reflexivity. }
  pose proof (clear_fold N i (World.collision_matrix w)) as Hfold.
  rewrite <- Hcm in Hfold. cbv zeta in Hfold.
  destruct Hfold as (Hlen' & Hz & Hrest).
  assert (HN : World.numObjects w' = N) by reflexivity.
  assert (Hint' : Forall int16 (World.collision_matrix w')).
  { rewrite Hcm. apply clear_fold_int16. exact Hint. }
  pose proof (transfer_contacts_inv w Hlen Hint) as (_ & _ & _ & Hw).
  assert (Hlen'' : length (World.collision_matrix w')
                   = (World.numObjects w' * World.numObjects w')%nat).
  { rewrite HN, Hlen'. exact Hlen. }
  pose proof (transfer_contacts_inv w' Hlen'' Hint') as (_ & _ & _ & Hw').
  rewrite HN in Hw'. fold N in Hw.
  (* the current cell of a pair is not one that is cleared *)
  assert (Hcur : forall hi lo : nat, (lo < hi)%nat -> (hi < N)%nat ->
            World.collision_matrix w' !! (hi + lo * N)%nat
            = World.collision_matrix w !! (hi + lo * N)%nat).
  { intros hi lo Hlo Hhi. apply Hrest. intros j Hj Heq.
    apply cell_inj in Heq; lia. }
  destruct (Nat.lt_ge_cases a b) as [Hlt|Hge].
  - (* a < b: the previous cell of the pair (b,a) *)
    destruct (Hw b a Hlt Hb) as [Ht _]. destruct (Hw' b a Hlt Hb) as [Ht' _].
    destruct (Ht ltac:(lia)) as [_ Hp]. destruct (Ht' ltac:(lia)) as [_ Hp'].
    rewrite Hp, Hp'. apply Hcur; assumption.
  - assert (Hlt : (b < a)%nat) by lia.
    destruct (Hw a b Hlt Ha) as [Ht _]. destruct (Hw' a b Hlt Ha) as [Ht' _].
    destruct (Ht ltac:(lia)) as [Hp _]. destruct (Ht' ltac:(lia)) as [Hp' _].
    rewrite Hp, Hp'. reflexivity.
Qed.

(** X10 on the same world, at the previous-step cell of the pair. *)
Lemma transfer_overwrites_cleared_state_marked :
  World.collision_matrix
    (World.transfer_contacts (World.clearCollisionState Trial.marked Trial.first_body))
    !! (0 + 1 * World.numObjects Trial.marked)%nat
  = World.collision_matrix (World.transfer_contacts Trial.marked)
    !! (0 + 1 * World.numObjects Trial.marked)%nat.
Proof.
  apply (transfer_overwrites_cleared_state Trial.marked Trial.first_body 0 1).
  - vm_compute. discriminate.
  - vm_compute. lia.
  - vm_compute. reflexivity.
  - vm_compute. repeat constructor; discriminate.
  - vm_compute. lia.
  - vm_compute. lia.
  - lia.
Defined.


(** ** What a step keeps *)

Lemma bind_Ok {A B : Type} (r : completion A) (k : A -> completion B) (b : B) :
  bind r k = Ok b -> exists a, r = Ok a /\ k a = Ok b.
Proof.
  destruct r as [a|msg]; cbn [bind]; intros H; [|discriminate].
  exists a. split; [reflexivity | exact H].
Qed.

(** Taking apart a returning computation: the binds, the tests and the
    pairs it is made of. *)
Ltac crack H :=
  repeat (cbv beta zeta in H;
          match type of H with
          | bind _ _ = Ok _ =>
              let a := fresh "a" in
              let Ha := fresh "Ha" in
              apply bind_Ok in H; destruct H as (a & Ha & H)
          | (match ?c with _ => _ end) = Ok _ => destruct c
          | Throw _ = Ok _ => discriminate H
          | Ok _ = Ok _ => injection H as <-
          end).

Ltac settled_fields :=
  unfold settled, outline, data, census, placement, clock, pose_at, forces, drift in *;
  cbn [map] in *; world_fields.

Lemma settled_with_collision_matrix (w : World.t) (cm : list Z) :
  settled (World.with_collision_matrix w cm) = settled w.
Proof. destruct w. reflexivity. Qed.

Lemma settled_with_solver (w : World.t) (s : Solver.t) :
  settled (World.with_solver w s) = settled w.
Proof. destruct w. reflexivity. Qed.

Lemma settled_with_v (w : World.t) (a b c : list num) :
  length a = length (World.vx w) -> length b = length (World.vy w) ->
  length c = length (World.vz w) ->
  settled (World.with_v w a b c) = settled w.
Proof.
  destruct w. settled_fields. intros -> -> ->. reflexivity.
Qed.

Lemma settled_with_w (w : World.t) (a b c : list num) :
  length a = length (World.wx w) -> length b = length (World.wy w) ->
  length c = length (World.wz w) ->
  settled (World.with_w w a b c) = settled w.
Proof.
  destruct w. settled_fields. intros -> -> ->. reflexivity.
Qed.

Lemma outline_with_f (w : World.t) (a b c : list num) :
  length a = length (World.fx w) -> length b = length (World.fy w) ->
  length c = length (World.fz w) ->
  outline (World.with_f w a b c) = outline w.
Proof.
  destruct w. settled_fields. intros -> -> ->. reflexivity.
Qed.

Lemma outline_with_tau (w : World.t) (a b c : list num) :
  length a = length (World.taux w) -> length b = length (World.tauy w) ->
  length c = length (World.tauz w) ->
  outline (World.with_tau w a b c) = outline w.
Proof.
  destruct w. settled_fields. intros -> -> ->. reflexivity.
Qed.

Lemma settled_cmatrix_set (w : World.t) (i j : nat) (which v : Z) :
  settled (World.cmatrix_set w i j which v) = settled w.
Proof. unfold World.cmatrix_set. apply settled_with_collision_matrix. Qed.

Lemma settled_transfer_contacts (w : World.t) :
  settled (World.transfer_contacts w) = settled w.
Proof.
  destruct (transfer_contacts_frame w) as [cm ->].
  apply settled_with_collision_matrix.
Qed.

Lemma outline_add_gravity (w : World.t) :
  outline (World.add_gravity w) = outline w.
Proof.
  unfold World.add_gravity.
  apply (fold_left_seq_ind (fun _ w' => outline w' = outline w)); [reflexivity|].
  intros k w' _ <-. apply outline_with_f; apply length_setF.
Qed.

Lemma settled_addImpulse (this w' : World.t) (i j : nat) (ri rj ui ni : Vec3.t)
    (e mu : num) :
  World._addImpulse this i j ri rj ui ni e mu = Ok w' -> settled w' = settled this.
Proof.
  unfold World._addImpulse. intros H.
  apply bind_Ok in H. destruct H as (J & _ & H).
  cbv beta zeta in H. injection H as <-.
  apply settled_with_v; rewrite !length_setF; reflexivity.
Qed.

Lemma settled_sphere_plane (this w' : World.t) (si pi : nat) :
  World.sphere_plane this si pi = Ok w' -> settled w' = settled this.
Proof.
  unfold World.sphere_plane. intros H. crack H;
    try (apply settled_addImpulse in H; rewrite H);
    rewrite ?settled_with_solver, ?settled_cmatrix_set; reflexivity.
Qed.

Lemma settled_sphere_sphere (this w' : World.t) (i j : nat) :
  World.sphere_sphere this i j = Ok w' -> settled w' = settled this.
Proof.
  unfold World.sphere_sphere. intros H. crack H;
    try (apply settled_addImpulse in H; rewrite H);
    rewrite ?settled_with_solver, ?settled_cmatrix_set; reflexivity.
Qed.

Lemma settled_box_plane (this w' : World.t) (bi pi : nat) :
  World.box_plane this bi pi = Ok w' -> settled w' = settled this.
Proof.
  unfold World.box_plane. intros H.
  apply bind_Ok in H. destruct H as (r & Hr & H). injection H as <-.
  unfold World.box_plane_contacts in Hr. crack Hr.
  cbn [fst]. apply settled_with_solver.
Qed.

Lemma settled_narrowphase_pair (this w' : World.t) (i j : nat) :
  World.narrowphase_pair this i j = Ok w' -> settled w' = settled this.
Proof.
  unfold World.narrowphase_pair. intros H. cbv zeta in H.
  repeat match type of H with
         | (if ?c then _ else _) = Ok _ => destruct c
         end;
    first [ apply settled_sphere_plane in H; exact H
          | apply settled_sphere_sphere in H; exact H
          | apply settled_box_plane in H; exact H
          | injection H as <-; reflexivity ].
Qed.

Lemma settled_narrowphase (this w' : World.t) (p1 p2 : list nat) :
  World.narrowphase this p1 p2 = Ok w' -> settled w' = settled this.
Proof.
  unfold World.narrowphase. revert w'.
  apply (fold_left_seq_ind
           (fun _ acc => forall w', acc = Ok w' -> settled w' = settled this)).
  - intros w' [= <-]. reflexivity.
  - intros k acc _ IH w' H.
    apply bind_Ok in H. destruct H as (w1 & -> & H).
    rewrite <- (IH w1 eq_refl).
    destruct (p1 !! k) as [i|]; [destruct (p2 !! k) as [j|]|].
    + apply settled_narrowphase_pair in H. exact H.
    + injection H as <-. reflexivity.
    + injection H as <-. reflexivity.
Qed.

Lemma settled_solve_contacts (this w' : World.t) :
  World.solve_contacts this = Ok w' -> settled w' = settled this.
Proof.
  unfold World.solve_contacts. intros H.
  destruct (Solver.n (World.solver this) =? 0)%nat.
  { injection H as <-. reflexivity. }
  apply bind_Ok in H. destruct H as (s & _ & H).
  apply bind_Ok in H. destruct H as (l & _ & H).
  cbv beta zeta in H. injection H as <-.
  rewrite <- (settled_with_solver this s).
  apply (fold_left_seq_ind
           (fun _ w' => settled w' = settled (World.with_solver this s)));
    [reflexivity|].
  intros k w' _ <-.
  rewrite settled_with_w by apply length_setF.
  apply settled_with_v; apply length_setF.
Qed.


(** One round of the integration loop keeps the data, the lengths, the
    forces and the clock, and the pose of every body but a moving [k]. *)
Lemma leapfrog_body_keeps (dt : num) (w : World.t) (k : nat) :
  let w' := World.leapfrog_body dt w k in
  (data w', census w', clock w', forces w') = (data w, census w, clock w, forces w)
  /\ forall (i : nat) (f : Z),
       World.fixed w !! i = Some f -> f <> 0%Z -> pose_at w' i = pose_at w i.
Proof.
  cbv zeta. destruct w. world_eval.
  match goal with
  | |- context [bool_decide ?P] => destruct (bool_decide P) eqn:Hmove
  end.
  - settled_fields. rewrite !length_setF. split; [reflexivity|].
    intros i f Hfix Hf.
    assert (Hki : k <> i).
    { intros ->. rewrite Hfix in Hmove. cbn [default] in Hmove.
      apply bool_decide_eq_true_1 in Hmove. contradiction. }
    rewrite !lookup_setF_ne by exact Hki. reflexivity.
  - split; [reflexivity|]. intros; reflexivity.
Qed.

Lemma leapfrog_keeps (dt : num) (w : World.t) :
  let w' := World.leapfrog dt w in
  (data w', census w', clock w', forces w') = (data w, census w, clock w, forces w)
  /\ forall (i : nat) (f : Z),
       World.fixed w !! i = Some f -> f <> 0%Z -> pose_at w' i = pose_at w i.
Proof.
  cbv zeta. unfold World.leapfrog.
  apply (fold_left_seq_ind
           (fun _ w' =>
              (data w', census w', clock w', forces w')
              = (data w, census w, clock w, forces w)
              /\ forall (i : nat) (f : Z),
                   World.fixed w !! i = Some f -> f <> 0%Z ->
                   pose_at w' i = pose_at w i)).
  - split; [reflexivity|]. intros; reflexivity.
  - intros k w' _ [Hkeep Hpose].
    destruct (leapfrog_body_keeps dt w' k) as [Hkeep' Hpose'].
    cbv zeta in Hkeep', Hpose'.
    split; [rewrite Hkeep'; exact Hkeep|].
    intros i f Hfix Hf.
    rewrite (Hpose' i f); [exact (Hpose i f Hfix Hf)| |exact Hf].
    assert (Hfixed : World.fixed w' = World.fixed w).
    { unfold data in Hkeep. congruence. }
    rewrite Hfixed. exact Hfix.
Qed.

Lemma fround_0 : fround 0 = 0.
Proof. vm_compute. reflexivity. Qed.

(** "Reset all forces": the six arrays hold [+0] at every index below the
    number of bodies; everything else is kept. *)
Lemma reset_forces_spec (w : World.t) :
  let w' := World.reset_forces w in
  (outline w', World.vx w', World.vy w', World.vz w',
   World.wx w', World.wy w', World.wz w')
  = (outline w, World.vx w, World.vy w, World.vz w,
     World.wx w, World.wy w, World.wz w)
  /\ forall i : nat, (i < World.numObjects w)%nat ->
       Forall (fun a : list num => (i < length a)%nat -> a !! i = Some 0) (forces w').
Proof.
  cbv zeta. unfold World.reset_forces.
  set (N := World.numObjects w).
  enough (Hinv :
    (fun K w' =>
       (outline w', World.vx w', World.vy w', World.vz w',
        World.wx w', World.wy w', World.wz w')
       = (outline w, World.vx w, World.vy w, World.vz w,
          World.wx w, World.wy w, World.wz w)
       /\ forall i : nat, (i < K)%nat ->
            Forall (fun a : list num => (i < length a)%nat -> a !! i = Some 0)
                   (forces w'))
      N (fold_left
           (fun w i =>
              let w := World.with_f w (setF (World.fx w) i 0) (setF (World.fy w) i 0)
                                     (setF (World.fz w) i 0) in
              World.with_tau w (setF (World.taux w) i 0) (setF (World.tauy w) i 0)
                               (setF (World.tauz w) i 0))
           (seq 0 N) w)) by exact Hinv.
  apply fold_left_seq_ind.
  - split; [reflexivity|]. intros i Hi. lia.
  - intros k w' _ [Hkeep Hzero]. cbv zeta. split.
    + rewrite <- Hkeep. clear.
      destruct w'. settled_fields. rewrite !length_setF. reflexivity.
    + intros i Hi.
      assert (Hcase : (i < k)%nat \/ i = k) by lia.
      destruct Hcase as [Hlt| ->].
      * specialize (Hzero i Hlt). clear Hkeep.
        destruct w'. settled_fields.
        repeat match goal with
               | H : Forall _ (_ :: _) |- _ =>
                   let Hhd := fresh "Z" in
                   apply Forall_cons_1 in H; destruct H as [Hhd H]
               end.
        repeat constructor; rewrite length_setF; intros Hlen;
          (destruct (decide (k = i)) as [->|Hne];
           [unfold setF; rewrite list_lookup_insert_eq by exact Hlen;
            rewrite fround_0; reflexivity
           |rewrite lookup_setF_ne by exact Hne; auto]).
      * clear Hkeep Hzero. destruct w'. settled_fields.
        repeat constructor; rewrite length_setF; intros Hlen;
          unfold setF; rewrite list_lookup_insert_eq by exact Hlen;
          rewrite fround_0; reflexivity.
Qed.

(** ** The branches of the narrowphase for one and for two worlds *)

(** With the same world in both places, the branches written for another
    world under the name [world] are the branches of the world itself. *)
Lemma apart_sphere_plane_same (this : World.t) (si pi : nat) :
  World.Apart.sphere_plane this this si pi = World.sphere_plane this si pi.
Proof. reflexivity. Qed.

Lemma apart_sphere_sphere_same (this : World.t) (i j : nat) :
  World.Apart.sphere_sphere this this i j = World.sphere_sphere this i j.
Proof. reflexivity. Qed.

Lemma apart_box_plane_same (this : World.t) (bi pi : nat) :
  World.Apart.box_plane this this bi pi = World.box_plane this bi pi.
Proof.
  unfold World.Apart.box_plane, World.box_plane, World.box_plane_contacts.
  destruct (World.body_at this pi) as [bp|]; [|reflexivity]. cbn [bind].
  destruct (World.defined (Shape.normal (RigidBody._shape bp))) as [normal|];
    [|reflexivity].
  cbn [bind].
  destruct (World.body_at this bi) as [bb|]; [|reflexivity]. cbn [bind].
  destruct (World.defined (Shape.halfExtents (RigidBody._shape bb))) as [ex|];
    [|reflexivity].
  cbn [bind]. cbv zeta.
  match goal with
  | |- context [World.box_plane_corners ?t ?b ?p ?n ?xi ?wi ?q ?cs ?acc] =>
      destruct (World.box_plane_corners t b p n xi wi q cs acc) as [s k]
  end.
  reflexivity.
Qed.

Lemma apart_narrowphase_pair_same (this : World.t) (i j : nat) :
  World.Apart.narrowphase_pair this this i j = World.narrowphase_pair this i j.
Proof.
  unfold World.Apart.narrowphase_pair, World.narrowphase_pair.
  rewrite !apart_sphere_plane_same, !apart_sphere_sphere_same, !apart_box_plane_same.
  reflexivity.
Qed.

(** The branches of the narrowphase when [world] is another world:
    they leave the outline and the forces of [this] as they are. *)
Lemma settled_apart_sphere_plane (world this w' : World.t) (si pi : nat) :
  World.Apart.sphere_plane world this si pi = Ok w' -> settled w' = settled this.
Proof.
  unfold World.Apart.sphere_plane. intros H. crack H;
    try (apply settled_addImpulse in H; rewrite H);
    rewrite ?settled_with_solver, ?settled_cmatrix_set; reflexivity.
Qed.

Lemma settled_apart_sphere_sphere (world this w' : World.t) (i j : nat) :
  World.Apart.sphere_sphere world this i j = Ok w' -> settled w' = settled this.
Proof.
  unfold World.Apart.sphere_sphere. intros H. crack H;
    try (apply settled_addImpulse in H; rewrite H);
    rewrite ?settled_with_solver, ?settled_cmatrix_set; reflexivity.
Qed.

Lemma settled_apart_box_plane (world this w' : World.t) (bi pi : nat) :
  World.Apart.box_plane world this bi pi = Ok w' -> settled w' = settled this.
Proof.
  unfold World.Apart.box_plane. intros H. crack H. apply settled_with_solver.
Qed.

Lemma settled_apart_narrowphase_pair (world this w' : World.t) (i j : nat) :
  World.Apart.narrowphase_pair world this i j = Ok w' -> settled w' = settled this.
Proof.
  unfold World.Apart.narrowphase_pair. intros H. cbv zeta in H.
  repeat match type of H with
         | (if ?c then _ else _) = Ok _ => destruct c
         end;
    first [ apply settled_apart_sphere_plane in H; exact H
          | apply settled_apart_sphere_sphere in H; exact H
          | apply settled_apart_box_plane in H; exact H
          | injection H as <-; reflexivity ].
Qed.

Lemma settled_apart_narrowphase (world this w' : World.t) (p1 p2 : list nat) :
  World.Apart.narrowphase world this p1 p2 = Ok w' -> settled w' = settled this.
Proof.
  unfold World.Apart.narrowphase. revert w'.
  apply (fold_left_seq_ind
           (fun _ acc => forall w', acc = Ok w' -> settled w' = settled this)).
  - intros w' [= <-]. reflexivity.
  - intros k acc _ IH w' H.
    apply bind_Ok in H. destruct H as (w1 & -> & H).
    rewrite <- (IH w1 eq_refl).
    destruct (p1 !! k) as [i|]; [destruct (p2 !! k) as [j|]|].
    + apply settled_apart_narrowphase_pair in H. exact H.
    + injection H as <-. reflexivity.
    + injection H as <-. reflexivity.
Qed.

Lemma settled_apart_solve_contacts (world this : World.t) (r : World.t * World.t) :
  World.Apart.solve_contacts world this = Ok r ->
  settled (fst r) = settled this /\ settled (snd r) = settled world.
Proof.
  unfold World.Apart.solve_contacts. intros H.
  destruct (Solver.n (World.solver this) =? 0)%nat.
  { injection H as <-. split; reflexivity. }
  apply bind_Ok in H. destruct H as (s & _ & H).
  apply bind_Ok in H. destruct H as (l & _ & H).
  cbv beta zeta in H. injection H as <-. cbn [fst snd].
  split; [apply settled_with_solver|].
  apply (fold_left_seq_ind (fun _ w' => settled w' = settled world));
    [reflexivity|].
  intros k w' _ <-.
  rewrite settled_with_w by apply length_setF.
  apply settled_with_v; apply length_setF.
Qed.

(** The phases of a step that runs and returns, when [world] is the
    world itself. *)
Lemma step_phases (collisionPairs : World.t -> completion (list nat * list nat))
    (w w' : World.t) (world' : World.global) (dt : num) :
  World.paused w = false ->
  World.step collisionPairs World.Itself w dt = Ok (w', world') ->
  exists w5 : World.t,
    settled w5 = settled (World.add_gravity (World.transfer_contacts w))
    /\ outline w5 = outline w
    /\ w' = World.with_clock (World.reset_forces (World.leapfrog dt w5))
              (World.paused (World.reset_forces (World.leapfrog dt w5)))
              (World.time (World.reset_forces (World.leapfrog dt w5)) + dt)
              (World.stepnumber (World.reset_forces (World.leapfrog dt w5)) + 1)
              (World.gravity (World.reset_forces (World.leapfrog dt w5))).
Proof.
  intros Hrun H. unfold World.step in H. rewrite Hrun in H.
  apply bind_Ok in H. destruct H as (pairs & _ & H). cbv beta iota zeta in H.
  apply bind_Ok in H. destruct H as (u & _ & H). cbv beta in H.
  apply bind_Ok in H. destruct H as (w4 & H4 & H). cbv beta in H.
  apply bind_Ok in H. destruct H as (w5 & H5 & H). cbv beta zeta in H.
  injection H as <- _.
  exists w5.
  apply settled_solve_contacts in H5. apply settled_narrowphase in H4.
  assert (Hs : settled w5 = settled (World.add_gravity (World.transfer_contacts w))).
  { rewrite H5, H4. apply settled_with_solver. }
  split; [exact Hs|]. split; [|reflexivity].
  pose proof (outline_add_gravity (World.transfer_contacts w)) as Hg.
  pose proof (settled_transfer_contacts w) as Ht.
  unfold settled in Hs, Ht. congruence.
Qed.

(** The same when [world] is another world [g]: [this] comes out of the
    contact phases, [g] is integrated. *)
Lemma step_phases_apart
    (collisionPairs : World.t -> completion (list nat * list nat))
    (g w w' : World.t) (world' : World.global) (dt : num) :
  World.paused w = false ->
  World.step collisionPairs (World.Another g) w dt = Ok (w', world') ->
  settled w' = settled w
  /\ exists g5 : World.t,
       outline g5 = outline g
       /\ world' = World.Another
            (World.with_clock (World.reset_forces (World.leapfrog dt g5))
               (World.paused (World.reset_forces (World.leapfrog dt g5)))
               (World.time (World.reset_forces (World.leapfrog dt g5)) + dt)
               (World.stepnumber (World.reset_forces (World.leapfrog dt g5)) + 1)
               (World.gravity (World.reset_forces (World.leapfrog dt g5)))).
Proof.
  intros Hrun H. unfold World.step in H. rewrite Hrun in H.
  apply bind_Ok in H. destruct H as (pairs & _ & H). cbv beta iota zeta in H.
  apply bind_Ok in H. destruct H as (u & _ & H). cbv beta in H.
  apply bind_Ok in H. destruct H as (w4 & H4 & H). cbv beta in H.
  apply bind_Ok in H. destruct H as (both & H5 & H). cbv beta zeta in H.
  injection H as <- <-.
  apply settled_apart_solve_contacts in H5. destruct H5 as [H5w H5g].
  apply settled_apart_narrowphase in H4.
  split.
  - rewrite H5w, H4, settled_with_solver. apply settled_transfer_contacts.
  - exists (snd both). split; [|reflexivity].
    pose proof (outline_add_gravity g) as Hg.
    unfold settled in H5g. congruence.
Qed.

Lemma with_clock_keeps (w : World.t) (p : bool) (t n : num) :
  let w' := World.with_clock w p t n (World.gravity w) in
  (World.type w', World.body w', World.fixed w', World.mass w', World.invm w',
   World.inertiax w', World.inertiay w', World.inertiaz w', World.gravity w',
   World.spook_k w', World.spook_d w', World.spook_b w')
  = (World.type w, World.body w, World.fixed w, World.mass w, World.invm w,
     World.inertiax w, World.inertiay w, World.inertiaz w, World.gravity w,
     World.spook_k w, World.spook_d w, World.spook_b w)
  /\ census w' = census w /\ placement w' = placement w /\ forces w' = forces w
  /\ (World.paused w', World.time w', World.stepnumber w') = (p, t, n).
Proof. destruct w. repeat split; reflexivity. Qed.

Lemma sized_of_census (w w' : World.t) :
  data w' = data w -> census w' = census w -> sized w' = sized w.
Proof.
  intros Hd Hc. unfold data in Hd. unfold census in Hc. cbn [map] in Hc.
  injection Hd as Ht Hb Hf Hm Him Hix Hiy Hiz _ _ _ _ _.
  injection Hc as Lx Ly Lz Lvx Lvy Lvz Lfx Lfy Lfz Ltx Lty Ltz Lwx Lwy Lwz
                  Lqx Lqy Lqz Lqw.
  unfold sized, World.numObjects. cbn [forallb].
  rewrite Hf, Hm, Him, Hix, Hiy, Hiz.
  rewrite Lx, Ly, Lz, Lvx, Lvy, Lvz, Lfx, Lfy, Lfz, Ltx, Lty, Ltz, Lwx, Lwy, Lwz,
          Lqx, Lqy, Lqz, Lqw.
  reflexivity.
Qed.

(** The world after the integration, the clean-up and the clock. *)
Lemma finished_keeps (dt : num) (w5 : World.t) :
  let w7 := World.reset_forces (World.leapfrog dt w5) in
  let w8 := World.with_clock w7 (World.paused w7) (World.time w7 + dt)
              (World.stepnumber w7 + 1) (World.gravity w7) in
  data w8 = data w5 /\ census w8 = census w5
  /\ clock w8 = (World.time w5 + dt, World.stepnumber w5 + 1).
Proof.
  cbv zeta.
  destruct (leapfrog_keeps dt w5) as [Hleap _]. cbv zeta in Hleap.
  destruct (reset_forces_spec (World.leapfrog dt w5)) as [Hreset _].
  cbv zeta in Hreset.
  set (w7 := World.reset_forces (World.leapfrog dt w5)) in *.
  destruct (with_clock_keeps w7 (World.paused w7) (World.time w7 + dt)
              (World.stepnumber w7 + 1)) as (Hd & Hc & _ & _ & Hclk).
  cbv zeta in Hd, Hc, Hclk.
  set (w8 := World.with_clock w7 (World.paused w7) (World.time w7 + dt)
               (World.stepnumber w7 + 1) (World.gravity w7)) in *.
  split; [|split].
  - unfold outline in *. unfold data in *. congruence.
  - unfold outline in *. congruence.
  - unfold outline in *. unfold clock in *. congruence.
Qed.

(** X11.  A step that returns leaves the shapes, the bodies, the fixed
    flags, the masses, inverse masses and inertias, the gravity, the
    pause flag and the spook parameters of the stepped world as they
    were, and every array the length it had, whatever the global
    variable [world] names and for every broadphase; while the world is
    paused it changes nothing at all.  When [world] names the stepped
    world and the world is not paused, the time has advanced by [dt] and
    the step number by 1. *)
Theorem step_keeps_data_and_advances_clock
    (collisionPairs : World.t -> completion (list nat * list nat))
    (world world' : World.global) (w w' : World.t) (dt : num) :
  World.step collisionPairs world w dt = Ok (w', world') ->
  data w' = data w
  /\ census w' = census w
  /\ sized w' = sized w
  /\ (World.paused w = true -> w' = w)
  /\ (World.paused w = false -> world = World.Itself ->
      clock w' = (World.time w + dt, World.stepnumber w + 1)).
Proof.
  intros H. destruct (World.paused w) eqn:Hrun.
  - unfold World.step in H. rewrite Hrun in H. injection H as <- _.
    repeat split; try reflexivity. discriminate.
  - destruct world as [|g|].
    + destruct (step_phases collisionPairs w w' world' dt Hrun H)
        as (w5 & _ & H5 & ->).
      clear H.
      destruct (finished_keeps dt w5) as (Hd & Hc & Hclk).
      cbv zeta in Hd, Hc, Hclk.
      assert (Hdata : data (World.with_clock
                 (World.reset_forces (World.leapfrog dt w5))
                 (World.paused (World.reset_forces (World.leapfrog dt w5)))
                 (World.time (World.reset_forces (World.leapfrog dt w5)) + dt)
                 (World.stepnumber (World.reset_forces (World.leapfrog dt w5)) + 1)
                 (World.gravity (World.reset_forces (World.leapfrog dt w5))))
               = data w).
      { rewrite Hd. unfold outline in H5. congruence. }
      split; [exact Hdata|].
      split; [rewrite Hc; unfold outline in H5; congruence|].
      split; [apply sized_of_census;
              [exact Hdata | rewrite Hc; unfold outline in H5; congruence]|].
      split; [discriminate|]. intros _ _.
      rewrite Hclk. unfold outline, clock in H5. congruence.
    + destruct (step_phases_apart collisionPairs g w w' world' dt Hrun H)
        as (Hs & _).
      unfold settled, outline in Hs.
      assert (Hdata : data w' = data w) by congruence.
      assert (Hcensus : census w' = census w) by congruence.
      split; [exact Hdata|]. split; [exact Hcensus|].
      split; [apply sized_of_census; assumption|].
      split; discriminate.
    + unfold World.step in H. rewrite Hrun in H.
      apply bind_Ok in H. destruct H as (pairs & _ & H). discriminate H.
Qed.

(** X11 on the sphere of mass 1, over [dt = 0.5]. *)
Lemma step_keeps_data_and_advances_clock_lone_sphere :
  data (Trial.stepped (Scene.lone_sphere 1) 0.5) = data (Scene.lone_sphere 1)
  /\ clock (Trial.stepped (Scene.lone_sphere 1) 0.5) = (0 + 0.5, 0 + 1).
Proof.
  destruct (step_keeps_data_and_advances_clock NaiveBroadphase.collisionPairs
              World.Itself World.Itself
              (Scene.lone_sphere 1) (Trial.stepped (Scene.lone_sphere 1) 0.5) 0.5)
    as (Hd & _ & _ & _ & Hclock).
  - vm_compute. reflexivity.
  - split; [exact Hd|]. apply Hclock; reflexivity.
Defined.

(** X12.  A body whose fixed flag is set keeps its position and its
    orientation in every step that returns, whatever pairs the
    broadphase reports, whatever forces act and whatever the global
    variable [world] names. *)
Theorem step_leaves_fixed_bodies_in_place
    (collisionPairs : World.t -> completion (list nat * list nat))
    (world world' : World.global) (w w' : World.t) (dt : num) (i : nat) (f : Z) :
  World.step collisionPairs world w dt = Ok (w', world') ->
  World.fixed w !! i = Some f -> f <> 0%Z ->
  pose_at w' i = pose_at w i.
Proof.
  intros H Hfix Hf. destruct (World.paused w) eqn:Hrun.
  - unfold World.step in H. rewrite Hrun in H. injection H as <- _. reflexivity.
  - destruct world as [|g|].
    + destruct (step_phases collisionPairs w w' world' dt Hrun H)
        as (w5 & _ & H5 & ->).
      clear H.
      destruct (leapfrog_keeps dt w5) as [Hleap Hpose]. cbv zeta in Hleap, Hpose.
      destruct (reset_forces_spec (World.leapfrog dt w5)) as [Hreset _].
      cbv zeta in Hreset.
      set (w7 := World.reset_forces (World.leapfrog dt w5)) in *.
      destruct (with_clock_keeps w7 (World.paused w7) (World.time w7 + dt)
                  (World.stepnumber w7 + 1)) as (_ & _ & Hp & _ & _).
      cbv zeta in Hp.
      set (w8 := World.with_clock w7 (World.paused w7) (World.time w7 + dt)
                   (World.stepnumber w7 + 1) (World.gravity w7)) in *.
      assert (Hfix5 : World.fixed w5 !! i = Some f).
      { replace (World.fixed w5) with (World.fixed w); [exact Hfix|].
        unfold outline, data in H5. congruence. }
      specialize (Hpose i f Hfix5 Hf).
      assert (H8 : pose_at w8 i = pose_at (World.leapfrog dt w5) i).
      { unfold outline, placement in Hreset. unfold placement in Hp.
        unfold pose_at. congruence. }
      rewrite H8, Hpose.
      unfold outline, placement in H5. unfold pose_at. congruence.
    + destruct (step_phases_apart collisionPairs g w w' world' dt Hrun H)
        as (Hs & _).
      unfold settled, outline, placement in Hs. unfold pose_at. congruence.
    + unfold World.step in H. rewrite Hrun in H.
      apply bind_Ok in H. destruct H as (pairs & _ & H). discriminate H.
Qed.

(** X12 on the sphere of mass 0, over [dt = 1]. *)
Lemma step_leaves_fixed_bodies_in_place_lone_sphere :
  pose_at (Trial.stepped (Scene.lone_sphere 0) 1) 0 = pose_at (Scene.lone_sphere 0) 0.
Proof.
  apply (step_leaves_fixed_bodies_in_place NaiveBroadphase.collisionPairs
           World.Itself World.Itself
           (Scene.lone_sphere 0) (Trial.stepped (Scene.lone_sphere 0) 1) 1 0 1).
  - vm_compute. reflexivity.
  - vm_compute. reflexivity.
  - discriminate.
Defined.

(** X13.  When the global variable [world] names the world that is
    stepped: after a step of a world that is not paused and whose arrays
    hold one entry per body, every force and torque entry is [+0]: what
    [setForce] and [setTorque] stored acts during one step only. *)
Theorem step_clears_forces
    (collisionPairs : World.t -> completion (list nat * list nat))
    (world world' : World.global) (w w' : World.t) (dt : num) :
  world = World.Itself ->
  World.paused w = false ->
  sized w = true ->
  World.step collisionPairs world w dt = Ok (w', world') ->
  forces w' = replicate 6 (replicate (World.numObjects w) 0).
Proof.
  intros -> Hrun Hsized H.
  destruct (step_phases collisionPairs w w' world' dt Hrun H) as (w5 & _ & H5 & ->).
  clear H.
  destruct (leapfrog_keeps dt w5) as [Hleap _]. cbv zeta in Hleap.
  destruct (reset_forces_spec (World.leapfrog dt w5)) as [Hreset Hzero].
  cbv zeta in Hreset, Hzero.
  set (w6 := World.leapfrog dt w5) in *.
  set (w7 := World.reset_forces w6) in *.
  destruct (with_clock_keeps w7 (World.paused w7) (World.time w7 + dt)
              (World.stepnumber w7 + 1)) as (_ & _ & _ & Hf & _).
  cbv zeta in Hf. rewrite Hf. clear Hf.
  assert (Hc7 : census w7 = census w).
  { unfold outline in *. congruence. }
  assert (HN : World.numObjects w6 = World.numObjects w).
  { assert (Hc6 : census w6 = census w) by (unfold outline in *; congruence).
    unfold census in Hc6. cbn [map] in Hc6. injection Hc6 as Lx _.
    exact Lx. }
  rewrite HN in Hzero.
  sized_lengths Hsized.
  set (N := length (World.x w)) in *.
  unfold census in Hc7. cbn [map] in Hc7.
  injection Hc7 as Lx Ly Lz Lvx Lvy Lvz Lfx Lfy Lfz Ltx Lty Ltz _.
  assert (Hall : forall a : list num, length a = N ->
            (forall i : nat, (i < N)%nat -> (i < length a)%nat -> a !! i = Some 0) ->
            a = replicate N 0).
  { intros a La Ha. apply list_eq. intros i.
    destruct (decide (i < N)%nat) as [Hi|Hi].
    - rewrite Ha by lia. symmetry. apply lookup_replicate_2. exact Hi.
    - rewrite lookup_ge_None_2 by lia. symmetry.
      apply lookup_ge_None_2. rewrite length_replicate. lia. }
  assert (Hz : Forall (fun a : list num =>
                 forall i : nat, (i < N)%nat -> (i < length a)%nat -> a !! i = Some 0)
                 (forces w7)).
  { apply Forall_forall. intros a Hin i Hi.
    specialize (Hzero i Hi). rewrite Forall_forall in Hzero. apply Hzero. exact Hin. }
  unfold forces in *. cbn [replicate].
  repeat match goal with
         | H : Forall _ (_ :: _) |- _ =>
             let Hhd := fresh "Z" in
             apply Forall_cons_1 in H; destruct H as [Hhd H]
         end.
  clear Hreset Hleap H5 Hzero.
  repeat f_equal;
    (apply Hall; [unfold N; etransitivity; [eassumption | assumption] | assumption]).
Qed.

(** X13 on the flying sphere with the force (1,2,3). *)
Lemma step_clears_forces_pushed_sphere :
  forces Trial.pushed = [[1]; [2]; [3]; [0]; [0]; [0]]
  /\ forces (Trial.stepped Trial.pushed 0.5) = replicate 6 (replicate 1 0).
Proof.
  split; [vm_compute; reflexivity|].
  apply (step_clears_forces NaiveBroadphase.collisionPairs
           World.Itself World.Itself
           Trial.pushed (Trial.stepped Trial.pushed 0.5) 0.5).
  - reflexivity.
  - reflexivity.
  - vm_compute. reflexivity.
  - vm_compute. reflexivity.
Defined.


(** ** A world whose gravity was never set *)

Lemma add_nan_r (a : num) : a + nan = nan.
Proof.
  apply Prim2SF_inj. rewrite FloatAxioms.add_spec.
  change (Prim2SF nan) with S754_nan.
  destruct (Prim2SF a) as [s|s| |s m e]; reflexivity.
Qed.

Lemma mul_nan_l (b : num) : nan * b = nan.
Proof.
  apply Prim2SF_inj. rewrite FloatAxioms.mul_spec.
  change (Prim2SF nan) with S754_nan. reflexivity.
Qed.

Lemma fround_nan : fround nan = nan.
Proof. vm_compute. reflexivity. Qed.

(** A store of NaN and the read at the same index: NaN, in range or not. *)
Lemma getF_setF_nan (a : list num) (k : nat) (v : num) :
  v = nan -> getF (setF a k v) k = nan.
Proof.
  intros ->. unfold getF, setF. rewrite fround_nan.
  destruct (decide (k < length a)%nat) as [Hk|Hk].
  - rewrite list_lookup_insert_eq by exact Hk. reflexivity.
  - rewrite list_insert_ge by lia. rewrite lookup_ge_None_2 by lia. reflexivity.
Qed.

Lemma add_gravity_unset (w : World.t) :
  World.gravity w = None ->
  forall i : nat, (i < World.numObjects w)%nat ->
    getF (World.fx (World.add_gravity w)) i = nan
    /\ getF (World.fy (World.add_gravity w)) i = nan
    /\ getF (World.fz (World.add_gravity w)) i = nan.
Proof.
  intros Hg. unfold World.add_gravity.
  apply (fold_left_seq_ind
           (fun k w' =>
              World.gravity w' = None
              /\ forall i : nat, (i < k)%nat ->
                   getF (World.fx w') i = nan /\ getF (World.fy w') i = nan
                   /\ getF (World.fz w') i = nan)).
  - split; [exact Hg|]. intros i Hi. lia.
  - intros k w' _ [Hg' Hnan]. split.
    + destruct w'. exact Hg'.
    + intros i Hi.
      unfold World.gravity_x, World.gravity_y, World.gravity_z. rewrite Hg'.
      assert (Hcase : (i < k)%nat \/ i = k) by lia.
      destruct Hcase as [Hlt| ->].
      * destruct (Hnan i Hlt) as (Hx & Hy & Hz). clear Hnan.
        destruct w'. world_fields.
        rewrite !getF_setF_ne by lia. auto.
      * clear Hnan. destruct w'. world_fields.
        repeat split; apply getF_setF_nan; rewrite mul_nan_l; apply add_nan_r.
Qed.

(** The integration round of a body that is not fixed and on which a NaN
    force acts. *)
Lemma leapfrog_body_nan (dt : num) (w : World.t) (k : nat) :
  default 0%Z (World.fixed w !! k) = 0%Z ->
  getF (World.fx w) k = nan -> getF (World.fy w) k = nan ->
  getF (World.fz w) k = nan ->
  drift (World.leapfrog_body dt w k) k = replicate 6 nan.
Proof.
  intros Hmove Hx Hy Hz. destruct w. world_fields. world_eval.
  rewrite bool_decide_eq_true_2 by exact Hmove.
  unfold drift. world_fields. cbn [replicate].
  assert (Hv : forall (a : list num) (f m : num),
            f = nan -> getF (setF a k (getF a k + f * m * dt)) k = nan).
  { intros a f m ->. apply getF_setF_nan. rewrite !mul_nan_l. apply add_nan_r. }
  rewrite !Hv by assumption.
  repeat f_equal; apply getF_setF_nan; rewrite mul_nan_l; apply add_nan_r.
Qed.

Lemma leapfrog_body_other (dt : num) (w : World.t) (k i : nat) :
  i <> k -> drift (World.leapfrog_body dt w k) i = drift w i.
Proof.
  intros Hik. destruct w. world_eval.
  match goal with
  | |- context [bool_decide ?P] => destruct (bool_decide P)
  end; [|reflexivity].
  unfold drift. world_fields. rewrite !getF_setF_ne by congruence. reflexivity.
Qed.

Lemma leapfrog_nan (dt : num) (w : World.t) (i : nat) :
  (i < World.numObjects w)%nat ->
  default 0%Z (World.fixed w !! i) = 0%Z ->
  getF (World.fx w) i = nan -> getF (World.fy w) i = nan ->
  getF (World.fz w) i = nan ->
  drift (World.leapfrog dt w) i = replicate 6 nan.
Proof.
  intros Hi Hmove Hx Hy Hz. unfold World.leapfrog.
  enough (Hinv :
    (fun k w' =>
       (data w', forces w') = (data w, forces w)
       /\ ((i < k)%nat -> drift w' i = replicate 6 nan))
      (World.numObjects w)
      (fold_left (World.leapfrog_body dt) (seq 0 (World.numObjects w)) w)).
  { apply Hinv. exact Hi. }
  apply fold_left_seq_ind.
  - split; [reflexivity|]. lia.
  - intros k w' _ [Hkeep Hnan].
    destruct (leapfrog_body_keeps dt w' k) as [Hkeep' _]. cbv zeta in Hkeep'.
    split; [congruence|]. intros Hlt.
    destruct (decide (i = k)) as [->|Hne].
    + unfold data, forces in Hkeep.
      injection Hkeep as _ _ Hfix _ _ _ _ _ _ _ _ _ _ Hfx Hfy Hfz _ _ _.
      apply leapfrog_body_nan; congruence.
    + rewrite leapfrog_body_other by exact Hne. apply Hnan. lia.
Qed.

Lemma drift_with_clock (w : World.t) (p : bool) (t n : num) (g : option Vec3.t)
    (i : nat) :
  drift (World.with_clock w p t n g) i = drift w i.
Proof. destruct w. reflexivity. Qed.

(** X14.  When the global variable [world] names the world that is
    stepped: while the gravity of the world has not been set, its
    property [gravity] has no [x], [y], [z], and the force that a step
    adds is NaN: after a step that returns, the linear velocity and the
    position of every body that is not fixed are NaN, for every
    broadphase and every [dt]. *)
Theorem step_without_gravity_gives_NaN
    (collisionPairs : World.t -> completion (list nat * list nat))
    (world world' : World.global) (w w' : World.t) (dt : num) (i : nat) :
  world = World.Itself ->
  World.paused w = false ->
  World.gravity w = None ->
  World.step collisionPairs world w dt = Ok (w', world') ->
  (i < World.numObjects w)%nat ->
  default 0%Z (World.fixed w !! i) = 0%Z ->
  drift w' i = replicate 6 nan.
Proof.
  intros -> Hrun Hg H Hi Hmove.
  destruct (step_phases collisionPairs w w' world' dt Hrun H) as (w5 & Hs & Ho & ->).
  clear H. rewrite drift_with_clock.
  destruct (reset_forces_spec (World.leapfrog dt w5)) as [Hreset _].
  cbv zeta in Hreset.
  assert (Hd : drift (World.reset_forces (World.leapfrog dt w5)) i
               = drift (World.leapfrog dt w5) i).
  { unfold outline, placement in Hreset. unfold drift. congruence. }
  rewrite Hd. clear Hd Hreset.
  pose proof (settled_transfer_contacts w) as Ht.
  assert (Hg1 : World.gravity (World.transfer_contacts w) = None).
  { unfold settled, outline, data in Ht. congruence. }
  assert (HN1 : World.numObjects (World.transfer_contacts w) = World.numObjects w).
  { unfold settled, outline, placement in Ht. unfold World.numObjects. congruence. }
  destruct (add_gravity_unset (World.transfer_contacts w) Hg1 i
              ltac:(rewrite HN1; exact Hi)) as (Hx & Hy & Hz).
  unfold settled, forces in Hs. injection Hs as _ Hfx Hfy Hfz _ _ _.
  apply leapfrog_nan.
  - unfold outline, placement in Ho. unfold World.numObjects in *. congruence.
  - unfold outline, data in Ho. congruence.
  - congruence.
  - congruence.
  - congruence.
Qed.

(** X14 on a sphere of mass 1 in a new world. *)
Lemma step_without_gravity_gives_NaN_weightless :
  drift (Trial.stepped Trial.weightless 1) 0 = replicate 6 nan.
Proof.
  apply (step_without_gravity_gives_NaN NaiveBroadphase.collisionPairs
           World.Itself World.Itself
           Trial.weightless (Trial.stepped Trial.weightless 1) 1 0).
  - reflexivity.
  - reflexivity.
  - reflexivity.
  - vm_compute. reflexivity.
  - vm_compute. lia.
  - vm_compute. reflexivity.
Defined.


(** ** Vectors without a direction *)

Lemma add_nan_l (b : num) : nan + b = nan.
Proof.
  apply Prim2SF_inj. rewrite FloatAxioms.add_spec.
  change (Prim2SF nan) with S754_nan. reflexivity.
Qed.

Lemma mul_nan_r (a : num) : a * nan = nan.
Proof.
  apply Prim2SF_inj. rewrite FloatAxioms.mul_spec.
  change (Prim2SF nan) with S754_nan.
  destruct (Prim2SF a) as [s|s| |s m e]; reflexivity.
Qed.

Lemma is_nan_eq (v : num) : is_nan v = true -> v = nan.
Proof.
  unfold is_nan. rewrite FloatAxioms.eqb_spec. intros H.
  apply Prim2SF_inj. change (Prim2SF nan) with S754_nan.
  destruct (Prim2SF v) as [s|s| |s m e]; cbn in H; try discriminate.
  - destruct s; discriminate.
  - reflexivity.
  - destruct s; cbn in H; rewrite ?Z.compare_refl, ?Pos.compare_cont_refl in H;
      cbn in H; discriminate.
Qed.

Lemma is_zero_eq (v : num) : is_zero v = true -> v = 0 \/ v = -0.
Proof.
  intros H. apply is_zero_spec in H. destruct H as [[|] H].
  - right. apply Prim2SF_inj. rewrite H. reflexivity.
  - left. apply Prim2SF_inj. rewrite H. reflexivity.
Qed.

(** X15.  [normalize] gives the vector (0,0,0) for a vector with a NaN
    component, as it does for a zero vector: the NaN is not passed on. *)
Theorem Vec3_normalize_without_direction (v : Vec3.t) :
  is_nan (Vec3.x v) || is_nan (Vec3.y v) || is_nan (Vec3.z v) = true
  \/ zero_vector v = true ->
  fst (Vec3.normalize v) = Vec3.mk 0 0 0.
Proof.
  destruct v as [x y z]. unfold Vec3.normalize, zero_vector.
  cbn [Vec3.x Vec3.y Vec3.z].
  intros [Hnan|Hzero].
  - assert (Hn : sqrt (x * x + y * y + z * z) = nan).
    { apply Prim2SF_inj. rewrite FloatAxioms.sqrt_spec.
      change (Prim2SF nan) with S754_nan.
      assert (Hs : x * x + y * y + z * z = nan).
      { apply orb_prop in Hnan. destruct Hnan as [Hnan|Hz].
        - apply orb_prop in Hnan. destruct Hnan as [Hx|Hy].
          + apply is_nan_eq in Hx. subst x.
            rewrite mul_nan_l, !add_nan_l. reflexivity.
          + apply is_nan_eq in Hy. subst y.
            rewrite mul_nan_l, add_nan_r, add_nan_l. reflexivity.
        - apply is_nan_eq in Hz. subst z. rewrite mul_nan_l, add_nan_r.
          reflexivity. }
      rewrite Hs. reflexivity. }
    rewrite Hn. reflexivity.
  - apply andb_prop in Hzero. destruct Hzero as [Hzero Hz].
    apply andb_prop in Hzero. destruct Hzero as [Hx Hy].
    destruct (is_zero_eq x Hx) as [-> | ->], (is_zero_eq y Hy) as [-> | ->],
      (is_zero_eq z Hz) as [-> | ->]; vm_compute; reflexivity.
Qed.

(** X15 on the vector (1, NaN, 2). *)
Lemma Vec3_normalize_without_direction_nan :
  fst (Vec3.normalize (Vec3.mk 1 nan 2)) = Vec3.mk 0 0 0.
Proof.
  apply (Vec3_normalize_without_direction (Vec3.mk 1 nan 2)).
  left. vm_compute. reflexivity.
Defined.


(** X16.  A contact bit is kept for one step: after two transfers with
    nothing stored in between, every cell off the diagonal of the contact
    matrix is 0. *)
Theorem two_transfers_forget_every_contact (w : World.t) (a b : nat) :
  let N := World.numObjects w in
  length (World.collision_matrix w) = (N * N)%nat ->
  Forall int16 (World.collision_matrix w) ->
  (a < N)%nat -> (b < N)%nat -> a <> b ->
  World.collision_matrix (World.transfer_contacts (World.transfer_contacts w))
    !! (a + b * N)%nat = Some 0%Z.
Proof.
  intros N Hlen Hint Ha Hb Hab.
  destruct (transfer_contacts_inv w Hlen Hint) as (HN1 & Hlen1 & Hint1 & Hcells1).
  fold N in HN1, Hlen1, Hcells1.
  set (w1 := World.transfer_contacts w) in *.
  assert (Hlen1' : length (World.collision_matrix w1)
                   = (World.numObjects w1 * World.numObjects w1)%nat).
  { rewrite HN1. exact Hlen1. }
  destruct (transfer_contacts_inv w1 Hlen1' Hint1) as (_ & _ & _ & Hcells2).
  rewrite HN1 in Hcells2.
  destruct (Nat.lt_ge_cases a b) as [Hlt|Hge].
  - destruct (Hcells2 b a Hlt Hb) as [Ht2 _].
    destruct (Ht2 ltac:(lia)) as [_ Hp2].
    destruct (Hcells1 b a Hlt Hb) as [Ht1 _].
    destruct (Ht1 ltac:(lia)) as [Hc1 _].
    rewrite Hp2. exact Hc1.
  - assert (Hlt : (b < a)%nat) by lia.
    destruct (Hcells2 a b Hlt Ha) as [Ht2 _].
    destruct (Ht2 ltac:(lia)) as [Hc2 _]. exact Hc2.
Qed.

(** X16 on the two spheres with the previous-step bit of their pair set. *)
Lemma two_transfers_forget_every_contact_marked :
  World.collision_matrix Trial.marked
    !! (0 + 1 * World.numObjects Trial.marked)%nat = Some 1%Z
  /\ World.collision_matrix
       (World.transfer_contacts (World.transfer_contacts Trial.marked))
       !! (0 + 1 * World.numObjects Trial.marked)%nat = Some 0%Z.
Proof.
  split; [vm_compute; reflexivity|].
  apply (two_transfers_forget_every_contact Trial.marked 0 1).
  - vm_compute. reflexivity.
  - vm_compute. repeat constructor; discriminate.
  - vm_compute. lia.
  - vm_compute. lia.
  - lia.
Defined.


(** ** Another world under the name [world] *)

(** X17.  When the global variable [world] names another world than the
    one whose [step] is called, a step that runs and returns integrates
    that other world: the time, the step number, the positions, the
    orientations and the forces of the stepped world are what they were,
    and the time and the step number of the other world have advanced by
    [dt] and by 1, its data and the lengths of its arrays being kept. *)
Theorem step_integrates_the_global_world
    (collisionPairs : World.t -> completion (list nat * list nat))
    (g w w' : World.t) (world' : World.global) (dt : num) :
  World.paused w = false ->
  World.step collisionPairs (World.Another g) w dt = Ok (w', world') ->
  clock w' = clock w /\ placement w' = placement w /\ forces w' = forces w
  /\ exists g',
       world' = World.Another g'
       /\ data g' = data g /\ census g' = census g
       /\ clock g' = (World.time g + dt, World.stepnumber g + 1).
Proof.
  intros Hrun H.
  destruct (step_phases_apart collisionPairs g w w' world' dt Hrun H)
    as (Hs & g5 & Hg5 & ->).
  clear H. unfold settled, outline in Hs.
  split; [congruence|]. split; [congruence|]. split; [congruence|].
  destruct (finished_keeps dt g5) as (Hd & Hc & Hclk).
  cbv zeta in Hd, Hc, Hclk.
  eexists. split; [reflexivity|].
  rewrite Hd, Hc, Hclk. unfold outline, clock in Hg5.
  repeat split; congruence.
Qed.

(** X17 on the sphere of mass 1 stepped while [world] names the pushed
    sphere: the pushed sphere is the one that moves on. *)
Lemma step_integrates_the_global_world_pushed :
  clock (fst Trial.stepped_apart) = (0, 0)
  /\ exists g',
       snd Trial.stepped_apart = World.Another g'
       /\ clock g' = (0 + 0.5, 0 + 1).
Proof.
  destruct (step_integrates_the_global_world NaiveBroadphase.collisionPairs
              Trial.pushed (Scene.lone_sphere 1)
              (fst Trial.stepped_apart) (snd Trial.stepped_apart) 0.5)
    as (Hclk & _ & _ & g' & Hg' & _ & _ & Hclk').
  - reflexivity.
  - vm_compute. reflexivity.
  - split; [exact Hclk|]. exists g'. split; [exact Hg' | exact Hclk'].
Defined.


(** ** Worlds without bodies and pages without [world] *)




(** ** The gravity setter *)


